(** * ReplayBot: recorder / player state machines and the recording manager

    A shallow embedding of [replay_bot.py].  Python objects live in heaps
    (one per class) and are referred to by address, so that aliasing and
    the identity test [is] are what they are in the source.  Methods are
    computations in a small state-and-exception monad over the whole
    world; calls into the host (Source.Python) are answered by an abstract
    [Host] and logged in a trace. *)

From Stdlib Require Import ZArith QArith Lia Bool.
From Stdlib Require SpecFloat.
From stdpp Require Import base list strings.

Open Scope Z_scope.

(** ** Values of the host *)

(** The floats that the program only stores, copies and compares
    (coordinates, angles, moves, the clock) are modelled by the rational
    number they denote.  The floats it computes with (the tick interval and
    the times derived from it) are binary64 numbers, see [float]. *)

Record Vector := { vx : Q; vy : Q; vz : Q }.
Record QAngle := { pitch : Q; yaw : Q; roll : Q }.

Definition Edict := Z.
Definition Controller := Z.

(** The fields that [create_bcmd_from_ucmd] copies. *)
Record UserCmd := {
  ucmd_command_number : Z;
  ucmd_tick_count : Z;
  ucmd_view_angles : QAngle;
  ucmd_forward_move : Q;
  ucmd_side_move : Q;
  ucmd_up_move : Q;
  ucmd_buttons : Z;
  ucmd_impulse : Z;
  ucmd_weaponselect : Z;
  ucmd_weaponsubtype : Z;
  ucmd_random_seed : Z;
  ucmd_mousedx : Z;
  ucmd_mousedy : Z;
  ucmd_has_been_predicted : bool
}.

Record BotCmd := {
  command_number : Z;
  tick_count : Z;
  view_angles : QAngle;
  forward_move : Q;
  side_move : Q;
  up_move : Q;
  buttons : Z;
  impulse : Z;
  weaponselect : Z;
  weaponsubtype : Z;
  random_seed : Z;
  mousedx : Z;
  mousedy : Z;
  has_been_predicted : bool
}.

(** ** Objects *)

(** An address is the identity of a Python object. *)
Definition addr := nat.

Record Snapshot := {
  Snapshot_origin : Vector;
  Snapshot_angle : QAngle;
  Snapshot_velocity : Vector;
  Snapshot_bcmd : BotCmd
}.

Record PlayerData := {
  PlayerData_name : string;
  PlayerData_steamid : string;
  PlayerData_team : Z
}.

(** ** Floating point *)

(** A Python float is a C double: an IEEE 754 binary64 number, that is a
    signed zero, a signed infinity, a NaN, or [(-1)^s * m * 2^e] with a
    mantissa [m] of at most 53 bits, normalised as
    [SpecFloat.valid_binary prec emax] says.  The arithmetic is that of
    [SpecFloat], which rounds to nearest, ties to even, as the hardware
    does. *)
Definition float : Type := SpecFloat.spec_float.

Definition prec : Z := 53.
Definition emax : Z := 1024.

Definition float_mul : float → float → float := SpecFloat.SFmul prec emax.
Definition float_sub : float → float → float := SpecFloat.SFsub prec emax.

(** The float nearest to an int, ties to even; an infinity when the
    nearest float would be [2^1024] or beyond. *)
Definition float_of_int (z : Z) : float :=
  SpecFloat.binary_normalize prec emax z 0 false.

(** [class Recording(list)]: the list part holds the snapshots (by
    reference), the rest are the attributes set by [__init__]. *)
Record Recording := {
  Recording_items : list addr;
  Recording_creation_time : Q;
  Recording_game : string;
  Recording_map_name : string;
  Recording_tick_interval : float;
  Recording_player : PlayerData
}.

Module PlayerState.

Inductive t := PAUSED | PLAYING | STOPPED.

Definition value (s : t) : Z :=
  match s with PAUSED => 0 | PLAYING => 1 | STOPPED => 2 end.

(** An [IntEnum] compares by value. *)
Definition eqb (a b : t) : bool := value a =? value b.

End PlayerState.

Module RecorderState.

Inductive t := PAUSED | RECORDING | STOPPED.

Definition value (s : t) : Z :=
  match s with PAUSED => 0 | RECORDING => 1 | STOPPED => 2 end.

Definition eqb (a b : t) : bool := value a =? value b.

End RecorderState.

(** [replay_bot] is an [SPPlayer] wrapping an entity index; the model keeps
    the index. *)
Record Player := {
  Player_tick : Z;
  Player_recording : addr;
  Player_state : PlayerState.t;
  Player_controller : Controller;
  Player_replay_bot : Z;
  Player_adjust : bool
}.

Record Recorder := {
  Recorder_player : Z;
  Recorder_state : RecorderState.t;
  Recorder_recording : option addr
}.

(** ** Trace of calls *)

(** Calls into the host, in the order the program makes them, together
    with the entries into the two [handle_tick] methods. *)
Inductive Event :=
| EnterRecorderTick (self : addr)
| EnterPlayerTick (self : addr)
| CreateBot (name : string) (result : option Edict)
| GetBotController (edict : Edict) (result : option Controller)
| RunPlayerMove (controller : Controller) (bcmd : BotCmd)
| Teleport (bot : Z) (origin : Vector) (angle : QAngle) (velocity : Vector)
| SetTeam (bot : Z) (team : Z)
| Spawn (bot : Z) (force : bool).

(** What the host answers, given the calls made so far. *)
Record Host := {
  time_time : list Event → Q;
  SOURCE_ENGINE_BRANCH : string;
  global_vars_map_name : list Event → string;
  server_tick_interval : list Event → float;
  sp_name : list Event → Z → string;
  sp_steamid : list Event → Z → string;
  sp_team : list Event → Z → Z;
  sp_origin : list Event → Z → Vector;
  sp_angles : list Event → Z → QAngle;
  sp_velocity : list Event → Z → Vector;
  sp_last_user_command : list Event → Z → UserCmd;
  bot_manager_create_bot : list Event → string → option Edict;
  bot_manager_get_bot_controller : list Event → Edict → option Controller;
  index_from_edict : Edict → Z;
  get_distance_sqr : Vector → Vector → Q
}.

(** ** The world *)

(** [recording_mgr] is the list part of the [RecordingManager] singleton;
    [recorders] and [players] are its two class-level dicts, kept in
    insertion order as Python does. *)
Record World := {
  snapshot_heap : list Snapshot;
  recording_heap : list Recording;
  recorder_heap : list Recorder;
  player_heap : list Player;
  recording_mgr : list addr;
  recorders : list (Z * addr);
  players : list (Z * addr);
  trace : list Event
}.

Definition empty_world : World :=
  {| snapshot_heap := []; recording_heap := []; recorder_heap := [];
     player_heap := []; recording_mgr := []; recorders := [];
     players := []; trace := [] |}.

Definition with_snapshot_heap (f : list Snapshot → list Snapshot) (w : World) : World :=
  {| snapshot_heap := f (snapshot_heap w); recording_heap := recording_heap w;
     recorder_heap := recorder_heap w; player_heap := player_heap w;
     recording_mgr := recording_mgr w; recorders := recorders w;
     players := players w; trace := trace w |}.

Definition with_recording_heap (f : list Recording → list Recording) (w : World) : World :=
  {| snapshot_heap := snapshot_heap w; recording_heap := f (recording_heap w);
     recorder_heap := recorder_heap w; player_heap := player_heap w;
     recording_mgr := recording_mgr w; recorders := recorders w;
     players := players w; trace := trace w |}.

Definition with_recorder_heap (f : list Recorder → list Recorder) (w : World) : World :=
  {| snapshot_heap := snapshot_heap w; recording_heap := recording_heap w;
     recorder_heap := f (recorder_heap w); player_heap := player_heap w;
     recording_mgr := recording_mgr w; recorders := recorders w;
     players := players w; trace := trace w |}.

Definition with_player_heap (f : list Player → list Player) (w : World) : World :=
  {| snapshot_heap := snapshot_heap w; recording_heap := recording_heap w;
     recorder_heap := recorder_heap w; player_heap := f (player_heap w);
     recording_mgr := recording_mgr w; recorders := recorders w;
     players := players w; trace := trace w |}.

Definition with_recording_mgr (f : list addr → list addr) (w : World) : World :=
  {| snapshot_heap := snapshot_heap w; recording_heap := recording_heap w;
     recorder_heap := recorder_heap w; player_heap := player_heap w;
     recording_mgr := f (recording_mgr w); recorders := recorders w;
     players := players w; trace := trace w |}.

Definition with_recorders (f : list (Z * addr) → list (Z * addr)) (w : World) : World :=
  {| snapshot_heap := snapshot_heap w; recording_heap := recording_heap w;
     recorder_heap := recorder_heap w; player_heap := player_heap w;
     recording_mgr := recording_mgr w; recorders := f (recorders w);
     players := players w; trace := trace w |}.

Definition with_players (f : list (Z * addr) → list (Z * addr)) (w : World) : World :=
  {| snapshot_heap := snapshot_heap w; recording_heap := recording_heap w;
     recorder_heap := recorder_heap w; player_heap := player_heap w;
     recording_mgr := recording_mgr w; recorders := recorders w;
     players := f (players w); trace := trace w |}.

Definition with_trace (f : list Event → list Event) (w : World) : World :=
  {| snapshot_heap := snapshot_heap w; recording_heap := recording_heap w;
     recorder_heap := recorder_heap w; player_heap := player_heap w;
     recording_mgr := recording_mgr w; recorders := recorders w;
     players := players w; trace := f (trace w) |}.

(** ** Exceptions and the monad *)

(** [DanglingRef] is not a Python exception: it is what the model answers
    when an address is not allocated, which no Python reference ever is. *)
Inductive exn :=
| ValueError (msg : string)
| TypeError
| IndexError
| AttributeError
| OverflowError
| DanglingRef.

Definition M (A : Type) : Type := World → World * (exn + A).

Definition ret {A} (a : A) : M A := fun w => (w, inr a).

Definition raise {A} (e : exn) : M A := fun w => (w, inl e).

Definition bind {A B} (m : M A) (k : A → M B) : M B :=
  fun w => match m w with
           | (w', inr a) => k a w'
           | (w', inl e) => (w', inl e)
           end.

Notation "'let*' x := m 'in' k" := (bind m (fun x => k))
  (at level 10, x name, m at level 100, k at level 200).

Definition gets {A} (f : World → A) : M A := fun w => (w, inr (f w)).

Definition modify (f : World → World) : M unit := fun w => (f w, inr tt).

Definition lift {A} (r : exn + A) : M A := fun w => (w, r).

Definition log (e : Event) : M unit := modify (with_trace (fun t => t ++ [e])).

(** The world a computation leaves and what it returns or raises. *)
Definition world_after {A} (m : M A) (w : World) : World := fst (m w).
Definition outcome {A} (m : M A) (w : World) : exn + A := snd (m w).

Fixpoint for_each {A} (l : list A) (body : A → M unit) : M unit :=
  match l with
  | [] => ret tt
  | x :: l' => let* _ := body x in for_each l' body
  end.

(** ** Python lists, dicts and numbers *)

Definition len {A} (l : list A) : Z := Z.of_nat (length l).

(** [l[i]]: a negative index counts from the end, anything outside
    [-len .. len-1] raises [IndexError]. *)
Definition py_getitem {A} (l : list A) (i : Z) : exn + A :=
  let j := if i <? 0 then len l + i else i in
  if j <? 0 then inl IndexError
  else match l !! Z.to_nat j with
       | Some x => inr x
       | None => inl IndexError
       end.

(** [d[k] = v] on an insertion-ordered dict: an existing key keeps its
    place, a new key goes last. *)
Fixpoint dict_setitem {V} (k : Z) (v : V) (d : list (Z * V)) : list (Z * V) :=
  match d with
  | [] => [(k, v)]
  | (k', v') :: d' =>
      if k' =? k then (k, v) :: d' else (k', v') :: dict_setitem k v d'
  end.

Fixpoint dict_get {V} (k : Z) (d : list (Z * V)) : option V :=
  match d with
  | [] => None
  | (k', v') :: d' => if k' =? k then Some v' else dict_get k d'
  end.

Definition dict_values {V} (d : list (Z * V)) : list V := map snd d.

(** The Python values that [Player.remaining_time] computes with: numbers,
    and the bound method that looking up a plain [def] on an instance
    yields. *)
Inductive pyval :=
| PyInt (z : Z)
| PyFloat (f : float)
| PyBoundMethod (self : addr) (name : string).

(** The least int that is too large for a float: from here on the nearest
    binary64 number would be [2^1024]. *)
Definition float_overflow : Z := 2 ^ 1024 - 2 ^ 970.

(** The conversion that float arithmetic applies to an int operand
    ([PyLong_AsDouble]): the nearest float, or [OverflowError] ("int too
    large to convert to float"). *)
Definition PyLong_AsDouble (z : Z) : exn + float :=
  if Z.abs z <? float_overflow then inr (float_of_int z) else inl OverflowError.

(** A float operation on two numbers, of which one at least is a float:
    the int operand is converted first. *)
Definition float_binop (op : float → float → float) (a b : exn + float) :
    exn + pyval :=
  match a, b with
  | inr x, inr y => inr (PyFloat (op x y))
  | inl e, _ => inl e
  | _, inl e => inl e
  end.

Definition py_mul (a b : pyval) : exn + pyval :=
  match a, b with
  | PyInt x, PyInt y => inr (PyInt (x * y))
  | PyInt x, PyFloat y => float_binop float_mul (PyLong_AsDouble x) (inr y)
  | PyFloat x, PyInt y => float_binop float_mul (inr x) (PyLong_AsDouble y)
  | PyFloat x, PyFloat y => float_binop float_mul (inr x) (inr y)
  | _, _ => inl TypeError
  end.

Definition py_sub (a b : pyval) : exn + pyval :=
  match a, b with
  | PyInt x, PyInt y => inr (PyInt (x - y))
  | PyInt x, PyFloat y => float_binop float_sub (PyLong_AsDouble x) (inr y)
  | PyFloat x, PyInt y => float_binop float_sub (inr x) (PyLong_AsDouble y)
  | PyFloat x, PyFloat y => float_binop float_sub (inr x) (inr y)
  | _, _ => inl TypeError
  end.

(** ** Heap access *)

Definition deref {A} (heap : World → list A) (a : addr) : M A :=
  fun w => match heap w !! a with
           | Some x => (w, inr x)
           | None => (w, inl DanglingRef)
           end.

Definition deref_snapshot := deref snapshot_heap.
Definition deref_recording := deref recording_heap.
Definition deref_recorder := deref recorder_heap.
Definition deref_player := deref player_heap.

(** [self.attr = ...] on an allocated object. *)
Definition update_recording (a : addr) (f : Recording → Recording) : M unit :=
  let* r := deref_recording a in
  modify (with_recording_heap (fun h => <[a := f r]> h)).

Definition update_recorder (a : addr) (f : Recorder → Recorder) : M unit :=
  let* r := deref_recorder a in
  modify (with_recorder_heap (fun h => <[a := f r]> h)).

Definition update_player (a : addr) (f : Player → Player) : M unit :=
  let* p := deref_player a in
  modify (with_player_heap (fun h => <[a := f p]> h)).

(** A new object gets the next free address of its heap. *)
Definition new_snapshot (s : Snapshot) : M addr :=
  fun w => (with_snapshot_heap (fun h => h ++ [s]) w, inr (length (snapshot_heap w))).

Definition new_recording (r : Recording) : M addr :=
  fun w => (with_recording_heap (fun h => h ++ [r]) w, inr (length (recording_heap w))).

Definition new_recorder (r : Recorder) : M addr :=
  fun w => (with_recorder_heap (fun h => h ++ [r]) w, inr (length (recorder_heap w))).

Definition new_player (p : Player) : M addr :=
  fun w => (with_player_heap (fun h => h ++ [p]) w, inr (length (player_heap w))).

Definition set_items (l : list addr) (r : Recording) : Recording :=
  {| Recording_items := l; Recording_creation_time := Recording_creation_time r;
     Recording_game := Recording_game r; Recording_map_name := Recording_map_name r;
     Recording_tick_interval := Recording_tick_interval r;
     Recording_player := Recording_player r |}.

Definition set_Recorder_state (s : RecorderState.t) (r : Recorder) : Recorder :=
  {| Recorder_player := Recorder_player r; Recorder_state := s;
     Recorder_recording := Recorder_recording r |}.

Definition set_Recorder_recording (x : option addr) (r : Recorder) : Recorder :=
  {| Recorder_player := Recorder_player r; Recorder_state := Recorder_state r;
     Recorder_recording := x |}.

Definition set_Player_tick (t : Z) (p : Player) : Player :=
  {| Player_tick := t; Player_recording := Player_recording p;
     Player_state := Player_state p; Player_controller := Player_controller p;
     Player_replay_bot := Player_replay_bot p; Player_adjust := Player_adjust p |}.

Definition set_Player_state (s : PlayerState.t) (p : Player) : Player :=
  {| Player_tick := Player_tick p; Player_recording := Player_recording p;
     Player_state := s; Player_controller := Player_controller p;
     Player_replay_bot := Player_replay_bot p; Player_adjust := Player_adjust p |}.

(** ** Equality and membership of recordings *)

(** [Snapshot] defines no [__eq__]: two snapshots are equal when they are
    the same object. *)
Definition Snapshot_eq (a b : addr) : bool := Nat.eqb a b.

(** [list.__eq__], which [Recording] inherits: same length and equal
    elements. *)
Fixpoint list_eq (l1 l2 : list addr) : bool :=
  match l1, l2 with
  | [], [] => true
  | a :: l1', b :: l2' => Snapshot_eq a b && list_eq l1' l2'
  | _, _ => false
  end.

(** What [in] and [==] do on two elements: identity first, then [==]. *)
Definition Recording_eq (a b : addr) : M bool :=
  if Nat.eqb a b then ret true
  else
    let* ra := deref_recording a in
    let* rb := deref_recording b in
    ret (list_eq (Recording_items ra) (Recording_items rb)).

(** [x in l] for a list of recordings. *)
Fixpoint list_contains (l : list addr) (x : addr) : M bool :=
  match l with
  | [] => ret false
  | e :: l' =>
      let* b := Recording_eq e x in
      if b then ret true else list_contains l' x
  end.

(** ** The program *)

Section Program.

Variable host : Host.

(** A read of the host's state, answered from the calls made so far. *)
Definition ask {A} (f : Host → list Event → A) : M A :=
  fun w => (w, inr (f host (trace w))).

(** *** Snapshot *)

Definition Snapshot_replay_bcmd (self : Snapshot) (controller : Controller) : M unit :=
  log (RunPlayerMove controller (Snapshot_bcmd self)).

Definition Snapshot_replay_location (self : Snapshot) (player : Z) : M unit :=
  log (Teleport player (Snapshot_origin self) (Snapshot_angle self)
         (Snapshot_velocity self)).

(** *** Recording *)

Definition Recording_init (player : Z) : M addr :=
  let* creation_time := ask time_time in
  let* map_name := ask global_vars_map_name in
  let* tick_interval := ask server_tick_interval in
  let* name := ask (fun h t => sp_name h t player) in
  let* steamid := ask (fun h t => sp_steamid h t player) in
  let* team := ask (fun h t => sp_team h t player) in
  new_recording
    {| Recording_items := [];
       Recording_creation_time := creation_time;
       Recording_game := SOURCE_ENGINE_BRANCH host;
       Recording_map_name := map_name;
       Recording_tick_interval := tick_interval;
       Recording_player :=
         {| PlayerData_name := name; PlayerData_steamid := steamid;
            PlayerData_team := team |} |}.

Definition Recording_is_playable (self : addr) : M bool :=
  let* r := deref_recording self in
  ret (0 <? len (Recording_items r)).

(** The [duration] property, [len(self) * self.tick_interval]: the length
    is converted to a float and the two floats are multiplied.  A list has
    at most [sys.maxsize] elements, far fewer than [float_overflow], so the
    conversion of its length does not raise and is [float_of_int] itself;
    for these lengths the result is that of [py_mul]. *)
Definition Recording_duration (self : addr) : M pyval :=
  let* r := deref_recording self in
  ret (PyFloat (float_mul (float_of_int (len (Recording_items r)))
                          (Recording_tick_interval r))).

Definition Recording_create_bcmd_from_ucmd (ucmd : UserCmd) : BotCmd :=
  {| command_number := ucmd_command_number ucmd;
     tick_count := ucmd_tick_count ucmd;
     view_angles := ucmd_view_angles ucmd;
     forward_move := ucmd_forward_move ucmd;
     side_move := ucmd_side_move ucmd;
     up_move := ucmd_up_move ucmd;
     buttons := ucmd_buttons ucmd;
     impulse := ucmd_impulse ucmd;
     weaponselect := ucmd_weaponselect ucmd;
     weaponsubtype := ucmd_weaponsubtype ucmd;
     random_seed := ucmd_random_seed ucmd;
     mousedx := ucmd_mousedx ucmd;
     mousedy := ucmd_mousedy ucmd;
     has_been_predicted := ucmd_has_been_predicted ucmd |}.

Definition Recording_create_snapshot (player : Z) : M addr :=
  let* origin := ask (fun h t => sp_origin h t player) in
  let* angles := ask (fun h t => sp_angles h t player) in
  let* velocity := ask (fun h t => sp_velocity h t player) in
  let* ucmd := ask (fun h t => sp_last_user_command h t player) in
  new_snapshot
    {| Snapshot_origin := origin; Snapshot_angle := angles;
       Snapshot_velocity := velocity;
       Snapshot_bcmd := Recording_create_bcmd_from_ucmd ucmd |}.

Definition Recording_add_snapshot (self : addr) (player : Z) : M unit :=
  let* s := Recording_create_snapshot player in
  update_recording self (fun r => set_items (Recording_items r ++ [s]) r).

(** *** Player *)

Definition Player_init (recording : addr) (controller : Controller)
    (replay_bot : Z) (adjust : bool) : M addr :=
  new_player
    {| Player_tick := 0; Player_recording := recording;
       Player_state := PlayerState.PAUSED; Player_controller := controller;
       Player_replay_bot := replay_bot; Player_adjust := adjust |}.

Definition Player_resume (self : addr) : M unit :=
  update_player self (set_Player_state PlayerState.PLAYING).

Definition Player_pause (self : addr) : M unit :=
  update_player self (set_Player_state PlayerState.PAUSED).

Definition Player_start (self : addr) : M unit :=
  let* _ := update_player self (set_Player_tick 0) in
  let* p := deref_player self in
  let* r := deref_recording (Player_recording p) in
  let* _ := log (SetTeam (Player_replay_bot p) (PlayerData_team (Recording_player r))) in
  let* _ := log (Spawn (Player_replay_bot p) true) in
  Player_resume self.

Definition Player_stop (self : addr) : M unit :=
  let* p := deref_player self in
  let* r := deref_recording (Player_recording p) in
  let* _ := update_player self (set_Player_tick (len (Recording_items r) - 1)) in
  update_player self (set_Player_state PlayerState.STOPPED).

(** [played_time] is a plain method, not a property. *)
Definition Player_played_time (self : addr) : M pyval :=
  let* p := deref_player self in
  let* r := deref_recording (Player_recording p) in
  lift (py_mul (PyInt (Player_tick p)) (PyFloat (Recording_tick_interval r))).

(** [self.recording.duration - self.played_time]: the right operand is the
    attribute itself, which is the bound method; it is not called. *)
Definition Player_remaining_time (self : addr) : M pyval :=
  let* p := deref_player self in
  let* d := Recording_duration (Player_recording p) in
  lift (py_sub d (PyBoundMethod self "played_time")).

(** The test of line 277, with [or] and [and] evaluated left to right. *)
Definition needs_adjust (p : Player) (snapshot : Snapshot) : M bool :=
  if Player_tick p =? 0 then ret true
  else if Player_adjust p then
    let* origin := ask (fun h t => sp_origin h t (Player_replay_bot p)) in
    ret (negb (Qle_bool (get_distance_sqr host origin (Snapshot_origin snapshot)) 2500))
  else ret false.

Definition Player_handle_tick (self : addr) : M unit :=
  let* _ := log (EnterPlayerTick self) in
  let* p := deref_player self in
  if negb (PlayerState.eqb (Player_state p) PlayerState.PLAYING) then ret tt
  else
    let* r := deref_recording (Player_recording p) in
    let* sa := lift (py_getitem (Recording_items r) (Player_tick p)) in
    let* snapshot := deref_snapshot sa in
    let* _ := Snapshot_replay_bcmd snapshot (Player_controller p) in
    let* c := needs_adjust p snapshot in
    let* _ := (if c then Snapshot_replay_location snapshot (Player_replay_bot p)
               else ret tt) in
    let* p := deref_player self in
    let* r := deref_recording (Player_recording p) in
    if Player_tick p <? len (Recording_items r) - 1
    then update_player self (fun p => set_Player_tick (Player_tick p + 1) p)
    else update_player self (set_Player_state PlayerState.STOPPED).

(** *** Recorder *)

Definition Recorder_init (player : Z) : M addr :=
  new_recorder
    {| Recorder_player := player; Recorder_state := RecorderState.PAUSED;
       Recorder_recording := None |}.

Definition Recorder_start (self : addr) : M unit :=
  let* r := deref_recorder self in
  let* rec := Recording_init (Recorder_player r) in
  let* _ := update_recorder self (set_Recorder_recording (Some rec)) in
  update_recorder self (set_Recorder_state RecorderState.RECORDING).

Definition Recorder_pause (self : addr) : M unit :=
  let* r := deref_recorder self in
  if RecorderState.eqb (Recorder_state r) RecorderState.STOPPED
  then raise (ValueError "Recorder is stopped.")
  else update_recorder self (set_Recorder_state RecorderState.PAUSED).

Definition Recorder_resume (self : addr) : M unit :=
  let* r := deref_recorder self in
  if RecorderState.eqb (Recorder_state r) RecorderState.STOPPED
  then raise (ValueError "Recorder is stopped.")
  else update_recorder self (set_Recorder_state RecorderState.RECORDING).

Definition Recorder_stop (self : addr) (save : bool) : M unit :=
  let* _ := update_recorder self (set_Recorder_state RecorderState.STOPPED) in
  if save then
    let* r := deref_recorder self in
    match Recorder_recording r with
    | None => ret tt
    | Some rec =>
        let* mgr := gets recording_mgr in
        let* present := list_contains mgr rec in
        if present then ret tt
        else modify (with_recording_mgr (fun l => l ++ [rec]))
    end
  else ret tt.

Definition Recorder_handle_tick (self : addr) : M unit :=
  let* _ := log (EnterRecorderTick self) in
  let* r := deref_recorder self in
  if negb (RecorderState.eqb (Recorder_state r) RecorderState.RECORDING) then ret tt
  else
    match Recorder_recording r with
    | None => raise AttributeError
    | Some rec => Recording_add_snapshot rec (Recorder_player r)
    end.

(** *** RecordingManager *)

Definition create_replay_bot_name (recording : addr) : M string :=
  let* r := deref_recording recording in
  ret (PlayerData_name (Recording_player r) +:+ " (Replay Bot)").

Definition bot_manager_create (name : string) : M (option Edict) :=
  let* e := ask (fun h t => bot_manager_create_bot h t name) in
  let* _ := log (CreateBot name e) in
  ret e.

Definition bot_manager_controller (edict : Edict) : M (option Controller) :=
  let* c := ask (fun h t => bot_manager_get_bot_controller h t edict) in
  let* _ := log (GetBotController edict c) in
  ret c.

Definition create_player (recording : addr) (replay_bot_name : option string)
    (adjust : bool) : M addr :=
  let* playable := Recording_is_playable recording in
  if negb playable then raise (ValueError "Recording is not playable.")
  else
    let* name := match replay_bot_name with
                 | None => create_replay_bot_name recording
                 | Some n => ret n
                 end in
    let* replay_bot_edict := bot_manager_create name in
    match replay_bot_edict with
    | None => raise (ValueError "Failed to create a replay bot.")
    | Some edict =>
        let* controller := bot_manager_controller edict in
        match controller with
        | None => raise (ValueError "Failed to get the bot controller.")
        | Some c =>
            let replay_bot := index_from_edict host edict in
            let* player := Player_init recording c replay_bot adjust in
            let* _ := modify (with_players (dict_setitem replay_bot player)) in
            ret player
        end
    end.

(** The loop of [get_player] over [self.players.values()]. *)
Fixpoint find_player (recording : addr) (values : list addr) : M (option addr) :=
  match values with
  | [] => ret None
  | player :: rest =>
      let* p := deref_player player in
      if Nat.eqb (Player_recording p) recording then ret (Some player)
      else find_player recording rest
  end.

Definition get_player (recording : addr) (replay_bot_name : option string) : M addr :=
  let* values := gets (fun w => dict_values (players w)) in
  let* found := find_player recording values in
  match found with
  | Some player => ret player
  | None => create_player recording replay_bot_name true
  end.

Definition Recording_play (self : addr) (replay_bot_name : option string) : M addr :=
  let* player := get_player self replay_bot_name in
  let* _ := Player_start player in
  ret player.

Definition get_recorder (index : Z) : M addr :=
  let* d := gets recorders in
  match dict_get index d with
  | Some recorder => ret recorder
  | None =>
      let* recorder := Recorder_init index in
      let* _ := modify (with_recorders (dict_setitem index recorder)) in
      ret recorder
  end.

(** *** The tick listener *)

Definition on_tick : M unit :=
  let* rs := gets (fun w => dict_values (recorders w)) in
  let* _ := for_each rs Recorder_handle_tick in
  let* ps := gets (fun w => dict_values (players w)) in
  for_each ps Player_handle_tick.

End Program.


(** ** Sequences of calls *)

Inductive RecorderOp :=
| Rstart
| Rpause
| Rresume
| Rstop (save : bool)
| Rhandle_tick.

Inductive PlayerOp :=
| Pstart
| Presume
| Ppause
| Pstop
| Phandle_tick.

Definition Recorder_call (host : Host) (self : addr) (op : RecorderOp) : M unit :=
  match op with
  | Rstart => Recorder_start host self
  | Rpause => Recorder_pause self
  | Rresume => Recorder_resume self
  | Rstop save => Recorder_stop self save
  | Rhandle_tick => Recorder_handle_tick host self
  end.

Definition Player_call (host : Host) (self : addr) (op : PlayerOp) : M unit :=
  match op with
  | Pstart => Player_start self
  | Presume => Player_resume self
  | Ppause => Player_pause self
  | Pstop => Player_stop self
  | Phandle_tick => Player_handle_tick host self
  end.

(** Calls made one after the other.  An exception goes to the caller and
    the objects live on: the next call runs in the world the failed one
    left. *)
Fixpoint run_calls {Op} (call : Op → M unit) (ops : list Op) (w : World) : World :=
  match ops with
  | [] => w
  | op :: ops' => run_calls call ops' (world_after (call op) w)
  end.

(** ** Vocabulary of the statements *)

(** The snapshots of the recording at an address. *)
Definition items_at (w : World) (a : addr) : list addr :=
  match recording_heap w !! a with
  | Some r => Recording_items r
  | None => []
  end.

(** Python's [x in l] on allocated recordings, as a boolean. *)
Definition present (w : World) (l : list addr) (x : addr) : bool :=
  existsb (fun e => Nat.eqb e x || list_eq (items_at w e) (items_at w x)) l.

Definition allocated {A} (heap : list A) (a : addr) : Prop := is_Some (heap !! a).

Definition Recorder_state_at (w : World) (a : addr) : option RecorderState.t :=
  Recorder_state <$> recorder_heap w !! a.

Definition Player_state_at (w : World) (a : addr) : option PlayerState.t :=
  Player_state <$> player_heap w !! a.

Definition Player_tick_at (w : World) (a : addr) : option Z :=
  Player_tick <$> player_heap w !! a.

Definition Player_recording_at (w : World) (a : addr) : option addr :=
  Player_recording <$> player_heap w !! a.

(** The player at [a] exists and plays something else than [rec]. *)
Definition bound_elsewhere (w : World) (rec : addr) (a : addr) : Prop :=
  ∃ p, player_heap w !! a = Some p ∧ Player_recording p ≠ rec.

(** Every registered player is bound to a recording with snapshots. *)
Definition registered_players_playable (w : World) : Prop :=
  Forall (fun a => ∃ p r, player_heap w !! a = Some p ∧
                          recording_heap w !! Player_recording p = Some r ∧
                          Recording_items r ≠ [])
         (dict_values (players w)).

(** The entries into [handle_tick] among some events. *)
Definition is_enter (e : Event) : bool :=
  match e with
  | EnterRecorderTick _ | EnterPlayerTick _ => true
  | _ => false
  end.

Definition entries (t : list Event) : list Event := filter (fun e => is_enter e = true) t.

(** A computation whose every run relates the world before to the world
    after by [R]. *)
Definition steps (R : World → World → Prop) {A} (m : M A) : Prop :=
  ∀ w, R w (fst (m w)).

(** What the spec describes for [remaining_time]:
    [recording.duration() - played_time()], with [played_time] called. *)
Definition Player_remaining_time_spec (self : addr) : M pyval :=
  let* p := deref_player self in
  let* d := Recording_duration (Player_recording p) in
  let* t := Player_played_time self in
  lift (py_sub d t).

(** ** Calls on the whole program and the worlds they keep *)

(** What the rest of the plugin and its users can do: get a recorder, call
    a method of a recorder or of a player, create or get a player, play a
    recording, and let the host tick. *)
Inductive Call :=
| call_get_recorder (index : Z)
| call_Recorder (self : addr) (op : RecorderOp)
| call_Player (self : addr) (op : PlayerOp)
| call_create_player (recording : addr) (name : option string) (adjust : bool)
| call_get_player (recording : addr) (name : option string)
| call_play (recording : addr) (name : option string)
| call_on_tick.

Definition run_call (host : Host) (c : Call) : M unit :=
  match c with
  | call_get_recorder index => let* _ := get_recorder index in ret tt
  | call_Recorder self op => Recorder_call host self op
  | call_Player self op => Player_call host self op
  | call_create_player recording name adjust =>
      let* _ := create_player host recording name adjust in ret tt
  | call_get_player recording name =>
      let* _ := get_player host recording name in ret tt
  | call_play recording name =>
      let* _ := Recording_play host recording name in ret tt
  | call_on_tick => on_tick host
  end.

Definition Recorder_ok (w : World) (r : Recorder) : Prop :=
  ∀ rec, Recorder_recording r = Some rec → allocated (recording_heap w) rec.

(** The cursor of a player is on a snapshot of its recording. *)
Definition Player_ok (w : World) (p : Player) : Prop :=
  ∃ r, recording_heap w !! Player_recording p = Some r ∧
       0 ≤ Player_tick p < len (Recording_items r).

Definition Recording_ok (w : World) (r : Recording) : Prop :=
  Forall (allocated (snapshot_heap w)) (Recording_items r).

(** A world as the program builds it: references point to objects and every
    player's cursor is in range. *)
Record wf (w : World) : Prop := {
  wf_mgr : Forall (allocated (recording_heap w)) (recording_mgr w);
  wf_recorders : Forall (Recorder_ok w) (recorder_heap w);
  wf_players : Forall (Player_ok w) (player_heap w);
  wf_recordings : Forall (Recording_ok w) (recording_heap w);
  wf_registered_recorders :
    Forall (allocated (recorder_heap w)) (dict_values (recorders w));
  wf_registered_players :
    Forall (allocated (player_heap w)) (dict_values (players w))
}.

(** A computation that leaves a well-formed world well-formed, whether it
    returns or raises. *)
Definition keeps_wf {A} (m : M A) : Prop :=
  steps (fun w w' => wf w → wf w') m.

(** From [w] to [w'] every player stays where it is, bound to the same
    recording. *)
Definition players_persist (w w' : World) : Prop :=
  ∀ a p, player_heap w !! a = Some p →
         ∃ p', player_heap w' !! a = Some p' ∧
               Player_recording p' = Player_recording p.

(** ** A host and some worlds to run the program in *)

Definition demo_vector (x : Z) : Vector :=
  {| vx := inject_Z x; vy := 0%Q; vz := 0%Q |}.

Definition demo_angle : QAngle := {| pitch := 0%Q; yaw := 0%Q; roll := 0%Q |}.

Definition demo_ucmd (n : Z) : UserCmd :=
  {| ucmd_command_number := n; ucmd_tick_count := n;
     ucmd_view_angles := demo_angle;
     ucmd_forward_move := 450%Q; ucmd_side_move := 0%Q; ucmd_up_move := 0%Q;
     ucmd_buttons := 8; ucmd_impulse := 0; ucmd_weaponselect := 0;
     ucmd_weaponsubtype := 0; ucmd_random_seed := 7; ucmd_mousedx := 0;
     ucmd_mousedy := 0; ucmd_has_been_predicted := false |}.

Definition sqr (q : Q) : Q := (q * q)%Q.

(** The float [0.015], that is the binary64 number nearest to 15/1000:
    [0x1.eb851eb851eb8p-7]. *)
Definition demo_tick_interval : float :=
  SpecFloat.S754_finite false 8646911284551352 (-59).

(** The host of the examples: the clock and the positions advance with the
    calls, a tick lasts 0.015 s, a bot created after [n] calls gets edict
    [100 + n] and every bot has a controller. *)
Definition demo_host : Host :=
  {| time_time := fun t => inject_Z (len t);
     SOURCE_ENGINE_BRANCH := "css";
     global_vars_map_name := fun _ => "de_dust2";
     server_tick_interval := fun _ => demo_tick_interval;
     sp_name := fun _ _ => "Ayuto";
     sp_steamid := fun _ _ => "STEAM_0:0:1";
     sp_team := fun _ _ => 2;
     sp_origin := fun t _ => demo_vector (10 * len t);
     sp_angles := fun _ _ => demo_angle;
     sp_velocity := fun _ _ => demo_vector 250;
     sp_last_user_command := fun t _ => demo_ucmd (len t);
     bot_manager_create_bot := fun t _ => Some (100 + len t);
     bot_manager_get_bot_controller := fun _ e => Some e;
     index_from_edict := fun e => e - 90;
     get_distance_sqr := fun a b =>
       (sqr (vx a - vx b) + sqr (vy a - vy b) + sqr (vz a - vz b))%Q |}.

(** The same host, except that it reports the squared distance [d] between
    any two points. *)
Definition distance_host (d : Q) : Host :=
  {| time_time := time_time demo_host;
     SOURCE_ENGINE_BRANCH := SOURCE_ENGINE_BRANCH demo_host;
     global_vars_map_name := global_vars_map_name demo_host;
     server_tick_interval := server_tick_interval demo_host;
     sp_name := sp_name demo_host;
     sp_steamid := sp_steamid demo_host;
     sp_team := sp_team demo_host;
     sp_origin := sp_origin demo_host;
     sp_angles := sp_angles demo_host;
     sp_velocity := sp_velocity demo_host;
     sp_last_user_command := sp_last_user_command demo_host;
     bot_manager_create_bot := bot_manager_create_bot demo_host;
     bot_manager_get_bot_controller := bot_manager_get_bot_controller demo_host;
     index_from_edict := index_from_edict demo_host;
     get_distance_sqr := fun _ _ => d |}.

Definition is_teleport (e : Event) : bool :=
  match e with
  | Teleport _ _ _ _ => true
  | _ => false
  end.

Definition teleports (t : list Event) : nat :=
  length (filter (fun e => is_teleport e = true) t).

(** Client 1 records three ticks and stops with [save]. *)
Definition recorded_world : World :=
  run_calls (run_call demo_host)
    [call_get_recorder 1; call_Recorder 0%nat Rstart; call_on_tick; call_on_tick;
     call_on_tick; call_Recorder 0%nat (Rstop true)]
    empty_world.

(** The recording of [recorded_world] is being played by one player. *)
Definition playing_world : World :=
  run_calls (run_call demo_host) [call_play 0%nat None] recorded_world.

(** The player of [playing_world] has replayed its first snapshot. *)
Definition ticked_world : World :=
  run_calls (run_call demo_host) [call_Player 0%nat Phandle_tick] playing_world.

(** Client 1 starts and stops at once, so that an empty recording is
    saved, then starts again. *)
Definition restarted_world : World :=
  run_calls (run_call demo_host)
    [call_get_recorder 1; call_Recorder 0%nat Rstart;
     call_Recorder 0%nat (Rstop true); call_Recorder 0%nat Rstart]
    empty_world.

(** ** The rest of the manager, and the listeners and commands *)

(** [del d[k]] for a key that is in the dict. *)
Fixpoint dict_delitem {V} (k : Z) (d : list (Z * V)) : list (Z * V) :=
  match d with
  | [] => []
  | (k', v') :: d' => if k' =? k then d' else (k', v') :: dict_delitem k d'
  end.

Definition dict_keys {V} (d : list (Z * V)) : list Z := map fst d.

(** [l.remove(x)] on a list of recordings: the list without its first
    element equal to [x], or [None] when no element is. *)
Fixpoint list_remove (l : list addr) (x : addr) : M (option (list addr)) :=
  match l with
  | [] => ret None
  | e :: l' =>
      let* b := Recording_eq e x in
      if b then ret (Some l')
      else
        let* rest := list_remove l' x in
        ret (option_map (cons e) rest)
  end.

Definition Recording_remove (self : addr) : M unit :=
  let* mgr := gets recording_mgr in
  let* rest := list_remove mgr self in
  match rest with
  | None => raise (ValueError "list.remove(x): x not in list")
  | Some l => modify (with_recording_mgr (fun _ => l))
  end.

(** The [try] of [remove_player] catches the [KeyError] of the lookup; the
    destructor of the player is left to the garbage collector and is not
    part of the model. *)
Definition remove_player (index : Z) : M unit :=
  let* d := gets players in
  match dict_get index d with
  | None => ret tt
  | Some player =>
      let* _ := Player_stop player in
      modify (with_players (dict_delitem index))
  end.

Definition remove_recorder (index : Z) (save : bool) : M unit :=
  let* d := gets recorders in
  match dict_get index d with
  | None => ret tt
  | Some recorder =>
      let* _ := Recorder_stop recorder save in
      modify (with_recorders (dict_delitem index))
  end.

(** [base_entity] is given by what the listener reads of it:
    [is_player()] and [index]. *)
Definition on_entity_deleted (is_player : bool) (index : Z) : M unit :=
  if negb is_player then ret tt
  else
    let* _ := remove_recorder index true in
    remove_player index.

(** The [!record] command. *)
Definition on_record (host : Host) (index : Z) : M unit :=
  let* recorder := get_recorder index in
  Recorder_start host recorder.

(** The [!pause] command (the second of the three handlers that the source
    names [on_stop]). *)
Definition on_pause : M unit :=
  let* ps := gets (fun w => dict_values (players w)) in
  for_each ps Player_pause.

(** The select callback of the menu; [option_value] is the recording of the
    chosen option. *)
Definition on_menu_select (host : Host) (option_value : addr) : M unit :=
  let* player := create_player host option_value None false in
  Player_start player.

(** Everything the plugin can be asked to do. *)
Inductive PluginCall :=
| call_program (c : Call)
| call_remove_recorder (index : Z) (save : bool)
| call_remove_player (index : Z)
| call_on_entity_deleted (is_player : bool) (index : Z)
| call_Recording_remove (recording : addr)
| call_on_record (index : Z)
| call_on_pause
| call_on_menu_select (option_value : addr).

Definition run_plugin_call (host : Host) (c : PluginCall) : M unit :=
  match c with
  | call_program c => run_call host c
  | call_remove_recorder index save => remove_recorder index save
  | call_remove_player index => remove_player index
  | call_on_entity_deleted is_player index => on_entity_deleted is_player index
  | call_Recording_remove recording => Recording_remove recording
  | call_on_record index => on_record host index
  | call_on_pause => on_pause
  | call_on_menu_select option_value => on_menu_select host option_value
  end.

(** ** Vocabulary of the further statements *)

(** The commands handed to the controllers, in order. *)
Definition moves (t : list Event) : list (Controller * BotCmd) :=
  omap (fun e => match e with
                 | RunPlayerMove c b => Some (c, b)
                 | _ => None
                 end) t.

(** A recorder that is [RECORDING] has a recording: it was started, not
    only resumed. *)
Definition Recorder_started (r : Recorder) : Prop :=
  Recorder_state r = RecorderState.RECORDING → Recorder_recording r ≠ None.

Definition Recorder_started_at (w : World) (a : addr) : Prop :=
  ∀ r, recorder_heap w !! a = Some r → Recorder_started r.

(** The snapshot that [create_snapshot] takes of [player] after the calls
    [t]. *)
Definition snapshot_of (host : Host) (t : list Event) (player : Z) : Snapshot :=
  {| Snapshot_origin := sp_origin host t player;
     Snapshot_angle := sp_angles host t player;
     Snapshot_velocity := sp_velocity host t player;
     Snapshot_bcmd :=
       Recording_create_bcmd_from_ucmd (sp_last_user_command host t player) |}.

(** The keys of each registry are distinct, as the keys of a dict are. *)
Definition registry_ok (w : World) : Prop :=
  NoDup (dict_keys (recorders w)) ∧ NoDup (dict_keys (players w)).

(** The name [create_player] gives the bot. *)
Definition bot_name_for (r : Recording) (name : option string) : string :=
  match name with
  | Some n => n
  | None => PlayerData_name (Recording_player r) +:+ " (Replay Bot)"
  end.

(** Hosts that have no bot to give, and no controller for the bot they
    give. *)
Definition no_bot_host : Host :=
  {| time_time := time_time demo_host;
     SOURCE_ENGINE_BRANCH := SOURCE_ENGINE_BRANCH demo_host;
     global_vars_map_name := global_vars_map_name demo_host;
     server_tick_interval := server_tick_interval demo_host;
     sp_name := sp_name demo_host;
     sp_steamid := sp_steamid demo_host;
     sp_team := sp_team demo_host;
     sp_origin := sp_origin demo_host;
     sp_angles := sp_angles demo_host;
     sp_velocity := sp_velocity demo_host;
     sp_last_user_command := sp_last_user_command demo_host;
     bot_manager_create_bot := fun _ _ => None;
     bot_manager_get_bot_controller := bot_manager_get_bot_controller demo_host;
     index_from_edict := index_from_edict demo_host;
     get_distance_sqr := get_distance_sqr demo_host |}.

Definition no_controller_host : Host :=
  {| time_time := time_time demo_host;
     SOURCE_ENGINE_BRANCH := SOURCE_ENGINE_BRANCH demo_host;
     global_vars_map_name := global_vars_map_name demo_host;
     server_tick_interval := server_tick_interval demo_host;
     sp_name := sp_name demo_host;
     sp_steamid := sp_steamid demo_host;
     sp_team := sp_team demo_host;
     sp_origin := sp_origin demo_host;
     sp_angles := sp_angles demo_host;
     sp_velocity := sp_velocity demo_host;
     sp_last_user_command := sp_last_user_command demo_host;
     bot_manager_create_bot := bot_manager_create_bot demo_host;
     bot_manager_get_bot_controller := fun _ _ => None;
     index_from_edict := index_from_edict demo_host;
     get_distance_sqr := get_distance_sqr demo_host |}.

(** The recording and the player of [playing_world]. *)
Definition demo_recording : Recording :=
  {| Recording_items := [0; 1; 2]%nat;
     Recording_creation_time := 0%Q;
     Recording_game := "css";
     Recording_map_name := "de_dust2";
     Recording_tick_interval := demo_tick_interval;
     Recording_player :=
       {| PlayerData_name := "Ayuto"; PlayerData_steamid := "STEAM_0:0:1";
          PlayerData_team := 2 |} |}.

Definition demo_player : Player :=
  {| Player_tick := 0; Player_recording := 0%nat;
     Player_state := PlayerState.PLAYING; Player_controller := 103;
     Player_replay_bot := 13; Player_adjust := true |}.
(** * Properties *)

(** ** Reasoning about computations *)

Lemma bind_inr {A B} (m : M A) (k : A → M B) w w' a :
  m w = (w', inr a) → bind m k w = k a w'.
Proof. intros H. unfold bind. now rewrite H. Qed.

Lemma bind_inl {A B} (m : M A) (k : A → M B) w w' e :
  m w = (w', inl e) → bind m k w = (w', inl e).
Proof. intros H. unfold bind. now rewrite H. Qed.

Lemma deref_Some {A} (heap : World → list A) a w x :
  heap w !! a = Some x → deref heap a w = (w, inr x).
Proof. intros H. unfold deref. now rewrite H. Qed.

Lemma deref_None {A} (heap : World → list A) a w :
  heap w !! a = None → deref heap a w = (w, inl DanglingRef).
Proof. intros H. unfold deref. now rewrite H. Qed.

Lemma update_recorder_Some a f w r :
  recorder_heap w !! a = Some r →
  update_recorder a f w = (with_recorder_heap (fun h => <[a := f r]> h) w, inr tt).
Proof.
  intros H. unfold update_recorder.
  now rewrite (bind_inr _ _ _ _ _ (deref_Some recorder_heap _ _ _ H)).
Qed.

Lemma update_player_Some a f w p :
  player_heap w !! a = Some p →
  update_player a f w = (with_player_heap (fun h => <[a := f p]> h) w, inr tt).
Proof.
  intros H. unfold update_player.
  now rewrite (bind_inr _ _ _ _ _ (deref_Some player_heap _ _ _ H)).
Qed.

(** Runs the dereference at the head of the goal's computation, given the
    object the heap holds there. *)
Ltac run_deref heap H :=
  unfold deref_snapshot, deref_recording, deref_recorder, deref_player;
  match goal with
  | |- context [bind (deref heap ?a) ?k ?w0] =>
      rewrite (bind_inr (deref heap a) k w0 w0 _ (deref_Some heap a w0 _ H));
      cbv beta
  end.

Lemma log_run e w : log e w = (with_trace (fun t => t ++ [e]) w, inr tt).
Proof. reflexivity. Qed.

Lemma RecorderState_eqb_eq a b : RecorderState.eqb a b = true ↔ a = b.
Proof. destruct a, b; cbv; intuition congruence. Qed.

Lemma PlayerState_eqb_eq a b : PlayerState.eqb a b = true ↔ a = b.
Proof. destruct a, b; cbv; intuition congruence. Qed.

(** ** Recorder: pause and resume *)

Lemma Recorder_pause_unfold w self r :
  recorder_heap w !! self = Some r →
  Recorder_pause self w =
    if RecorderState.eqb (Recorder_state r) RecorderState.STOPPED
    then (w, inl (ValueError "Recorder is stopped."))
    else (with_recorder_heap
            (fun h => <[self := set_Recorder_state RecorderState.PAUSED r]> h) w,
          inr tt).
Proof.
  intros Hr. unfold Recorder_pause.
  rewrite (bind_inr _ _ _ _ _ (deref_Some recorder_heap _ _ _ Hr)).
  destruct (RecorderState.eqb _ _); [reflexivity|].
  now apply update_recorder_Some.
Qed.

Lemma Recorder_resume_unfold w self r :
  recorder_heap w !! self = Some r →
  Recorder_resume self w =
    if RecorderState.eqb (Recorder_state r) RecorderState.STOPPED
    then (w, inl (ValueError "Recorder is stopped."))
    else (with_recorder_heap
            (fun h => <[self := set_Recorder_state RecorderState.RECORDING r]> h) w,
          inr tt).
Proof.
  intros Hr. unfold Recorder_resume.
  rewrite (bind_inr _ _ _ _ _ (deref_Some recorder_heap _ _ _ Hr)).
  destruct (RecorderState.eqb _ _); [reflexivity|].
  now apply update_recorder_Some.
Qed.

(** C6.  [pause()] and [resume()] raise [ValueError] exactly when the
    recorder is [STOPPED], and then leave the world, hence the recorder's
    state, as it was; otherwise they return and the only change is that the
    recorder's state is [PAUSED], respectively [RECORDING]. *)
Theorem Recorder_pause_resume_spec (w : World) (self : addr) (r : Recorder) :
  recorder_heap w !! self = Some r →
  ((∃ e, outcome (Recorder_pause self) w = inl e) ↔
     Recorder_state r = RecorderState.STOPPED) ∧
  ((∃ e, outcome (Recorder_resume self) w = inl e) ↔
     Recorder_state r = RecorderState.STOPPED) ∧
  (Recorder_state r = RecorderState.STOPPED →
     Recorder_pause self w = (w, inl (ValueError "Recorder is stopped.")) ∧
     Recorder_resume self w = (w, inl (ValueError "Recorder is stopped."))) ∧
  (Recorder_state r ≠ RecorderState.STOPPED →
     Recorder_pause self w =
       (with_recorder_heap
          (fun h => <[self := set_Recorder_state RecorderState.PAUSED r]> h) w,
        inr tt) ∧
     Recorder_resume self w =
       (with_recorder_heap
          (fun h => <[self := set_Recorder_state RecorderState.RECORDING r]> h) w,
        inr tt)).
Proof.
  intros Hr. unfold outcome.
  rewrite (Recorder_pause_unfold _ _ _ Hr), (Recorder_resume_unfold _ _ _ Hr).
  destruct (RecorderState.eqb (Recorder_state r) RecorderState.STOPPED) eqn:E.
  - apply RecorderState_eqb_eq in E.
    repeat split; eauto; intros; congruence.
  - assert (Recorder_state r ≠ RecorderState.STOPPED).
    { intros Hs. apply RecorderState_eqb_eq in Hs. congruence. }
    simpl. repeat split; try tauto; intros [e He]; discriminate.
Qed.

Lemma Recorder_pause_resume_spec_witness :
  Recorder_pause 0%nat recorded_world =
    (recorded_world, inl (ValueError "Recorder is stopped.")) ∧
  Recorder_resume 0%nat recorded_world =
    (recorded_world, inl (ValueError "Recorder is stopped.")).
Proof.
  apply (Recorder_pause_resume_spec recorded_world 0%nat
           {| Recorder_player := 1; Recorder_state := RecorderState.STOPPED;
              Recorder_recording := Some 0%nat |}); reflexivity.
Defined.

(** ** Float arithmetic *)

(** Products are rounded: [3 * 0.1] is [0.30000000000000004], the float
    [0x1.3333333333334p-2], and [100 * 0.015] is the float [1.5]. *)
Lemma py_mul_rounds :
  py_mul (PyInt 3) (PyFloat (SpecFloat.S754_finite false 7205759403792794 (-56))) =
    inr (PyFloat (SpecFloat.S754_finite false 5404319552844596 (-54))) ∧
  py_mul (PyInt 100) (PyFloat demo_tick_interval) =
    inr (PyFloat (SpecFloat.S754_finite false 6755399441055744 (-52))).
Proof. split; reflexivity. Qed.

(** [float_overflow] is where the conversion of an int stops being
    finite: just below it the nearest float is the largest one, and an int
    from there on makes the operation raise. *)
Lemma PyLong_AsDouble_overflow :
  PyLong_AsDouble (float_overflow - 1) =
    inr (SpecFloat.S754_finite false 9007199254740991 971) ∧
  float_of_int float_overflow = SpecFloat.S754_infinity false ∧
  ∀ z f, float_overflow ≤ Z.abs z →
         py_mul (PyInt z) (PyFloat f) = inl OverflowError.
Proof.
  split; [reflexivity|]. split; [reflexivity|].
  intros z f Hz. unfold py_mul, PyLong_AsDouble.
  destruct (Z.ltb_spec (Z.abs z) float_overflow); [lia|reflexivity].
Qed.

(** For every length below [float_overflow], and so for every length a
    list can have (at most [sys.maxsize], which is [2^63 - 1] on a 64-bit
    build), [duration] is the product that [*] computes from the length
    and the tick interval. *)
Lemma Recording_duration_py_mul w self r :
  recording_heap w !! self = Some r →
  len (Recording_items r) < float_overflow →
  Recording_duration self w =
    (w, py_mul (PyInt (len (Recording_items r)))
               (PyFloat (Recording_tick_interval r))).
Proof.
  intros Hr Hlen. unfold Recording_duration.
  rewrite (bind_inr _ _ _ _ _ (deref_Some recording_heap _ _ _ Hr)).
  unfold py_mul, PyLong_AsDouble.
  assert (H0 : 0 ≤ len (Recording_items r)) by (unfold len; lia).
  destruct (Z.ltb_spec (Z.abs (len (Recording_items r))) float_overflow);
    [reflexivity|lia].
Qed.

Lemma sys_maxsize_converts : 2 ^ 63 - 1 < float_overflow.
Proof. reflexivity. Qed.

(** ** Player: remaining time *)

(** C1.  [remaining_time()] never returns the remaining time: for every
    player it raises [TypeError], because the right operand of the
    subtraction is the bound method [played_time], not its result.  The
    subtraction the spec describes, with [played_time()] called, gives
    [len * tick_interval - tick * tick_interval] in float arithmetic (the
    two products and the difference each rounded to the nearest float), for
    every tick that converts to a float. *)
Theorem Player_remaining_time_raises (w : World) (self : addr) (p : Player)
    (r : Recording) :
  player_heap w !! self = Some p →
  recording_heap w !! Player_recording p = Some r →
  Player_remaining_time self w = (w, inl TypeError) ∧
  Player_remaining_time_spec self w =
    (w, match PyLong_AsDouble (Player_tick p) with
        | inr tick =>
            inr (PyFloat
                   (float_sub
                      (float_mul (float_of_int (len (Recording_items r)))
                                 (Recording_tick_interval r))
                      (float_mul tick (Recording_tick_interval r))))
        | inl e => inl e
        end).
Proof.
  intros Hp Hr. split.
  - unfold Player_remaining_time, Recording_duration.
    rewrite (bind_inr _ _ _ _ _ (deref_Some player_heap _ _ _ Hp)).
    unfold bind at 1.
    rewrite (bind_inr _ _ _ _ _ (deref_Some recording_heap _ _ _ Hr)).
    reflexivity.
  - unfold Player_remaining_time_spec, Recording_duration.
    rewrite (bind_inr _ _ _ _ _ (deref_Some player_heap _ _ _ Hp)).
    unfold bind at 1.
    rewrite (bind_inr _ _ _ _ _ (deref_Some recording_heap _ _ _ Hr)).
    unfold ret at 1.
    unfold Player_played_time. unfold bind at 1.
    rewrite (bind_inr _ _ _ _ _ (deref_Some player_heap _ _ _ Hp)).
    rewrite (bind_inr _ _ _ _ _ (deref_Some recording_heap _ _ _ Hr)).
    unfold lift, py_mul, py_sub, float_binop.
    destruct (PyLong_AsDouble (Player_tick p)); reflexivity.
Qed.

Lemma Player_remaining_time_raises_witness :
  Player_remaining_time 0%nat playing_world = (playing_world, inl TypeError) ∧
  outcome (Player_remaining_time_spec 0%nat) playing_world =
    inr (PyFloat (SpecFloat.S754_finite false 6485183463413514 (-57))).
Proof.
  destruct (Player_remaining_time_raises playing_world 0%nat
              {| Player_tick := 0; Player_recording := 0%nat;
                 Player_state := PlayerState.PLAYING; Player_controller := 103;
                 Player_replay_bot := 13; Player_adjust := true |}
              {| Recording_items := [0%nat; 1%nat; 2%nat];
                 Recording_creation_time := 0%Q; Recording_game := "css";
                 Recording_map_name := "de_dust2";
                 Recording_tick_interval := demo_tick_interval;
                 Recording_player :=
                   {| PlayerData_name := "Ayuto";
                      PlayerData_steamid := "STEAM_0:0:1";
                      PlayerData_team := 2 |} |}) as [H1 H2];
    [reflexivity | reflexivity |].
  split; [exact H1 |]. unfold outcome. rewrite H2. reflexivity.
Defined.

(** ** Recorder: stop *)

Lemma Recording_eq_world a b w : fst (Recording_eq a b w) = w.
Proof.
  unfold Recording_eq. destruct (Nat.eqb a b); [reflexivity|].
  unfold bind, deref_recording, deref.
  destruct (recording_heap w !! a); [|reflexivity].
  destruct (recording_heap w !! b); reflexivity.
Qed.

Lemma list_contains_world l x w : fst (list_contains l x w) = w.
Proof.
  induction l as [|e l IH]; [reflexivity|]. simpl. unfold bind.
  pose proof (Recording_eq_world e x w) as He.
  destruct (Recording_eq e x w) as [w' [err|[|]]]; simpl in He; subst w'; auto.
Qed.

Lemma Recording_eq_allocated w a b :
  allocated (recording_heap w) a → allocated (recording_heap w) b →
  Recording_eq a b w =
    (w, inr (Nat.eqb a b || list_eq (items_at w a) (items_at w b))).
Proof.
  intros [ra Ha] [rb Hb]. unfold Recording_eq, items_at. rewrite Ha, Hb.
  destruct (Nat.eqb a b); [reflexivity|].
  rewrite (bind_inr _ _ _ _ _ (deref_Some recording_heap _ _ _ Ha)).
  rewrite (bind_inr _ _ _ _ _ (deref_Some recording_heap _ _ _ Hb)).
  reflexivity.
Qed.

Lemma list_contains_present w l x :
  Forall (allocated (recording_heap w)) l → allocated (recording_heap w) x →
  list_contains l x w = (w, inr (present w l x)).
Proof.
  intros Hl Hx. induction Hl as [|e l He Hl IH]; [reflexivity|].
  simpl. rewrite (bind_inr _ _ _ _ _ (Recording_eq_allocated w e x He Hx)).
  destruct (Nat.eqb e x || list_eq (items_at w e) (items_at w x)); auto.
Qed.

Lemma present_ext w w' l x :
  recording_heap w = recording_heap w' → present w l x = present w' l x.
Proof. intros H. unfold present, items_at. now rewrite H. Qed.

(** The world in which the recorder at [self] has been marked stopped. *)
Lemma Recorder_stop_marks w self r save :
  recorder_heap w !! self = Some r →
  let w1 := with_recorder_heap
              (fun h => <[self := set_Recorder_state RecorderState.STOPPED r]> h) w in
  Recorder_stop self save w =
    if save then
      match Recorder_recording r with
      | None => (w1, inr tt)
      | Some rec =>
          match list_contains (recording_mgr w) rec w1 with
          | (_, inl e) => (w1, inl e)
          | (_, inr true) => (w1, inr tt)
          | (_, inr false) => (with_recording_mgr (fun l => l ++ [rec]) w1, inr tt)
          end
      end
    else (w1, inr tt).
Proof.
  intros Hr w1. unfold Recorder_stop.
  rewrite (bind_inr _ _ _ _ _ (update_recorder_Some _ _ _ _ Hr)). fold w1.
  destruct save; [|reflexivity].
  assert (H1 : recorder_heap w1 !! self =
               Some (set_Recorder_state RecorderState.STOPPED r)).
  { simpl. apply list_lookup_insert_eq. eapply lookup_lt_Some, Hr. }
  rewrite (bind_inr _ _ _ _ _ (deref_Some recorder_heap _ _ _ H1)). simpl.
  destruct (Recorder_recording r) as [rec|]; [|reflexivity].
  unfold bind, gets. simpl.
  pose proof (list_contains_world (recording_mgr w) rec w1) as Hw.
  destruct (list_contains (recording_mgr w) rec w1) as [w2 [e|[|]]];
    simpl in Hw; subst w2; reflexivity.
Qed.

Lemma Recorder_stop_exact w self r save :
  recorder_heap w !! self = Some r →
  Forall (allocated (recording_heap w)) (recording_mgr w) →
  Recorder_ok w r →
  let w1 := with_recorder_heap
              (fun h => <[self := set_Recorder_state RecorderState.STOPPED r]> h) w in
  Recorder_stop self save w =
    (match Recorder_recording r with
     | Some rec =>
         if save && negb (present w (recording_mgr w) rec)
         then with_recording_mgr (fun l => l ++ [rec]) w1
         else w1
     | None => w1
     end, inr tt).
Proof.
  intros Hr Hmgr Hrec w1. rewrite (Recorder_stop_marks _ _ _ save Hr). fold w1.
  destruct save; simpl.
  - destruct (Recorder_recording r) as [rec|] eqn:E; [|reflexivity].
    rewrite (list_contains_present w1 (recording_mgr w) rec Hmgr (Hrec rec E)).
    rewrite (present_ext w1 w _ _ eq_refl).
    destruct (present w (recording_mgr w) rec); reflexivity.
  - destruct (Recorder_recording r); reflexivity.
Qed.






(** C10.  The membership test of [stop(True)] compares recordings as
    lists.  When the manager's list holds another recording whose
    snapshots are, one by one, the same objects as those of the current
    recording (two empty recordings, for instance), the current recording,
    which is not in the list, is not appended and nothing is raised: after
    the call it is still not in the list. *)
Theorem Recorder_stop_skips_equal_recording (w : World) (self : addr)
    (r : Recorder) (rec other : addr) :
  recorder_heap w !! self = Some r →
  Recorder_recording r = Some rec →
  Forall (allocated (recording_heap w)) (recording_mgr w) →
  allocated (recording_heap w) rec →
  other ∈ recording_mgr w →
  rec ∉ recording_mgr w →
  list_eq (items_at w other) (items_at w rec) = true →
  outcome (Recorder_stop self true) w = inr tt ∧
  recording_mgr (world_after (Recorder_stop self true) w) = recording_mgr w ∧
  rec ∉ recording_mgr (world_after (Recorder_stop self true) w).
Proof.
  intros Hr Hrec Hmgr Ha Hin Hnot Heq.
  assert (Hp : present w (recording_mgr w) rec = true).
  { unfold present. apply existsb_exists. exists other. split.
    - now apply list_elem_of_In.
    - rewrite Heq. apply orb_true_r. }
  unfold outcome, world_after.
  rewrite (Recorder_stop_marks _ _ _ true Hr). cbv zeta. rewrite Hrec.
  match goal with
  | |- context [list_contains ?l ?x ?w0] =>
      rewrite (list_contains_present w0 l x Hmgr Ha);
      rewrite (present_ext w0 w l x eq_refl)
  end.
  rewrite Hp. simpl. auto.
Qed.

Lemma Recorder_stop_skips_equal_recording_witness :
  items_at restarted_world 0%nat = [] ∧ items_at restarted_world 1%nat = [] ∧
  recording_mgr (world_after (Recorder_stop 0%nat true) restarted_world) = [0%nat].
Proof.
  split; [reflexivity|]. split; [reflexivity|].
  apply (Recorder_stop_skips_equal_recording restarted_world 0%nat
           {| Recorder_player := 1; Recorder_state := RecorderState.RECORDING;
              Recorder_recording := Some 1%nat |} 1%nat 0%nat).
  - reflexivity.
  - reflexivity.
  - repeat constructor. eexists; reflexivity.
  - eexists; reflexivity.
  - apply list_elem_of_In. simpl. auto.
  - intros H. apply list_elem_of_In in H. simpl in H. destruct H as [H|[]].
    discriminate H.
  - reflexivity.
Defined.

(** ** Recorder: the stopped state *)

Lemma Recorder_handle_tick_idle host w self r :
  recorder_heap w !! self = Some r →
  Recorder_state r ≠ RecorderState.RECORDING →
  Recorder_handle_tick host self w =
    (with_trace (fun t => t ++ [EnterRecorderTick self]) w, inr tt).
Proof.
  intros Hr Hs. unfold Recorder_handle_tick.
  rewrite (bind_inr _ _ _ _ _ (log_run _ _)).
  rewrite (bind_inr _ _ _ _ _
             (deref_Some recorder_heap self (with_trace _ w) r Hr)).
  destruct (RecorderState.eqb _ _) eqn:E; [|reflexivity].
  now apply RecorderState_eqb_eq in E.
Qed.

Lemma Recorder_stop_heap w self r save :
  recorder_heap w !! self = Some r →
  recorder_heap (world_after (Recorder_stop self save) w) =
    <[self := set_Recorder_state RecorderState.STOPPED r]> (recorder_heap w).
Proof.
  intros Hr. unfold world_after. rewrite (Recorder_stop_marks _ _ _ save Hr).
  cbv zeta. destruct save; [|reflexivity].
  destruct (Recorder_recording r) as [rec|]; [|reflexivity].
  destruct (list_contains _ _ _) as [w2 [e|[|]]]; reflexivity.
Qed.

Lemma Recorder_start_unfold host w self r :
  recorder_heap w !! self = Some r →
  let rec := length (recording_heap w) in
  ∃ fresh,
    Recording_items fresh = [] ∧
    Recorder_start host self w =
      (with_recorder_heap
         (fun h => <[self := set_Recorder_state RecorderState.RECORDING
                               (set_Recorder_recording (Some rec) r)]> h)
         (with_recording_heap (fun h => h ++ [fresh]) w),
       inr tt).
Proof.
  intros Hr rec. eexists. split; cycle 1.
  - unfold Recorder_start.
    rewrite (bind_inr _ _ _ _ _ (deref_Some recorder_heap _ _ _ Hr)).
    unfold bind at 1. unfold Recording_init, ask, new_recording, bind. simpl.
    fold rec. unfold update_recorder, bind, deref_recorder, deref, modify. simpl.
    rewrite Hr. simpl.
    rewrite list_lookup_insert_eq by (eapply lookup_lt_Some, Hr). simpl.
    unfold with_recorder_heap, with_recording_heap. simpl.
    rewrite list_insert_insert_eq. reflexivity.
  - reflexivity.
Qed.

(** C3 as the code has it.  A stopped recorder stays stopped under every
    sequence of [pause], [resume], [stop] and [handle_tick] calls, whether
    they raise or not.  [start] is not guarded: called on the stopped
    recorder it returns, binds a new empty recording to it and puts it back
    into the [RECORDING] state. *)
Theorem Recorder_stopped_until_start (host : Host) (w : World) (self : addr)
    (r : Recorder) :
  recorder_heap w !! self = Some r →
  Recorder_state r = RecorderState.STOPPED →
  (∀ ops, Rstart ∉ ops →
     Recorder_state_at (run_calls (Recorder_call host self) ops w) self =
       Some RecorderState.STOPPED) ∧
  outcome (Recorder_start host self) w = inr tt ∧
  Recorder_state_at (world_after (Recorder_start host self) w) self =
    Some RecorderState.RECORDING ∧
  (Recorder_recording <$>
     recorder_heap (world_after (Recorder_start host self) w) !! self) =
    Some (Some (length (recording_heap w))) ∧
  recording_heap w !! length (recording_heap w) = None ∧
  items_at (world_after (Recorder_start host self) w) (length (recording_heap w)) = [].
Proof.
  intros Hr Hs. split.
  - intros ops. revert w r Hr Hs.
    induction ops as [|op ops IH]; intros w r Hr Hs Hno.
    + simpl. unfold Recorder_state_at. rewrite Hr. simpl. now rewrite Hs.
    + assert (Hop : op ≠ Rstart) by (intros ->; apply Hno; left).
      assert (Hops : Rstart ∉ ops) by (intros H; apply Hno; now right).
      assert (Hlt : (self < length (recorder_heap w))%nat)
        by (eapply lookup_lt_Some, Hr).
      simpl. destruct op as [| | |save|]; simpl; [congruence|..].
      * unfold world_after. rewrite (Recorder_pause_unfold _ _ _ Hr), Hs. simpl.
        now apply (IH w r).
      * unfold world_after. rewrite (Recorder_resume_unfold _ _ _ Hr), Hs. simpl.
        now apply (IH w r).
      * apply (IH _ (set_Recorder_state RecorderState.STOPPED r)); auto.
        rewrite (Recorder_stop_heap _ _ _ save Hr).
        now apply list_lookup_insert_eq.
      * unfold world_after.
        rewrite (Recorder_handle_tick_idle host _ _ _ Hr) by (rewrite Hs; discriminate).
        simpl. now apply (IH _ r).
  - destruct (Recorder_start_unfold host w self r Hr) as (fresh & Hf & E).
    assert (Hlt : (self < length (recorder_heap w))%nat)
      by (eapply lookup_lt_Some, Hr).
    unfold outcome, world_after, Recorder_state_at, items_at. rewrite E. simpl.
    rewrite list_lookup_insert_eq by exact Hlt. simpl.
    repeat split.
    + apply lookup_ge_None. lia.
    + rewrite lookup_app_r by lia. rewrite Nat.sub_diag. simpl. exact Hf.
Qed.

Lemma Recorder_stopped_until_start_witness :
  Recorder_state_at
    (run_calls (Recorder_call demo_host 0%nat)
       [Rresume; Rhandle_tick; Rstop true; Rpause] recorded_world) 0%nat =
    Some RecorderState.STOPPED ∧
  Recorder_state_at (world_after (Recorder_start demo_host 0%nat) recorded_world) 0%nat =
    Some RecorderState.RECORDING.
Proof.
  destruct (Recorder_stopped_until_start demo_host recorded_world 0%nat
              {| Recorder_player := 1; Recorder_state := RecorderState.STOPPED;
                 Recorder_recording := Some 0%nat |}) as (H1 & _ & H2 & _);
    [reflexivity | reflexivity |].
  split; [|exact H2]. apply H1.
  intros H. apply list_elem_of_In in H. simpl in H.
  repeat (destruct H as [H|H]; [discriminate H|]). exact H.
Defined.

(** C3 as the spec words it fails: a recorder that [stop] has put into the
    [STOPPED] state is back in the [RECORDING] state after [start] on the
    same instance. *)
Lemma Recorder_restarts_after_stop :
  Recorder_state_at recorded_world 0%nat = Some RecorderState.STOPPED ∧
  outcome (Recorder_start demo_host 0%nat) recorded_world = inr tt ∧
  Recorder_state_at (run_calls (Recorder_call demo_host 0%nat) [Rstart] recorded_world)
    0%nat = Some RecorderState.RECORDING.
Proof. repeat split. Qed.

(** ** RecordingManager: players *)

Lemma find_player_none w rec values :
  Forall (bound_elsewhere w rec) values →
  find_player rec values w = (w, inr None).
Proof.
  induction 1 as [|a values (p & Hp & Hne) _ IH]; [reflexivity|].
  simpl. rewrite (bind_inr _ _ _ _ _ (deref_Some player_heap _ _ _ Hp)).
  destruct (Nat.eqb_spec (Player_recording p) rec); [contradiction|exact IH].
Qed.

Lemma find_player_first w rec pre pa post p :
  Forall (bound_elsewhere w rec) pre →
  player_heap w !! pa = Some p →
  Player_recording p = rec →
  find_player rec (pre ++ pa :: post) w = (w, inr (Some pa)).
Proof.
  intros Hpre Hp Hrec.
  induction Hpre as [|a pre (q & Hq & Hne) _ IH]; simpl.
  - rewrite (bind_inr _ _ _ _ _ (deref_Some player_heap _ _ _ Hp)).
    rewrite Hrec, Nat.eqb_refl. reflexivity.
  - rewrite (bind_inr _ _ _ _ _ (deref_Some player_heap _ _ _ Hq)).
    destruct (Nat.eqb_spec (Player_recording q) rec); [contradiction|exact IH].
Qed.

Lemma Recording_is_playable_unfold w rec r :
  recording_heap w !! rec = Some r →
  Recording_is_playable rec w = (w, inr (0 <? len (Recording_items r))).
Proof.
  intros Hr. unfold Recording_is_playable.
  now rewrite (bind_inr _ _ _ _ _ (deref_Some recording_heap _ _ _ Hr)).
Qed.

Lemma len_pos_iff {A} (l : list A) : (0 <? len l) = false ↔ l = [].
Proof.
  unfold len. destruct l; simpl; split; intros H; try reflexivity; discriminate.
Qed.

Lemma create_player_not_playable host w rec r name adjust :
  recording_heap w !! rec = Some r →
  Recording_items r = [] →
  create_player host rec name adjust w =
    (w, inl (ValueError "Recording is not playable.")).
Proof.
  intros Hr He. unfold create_player.
  rewrite (bind_inr _ _ _ _ _ (Recording_is_playable_unfold _ _ _ Hr)).
  rewrite He. reflexivity.
Qed.

Lemma create_player_unfold host w rec r name adjust :
  recording_heap w !! rec = Some r →
  Recording_items r ≠ [] →
  let bot_name :=
    match name with
    | Some n => n
    | None => PlayerData_name (Recording_player r) +:+ " (Replay Bot)"
    end in
  create_player host rec name adjust w =
    match bot_manager_create_bot host (trace w) bot_name with
    | None =>
        (with_trace (fun t => t ++ [CreateBot bot_name None]) w,
         inl (ValueError "Failed to create a replay bot."))
    | Some edict =>
        match bot_manager_get_bot_controller host
                (trace w ++ [CreateBot bot_name (Some edict)]) edict with
        | None =>
            (with_trace
               (fun t => t ++ [CreateBot bot_name (Some edict);
                               GetBotController edict None]) w,
             inl (ValueError "Failed to get the bot controller."))
        | Some c =>
            (with_players
               (dict_setitem (index_from_edict host edict) (length (player_heap w)))
               (with_player_heap
                  (fun h => h ++ [{| Player_tick := 0; Player_recording := rec;
                                     Player_state := PlayerState.PAUSED;
                                     Player_controller := c;
                                     Player_replay_bot := index_from_edict host edict;
                                     Player_adjust := adjust |}])
                  (with_trace
                     (fun t => t ++ [CreateBot bot_name (Some edict);
                                     GetBotController edict (Some c)]) w)),
             inr (length (player_heap w)))
        end
    end.
Proof.
  intros Hr Hne bot_name. unfold create_player.
  rewrite (bind_inr _ _ _ _ _ (Recording_is_playable_unfold _ _ _ Hr)).
  replace (0 <? len (Recording_items r)) with true; cycle 1.
  { symmetry. destruct (0 <? len (Recording_items r)) eqn:E; [reflexivity|].
    now apply len_pos_iff in E. }
  cbv beta. change (negb true) with false. cbv iota.
  assert (Hname : (match name with
                   | Some n => ret n
                   | None => create_replay_bot_name rec
                   end) w = (w, inr bot_name)).
  { destruct name; [reflexivity|]. unfold create_replay_bot_name.
    now rewrite (bind_inr _ _ _ _ _ (deref_Some recording_heap _ _ _ Hr)). }
  rewrite (bind_inr _ _ _ _ _ Hname).
  unfold bot_manager_create, bot_manager_controller, Player_init, new_player,
    ask, log, modify, bind. simpl.
  destruct (bot_manager_create_bot host (trace w) bot_name) as [edict|];
    [|reflexivity].
  simpl.
  destruct (bot_manager_get_bot_controller host _ edict) as [c|]; simpl.
  - unfold with_players, with_player_heap, with_trace. simpl.
    rewrite <- app_assoc. reflexivity.
  - unfold with_trace. simpl. rewrite <- app_assoc. reflexivity.
Qed.

Lemma create_player_new host w rec r name adjust edict c :
  recording_heap w !! rec = Some r →
  Recording_items r ≠ [] →
  let bot_name :=
    match name with
    | Some n => n
    | None => PlayerData_name (Recording_player r) +:+ " (Replay Bot)"
    end in
  bot_manager_create_bot host (trace w) bot_name = Some edict →
  bot_manager_get_bot_controller host
    (trace w ++ [CreateBot bot_name (Some edict)]) edict = Some c →
  create_player host rec name adjust w =
    (with_players (dict_setitem (index_from_edict host edict) (length (player_heap w)))
       (with_player_heap
          (fun h => h ++ [{| Player_tick := 0; Player_recording := rec;
                             Player_state := PlayerState.PAUSED;
                             Player_controller := c;
                             Player_replay_bot := index_from_edict host edict;
                             Player_adjust := adjust |}])
          (with_trace
             (fun t => t ++ [CreateBot bot_name (Some edict);
                             GetBotController edict (Some c)]) w)),
     inr (length (player_heap w))).
Proof.
  intros Hr Hne bot_name Hbot Hc.
  rewrite (create_player_unfold host w rec r name adjust Hr Hne).
  cbv zeta. fold bot_name. now rewrite Hbot, Hc.
Qed.

(** C2 as the code has it.  [get_player] is the operation that reuses a
    player: when a registered player is bound to the recording, it returns
    the first such player in registry order and changes nothing.
    [create_player] does not look for one: on a recording with snapshots,
    when the host supplies the bot and its controller, it returns a newly
    allocated player and registers it under the bot's index, whatever
    players are bound to the recording already. *)
Theorem get_player_reuses_create_player_adds (host : Host) (w : World)
    (rec : addr) (name : option string) :
  (∀ pre k pa post p,
     players w = pre ++ (k, pa) :: post →
     Forall (bound_elsewhere w rec) (dict_values pre) →
     player_heap w !! pa = Some p →
     Player_recording p = rec →
     get_player host rec name w = (w, inr pa)) ∧
  (∀ r adjust edict c,
     recording_heap w !! rec = Some r →
     Recording_items r ≠ [] →
     let bot_name :=
       match name with
       | Some n => n
       | None => PlayerData_name (Recording_player r) +:+ " (Replay Bot)"
       end in
     bot_manager_create_bot host (trace w) bot_name = Some edict →
     bot_manager_get_bot_controller host
       (trace w ++ [CreateBot bot_name (Some edict)]) edict = Some c →
     let new := length (player_heap w) in
     let w' := world_after (create_player host rec name adjust) w in
     outcome (create_player host rec name adjust) w = inr new ∧
     player_heap w !! new = None ∧
     Player_recording_at w' new = Some rec ∧
     (∀ a p, player_heap w !! a = Some p → player_heap w' !! a = Some p) ∧
     players w' = dict_setitem (index_from_edict host edict) new (players w)).
Proof.
  split.
  - intros pre k pa post p Hreg Hpre Hp Hrec. unfold get_player.
    rewrite (bind_inr _ _ w w (dict_values (players w)) eq_refl).
    rewrite Hreg. unfold dict_values at 1. rewrite map_app. simpl map.
    now rewrite (bind_inr _ _ _ _ _ (find_player_first w rec _ pa _ p Hpre Hp Hrec)).
  - intros r adjust edict c Hr Hne bot_name Hbot Hc new w'.
    unfold outcome, w', world_after, Player_recording_at.
    rewrite (create_player_new host w rec r name adjust edict c Hr Hne Hbot Hc).
    simpl. repeat split.
    + apply lookup_ge_None. unfold new. lia.
    + unfold new. rewrite lookup_app_r by lia. now rewrite Nat.sub_diag.
    + intros a p Hp. now apply lookup_app_l_Some.
Qed.

Lemma get_player_reuses_create_player_adds_witness :
  get_player demo_host 0%nat None playing_world = (playing_world, inr 0%nat) ∧
  outcome (create_player demo_host 0%nat None false) playing_world = inr 1%nat.
Proof.
  destruct (get_player_reuses_create_player_adds demo_host playing_world 0%nat None)
    as [Hget Hnew].
  split.
  - apply (Hget [] 13 0%nat []
             {| Player_tick := 0; Player_recording := 0%nat;
                Player_state := PlayerState.PLAYING; Player_controller := 103;
                Player_replay_bot := 13; Player_adjust := true |});
      [reflexivity | constructor | reflexivity | reflexivity].
  - apply (Hnew {| Recording_items := [0%nat; 1%nat; 2%nat];
                   Recording_creation_time := 0%Q; Recording_game := "css";
                   Recording_map_name := "de_dust2";
                   Recording_tick_interval := demo_tick_interval;
                   Recording_player :=
                     {| PlayerData_name := "Ayuto";
                        PlayerData_steamid := "STEAM_0:0:1";
                        PlayerData_team := 2 |} |} false 107 107);
      [reflexivity | discriminate | reflexivity | reflexivity].
Defined.

(** C2 as the spec words it fails: with one registered player bound to
    the recording, [create_player] on that recording returns another
    player and the registry then holds two players bound to it. *)
Lemma create_player_registers_second_player :
  dict_values (players playing_world) = [0%nat] ∧
  Player_recording_at playing_world 0%nat = Some 0%nat ∧
  outcome (create_player demo_host 0%nat None true) playing_world = inr 1%nat ∧
  let w' := world_after (create_player demo_host 0%nat None true) playing_world in
  dict_values (players w') = [0%nat; 1%nat] ∧
  Player_recording_at w' 0%nat = Some 0%nat ∧
  Player_recording_at w' 1%nat = Some 0%nat ∧
  outcome (get_player demo_host 0%nat None) playing_world = inr 0%nat.
Proof. repeat split. Qed.

(** ** Player: one call *)

Lemma py_getitem_in_range {A} (l : list A) (i : Z) (x : A) :
  0 ≤ i → l !! Z.to_nat i = Some x → py_getitem l i = inr x.
Proof.
  intros Hi Hx. unfold py_getitem.
  destruct (i <? 0) eqn:E; [apply Z.ltb_lt in E; lia|]. rewrite E. now rewrite Hx.
Qed.

Lemma Player_handle_tick_idle host w self p :
  player_heap w !! self = Some p →
  Player_state p ≠ PlayerState.PLAYING →
  Player_handle_tick host self w =
    (with_trace (fun t => t ++ [EnterPlayerTick self]) w, inr tt).
Proof.
  intros Hp Hs. unfold Player_handle_tick.
  rewrite (bind_inr _ _ _ _ _ (log_run _ _)).
  rewrite (bind_inr _ _ _ _ _
             (deref_Some player_heap self (with_trace _ w) p Hp)).
  destruct (PlayerState.eqb _ _) eqn:E; [|reflexivity].
  now apply PlayerState_eqb_eq in E.
Qed.

(** The test of line 277 on the trace at hand. *)
Lemma needs_adjust_unfold host p s w :
  needs_adjust host p s w =
    (w, inr ((Player_tick p =? 0) ||
             (Player_adjust p &&
              negb (Qle_bool
                      (get_distance_sqr host
                         (sp_origin host (trace w) (Player_replay_bot p))
                         (Snapshot_origin s)) 2500)))).
Proof.
  unfold needs_adjust. destruct (Player_tick p =? 0); [reflexivity|].
  destruct (Player_adjust p); reflexivity.
Qed.

Lemma Player_handle_tick_playing host w self p r sa s :
  player_heap w !! self = Some p →
  Player_state p = PlayerState.PLAYING →
  recording_heap w !! Player_recording p = Some r →
  py_getitem (Recording_items r) (Player_tick p) = inr sa →
  snapshot_heap w !! sa = Some s →
  let t1 := trace w ++ [EnterPlayerTick self;
                         RunPlayerMove (Player_controller p) (Snapshot_bcmd s)] in
  let corrects :=
    (Player_tick p =? 0) ||
    (Player_adjust p &&
     negb (Qle_bool
             (get_distance_sqr host (sp_origin host t1 (Player_replay_bot p))
                (Snapshot_origin s)) 2500)) in
  let t2 := if corrects
            then t1 ++ [Teleport (Player_replay_bot p) (Snapshot_origin s)
                          (Snapshot_angle s) (Snapshot_velocity s)]
            else t1 in
  let p' := if Player_tick p <? len (Recording_items r) - 1
            then set_Player_tick (Player_tick p + 1) p
            else set_Player_state PlayerState.STOPPED p in
  Player_handle_tick host self w =
    (with_player_heap (fun h => <[self := p']> h) (with_trace (fun _ => t2) w),
     inr tt).
Proof.
  intros Hp Hs Hr Hsa Hsnap t1 corrects t2 p'.
  assert (Ht1 : (trace w ++ [EnterPlayerTick self])
                  ++ [RunPlayerMove (Player_controller p) (Snapshot_bcmd s)] = t1)
    by (unfold t1; now rewrite <- app_assoc).
  unfold Player_handle_tick.
  rewrite (bind_inr _ _ _ _ _ (log_run _ _)).
  run_deref player_heap Hp.
  rewrite Hs. change (negb _) with false. cbv iota.
  run_deref recording_heap Hr.
  unfold lift at 1. rewrite Hsa.
  unfold bind at 1.
  run_deref snapshot_heap Hsnap.
  unfold Snapshot_replay_bcmd. rewrite (bind_inr _ _ _ _ _ (log_run _ _)).
  rewrite (bind_inr _ _ _ _ _ (needs_adjust_unfold host p s _)).
  cbn [trace with_trace]. rewrite Ht1. fold corrects.
  unfold Snapshot_replay_location.
  destruct corrects eqn:Ec.
  - rewrite (bind_inr _ _ _ _ _ (log_run _ _)).
    run_deref player_heap Hp. run_deref recording_heap Hr.
    unfold p', t2.
    destruct (Player_tick p <? len (Recording_items r) - 1);
      (rewrite (update_player_Some self _ _ p) by exact Hp);
      unfold with_player_heap, with_trace; cbn; rewrite Ht1; reflexivity.
  - rewrite (bind_inr _ _ _ _ tt eq_refl).
    run_deref player_heap Hp. run_deref recording_heap Hr.
    unfold p', t2.
    destruct (Player_tick p <? len (Recording_items r) - 1);
      (rewrite (update_player_Some self _ _ p) by exact Hp);
      unfold with_player_heap, with_trace; cbn; rewrite Ht1; reflexivity.
Qed.

Lemma app_singleton_neq {A} (l : list A) (x : A) : l ++ [x] ≠ l.
Proof.
  intros H. apply (f_equal length) in H. rewrite length_app in H. simpl in H. lia.
Qed.

Lemma exceeds_iff (d : Q) : negb (Qle_bool d 2500) = true ↔ (2500 < d)%Q.
Proof.
  rewrite negb_true_iff. split.
  - intros H. apply Qnot_le_lt. intros Hle. apply Qle_bool_iff in Hle. congruence.
  - intros H. destruct (Qle_bool d 2500) eqn:E; [|reflexivity].
    apply Qle_bool_iff in E. exfalso. now apply (Qlt_not_le _ _ H).
Qed.

(** C4.  A playing player for which [recording[tick]] is a snapshot first
    hands that snapshot's command to the controller.  It then teleports the bot to the
    snapshot's origin, angle and velocity if and only if [tick] is 0, or
    [adjust] is set and the squared distance between the bot's origin and
    the snapshot's origin is greater than 2500.  A squared distance equal
    to 2500 does not teleport the bot past tick 0, and at tick 0 the bot is
    teleported whatever the distance and [adjust] are. *)
Theorem Player_handle_tick_correction (host : Host) (w : World) (self : addr)
    (p : Player) (r : Recording) (sa : addr) (s : Snapshot) :
  player_heap w !! self = Some p →
  Player_state p = PlayerState.PLAYING →
  recording_heap w !! Player_recording p = Some r →
  py_getitem (Recording_items r) (Player_tick p) = inr sa →
  snapshot_heap w !! sa = Some s →
  let t1 := trace w ++ [EnterPlayerTick self;
                         RunPlayerMove (Player_controller p) (Snapshot_bcmd s)] in
  let d := get_distance_sqr host (sp_origin host t1 (Player_replay_bot p))
             (Snapshot_origin s) in
  let teleport := Teleport (Player_replay_bot p) (Snapshot_origin s)
                    (Snapshot_angle s) (Snapshot_velocity s) in
  let t' := trace (world_after (Player_handle_tick host self) w) in
  outcome (Player_handle_tick host self) w = inr tt ∧
  (t' = t1 ++ [teleport] ∨ t' = t1) ∧
  (t' = t1 ++ [teleport] ↔
     Player_tick p = 0 ∨ (Player_adjust p = true ∧ (2500 < d)%Q)) ∧
  (Player_tick p ≠ 0 → (d == 2500)%Q → t' = t1) ∧
  (Player_tick p = 0 → t' = t1 ++ [teleport]).
Proof.
  intros Hp Hs Hr Hsa Hsnap t1 d teleport t'.
  pose proof (Player_handle_tick_playing host w self p r sa s Hp Hs Hr Hsa Hsnap)
    as E. cbv zeta in E. fold t1 in E. fold d in E. fold teleport in E.
  unfold t', outcome, world_after. rewrite E. cbn [fst snd trace with_player_heap with_trace].
  assert (Hiff : (Player_tick p =? 0) || (Player_adjust p && negb (Qle_bool d 2500)) = true
                 ↔ Player_tick p = 0 ∨ (Player_adjust p = true ∧ (2500 < d)%Q)).
  { rewrite orb_true_iff, andb_true_iff, Z.eqb_eq, exceeds_iff. reflexivity. }
  destruct ((Player_tick p =? 0) || (Player_adjust p && negb (Qle_bool d 2500))) eqn:Ec.
  - split; [reflexivity|]. split; [now left|]. split; [|split].
    + split; [intros _; now apply Hiff | reflexivity].
    + intros Hne Hd. exfalso.
      destruct (proj1 Hiff eq_refl) as [H0|[_ Hlt]]; [contradiction|].
      rewrite Hd in Hlt. now apply Qlt_irrefl in Hlt.
    + reflexivity.
  - split; [reflexivity|]. split; [now right|]. split; [|split].
    + split.
      * intros H. symmetry in H. now apply app_singleton_neq in H.
      * intros H. apply Hiff in H. discriminate H.
    + reflexivity.
    + intros H0. pose proof (proj2 Hiff (or_introl H0)) as Hf. discriminate Hf.
Qed.

Lemma Player_handle_tick_correction_witness :
  outcome (Player_handle_tick demo_host 0%nat) ticked_world = inr tt ∧
  length (trace (world_after (Player_handle_tick demo_host 0%nat) ticked_world)) =
    13%nat.
Proof.
  edestruct (Player_handle_tick_correction demo_host ticked_world 0%nat)
    as (H1 & _ & H2 & _);
    [reflexivity | reflexivity | reflexivity | reflexivity | reflexivity |].
  split; [exact H1|].
  rewrite (proj2 H2); [reflexivity|].
  right. split; [reflexivity|]. vm_compute. reflexivity.
Defined.

(** At tick 1 with [adjust] set, a squared distance of exactly 2500 leaves
    the bot where it is; anything above teleports it. *)
Example no_correction_at_2500 :
  teleports (trace (world_after (Player_handle_tick (distance_host 2500) 0%nat)
                      ticked_world)) =
    teleports (trace ticked_world).
Proof. reflexivity. Qed.

Example correction_above_2500 :
  teleports (trace (world_after (Player_handle_tick (distance_host (250001 # 100)) 0%nat)
                      ticked_world)) =
    S (teleports (trace ticked_world)).
Proof. reflexivity. Qed.

(** ** Player: the cursor *)

Lemma Player_start_unfold w self p r :
  player_heap w !! self = Some p →
  recording_heap w !! Player_recording p = Some r →
  Player_start self w =
    (with_player_heap
       (fun h => <[self := set_Player_state PlayerState.PLAYING (set_Player_tick 0 p)]> h)
       (with_trace
          (fun t => t ++ [SetTeam (Player_replay_bot p)
                            (PlayerData_team (Recording_player r));
                          Spawn (Player_replay_bot p) true]) w),
     inr tt).
Proof.
  intros Hp Hr. unfold Player_start.
  assert (Hlt : (self < length (player_heap w))%nat) by (eapply lookup_lt_Some, Hp).
  rewrite (bind_inr _ _ _ _ _ (update_player_Some self _ w p Hp)).
  assert (Hp' : player_heap (with_player_heap
                  (fun h => <[self := set_Player_tick 0 p]> h) w) !! self =
                Some (set_Player_tick 0 p))
    by (simpl; now apply list_lookup_insert_eq).
  run_deref player_heap Hp'. run_deref recording_heap Hr.
  rewrite (bind_inr _ _ _ _ _ (log_run _ _)).
  rewrite (bind_inr _ _ _ _ _ (log_run _ _)).
  unfold Player_resume.
  erewrite update_player_Some by exact Hp'.
  unfold with_player_heap, with_trace. cbn.
  rewrite list_insert_insert_eq, <- app_assoc. reflexivity.
Qed.

Lemma Player_stop_unfold w self p r :
  player_heap w !! self = Some p →
  recording_heap w !! Player_recording p = Some r →
  Player_stop self w =
    (with_player_heap
       (fun h => <[self := set_Player_state PlayerState.STOPPED
                             (set_Player_tick (len (Recording_items r) - 1) p)]> h) w,
     inr tt).
Proof.
  intros Hp Hr. unfold Player_stop.
  assert (Hlt : (self < length (player_heap w))%nat) by (eapply lookup_lt_Some, Hp).
  run_deref player_heap Hp. run_deref recording_heap Hr.
  rewrite (bind_inr _ _ _ _ _ (update_player_Some self _ w p Hp)).
  erewrite update_player_Some by (simpl; now apply list_lookup_insert_eq).
  unfold with_player_heap. cbn. rewrite list_insert_insert_eq. reflexivity.
Qed.

Lemma Player_ticks_idle host self p k : ∀ w,
  player_heap w !! self = Some p →
  Player_state p ≠ PlayerState.PLAYING →
  player_heap (run_calls (Player_call host self) (replicate k Phandle_tick) w) =
    player_heap w.
Proof.
  induction k as [|k IH]; intros w Hp Hs; [reflexivity|].
  simpl. unfold world_after.
  rewrite (Player_handle_tick_idle host w self p Hp Hs). simpl fst.
  now rewrite IH.
Qed.

Lemma Player_ticks_run host self r d : ∀ w p,
  player_heap w !! self = Some p →
  Player_state p = PlayerState.PLAYING →
  recording_heap w !! Player_recording p = Some r →
  Forall (allocated (snapshot_heap w)) (Recording_items r) →
  0 ≤ Player_tick p →
  Player_tick p + Z.of_nat d = len (Recording_items r) - 1 →
  let ticks n := run_calls (Player_call host self) (replicate n Phandle_tick) w in
  (∀ j, (j ≤ d)%nat →
     Player_state_at (ticks j) self = Some PlayerState.PLAYING ∧
     Player_tick_at (ticks j) self = Some (Player_tick p + Z.of_nat j)) ∧
  (∀ k, Player_state_at (ticks (S d + k)%nat) self = Some PlayerState.STOPPED ∧
        Player_tick_at (ticks (S d + k)%nat) self = Some (len (Recording_items r) - 1)).
Proof.
  induction d as [|d IH]; intros w p Hp Hs Hr Hall H0 Hd ticks.
  - assert (Hlt : (self < length (player_heap w))%nat) by (eapply lookup_lt_Some, Hp).
    destruct (lookup_lt_is_Some_2 (Recording_items r) (Z.to_nat (Player_tick p)))
      as [sa Hsa]; [unfold len in Hd; lia|].
    destruct (proj1 (Forall_lookup _ _) Hall _ _ Hsa) as [s Hsn].
    split.
    + intros j Hj. assert (j = 0%nat) as -> by lia.
      unfold ticks, Player_state_at, Player_tick_at. simpl. rewrite Hp. simpl.
      rewrite Hs, Z.add_0_r. auto.
    + intros k. unfold ticks. simpl. unfold world_after. simpl Player_call.
      rewrite (Player_handle_tick_playing host w self p r sa s Hp Hs Hr
                 (py_getitem_in_range _ _ _ H0 Hsa) Hsn).
      replace (Player_tick p <? len (Recording_items r) - 1) with false
        by (symmetry; apply Z.ltb_ge; lia).
      simpl fst. unfold Player_state_at, Player_tick_at.
      erewrite Player_ticks_idle;
        [| simpl; now apply list_lookup_insert_eq | simpl; discriminate].
      simpl. rewrite list_lookup_insert_eq by exact Hlt. simpl.
      split; [reflexivity|]. f_equal. lia.
  - assert (Hlt : (self < length (player_heap w))%nat) by (eapply lookup_lt_Some, Hp).
    destruct (lookup_lt_is_Some_2 (Recording_items r) (Z.to_nat (Player_tick p)))
      as [sa Hsa]; [unfold len in Hd; lia|].
    destruct (proj1 (Forall_lookup _ _) Hall _ _ Hsa) as [s Hsn].
    pose proof (Player_handle_tick_playing host w self p r sa s Hp Hs Hr
                  (py_getitem_in_range _ _ _ H0 Hsa) Hsn)
      as E. cbv zeta in E.
    replace (Player_tick p <? len (Recording_items r) - 1) with true in E
      by (symmetry; apply Z.ltb_lt; lia).
    match type of E with _ = (?w1, _) => set (w1' := w1) in E end.
    destruct (IH w1' (set_Player_tick (Player_tick p + 1) p)) as [IH1 IH2].
    + simpl. now apply list_lookup_insert_eq.
    + exact Hs.
    + exact Hr.
    + exact Hall.
    + simpl. lia.
    + simpl. lia.
    + split.
      * intros [|j] Hj.
        -- unfold ticks, Player_state_at, Player_tick_at. simpl. rewrite Hp. simpl.
           rewrite Hs, Z.add_0_r. auto.
        -- unfold ticks. simpl. unfold world_after. simpl Player_call. rewrite E. simpl fst.
           destruct (IH1 j) as [A B]; [lia|]. split; [exact A|].
           rewrite B. simpl. f_equal. lia.
      * intros k. unfold ticks. simpl. unfold world_after. simpl Player_call. rewrite E.
        simpl fst. apply IH2.
Qed.

(** ** The tick listener *)

Ltac destruct_matches :=
  repeat match goal with
         | |- context [match ?x with _ => _ end] => destruct x eqn:?
         end.

Lemma Recording_add_snapshot_frame host rec pl w :
  trace (fst (Recording_add_snapshot host rec pl w)) = trace w ∧
  recorders (fst (Recording_add_snapshot host rec pl w)) = recorders w ∧
  players (fst (Recording_add_snapshot host rec pl w)) = players w.
Proof.
  unfold Recording_add_snapshot, Recording_create_snapshot, update_recording,
    new_snapshot, ask, modify, bind, deref_recording, deref.
  simpl. destruct (recording_heap w !! rec); simpl; auto.
Qed.

Lemma Recorder_handle_tick_trace host a w :
  trace (fst (Recorder_handle_tick host a w)) = trace w ++ [EnterRecorderTick a] ∧
  recorders (fst (Recorder_handle_tick host a w)) = recorders w ∧
  players (fst (Recorder_handle_tick host a w)) = players w.
Proof.
  unfold Recorder_handle_tick.
  rewrite (bind_inr _ _ _ _ _ (log_run _ _)).
  unfold bind, deref_recorder, deref. cbn [recorder_heap with_trace].
  destruct (recorder_heap w !! a) as [r|]; [|auto].
  destruct (negb _); [auto|].
  destruct (Recorder_recording r) as [rec|]; [|auto].
  apply (Recording_add_snapshot_frame host rec (Recorder_player r)
           (with_trace (fun t => t ++ [EnterRecorderTick a]) w)).
Qed.

Lemma Player_handle_tick_raises host a w p :
  player_heap w !! a = Some p →
  Player_state p = PlayerState.PLAYING →
  (∀ r sa s, recording_heap w !! Player_recording p = Some r →
             py_getitem (Recording_items r) (Player_tick p) = inr sa →
             snapshot_heap w !! sa = Some s → False) →
  ∃ e, Player_handle_tick host a w =
         (with_trace (fun t => t ++ [EnterPlayerTick a]) w, inl e).
Proof.
  intros Hp Hs Hno. unfold Player_handle_tick.
  rewrite (bind_inr _ _ _ _ _ (log_run _ _)).
  run_deref player_heap Hp. rewrite Hs. change (negb _) with false. cbv iota.
  unfold bind at 1. unfold deref_recording, deref at 1.
  cbn [recording_heap with_trace].
  destruct (recording_heap w !! Player_recording p) as [r|] eqn:Hr; [|eauto].
  unfold bind at 1. unfold lift at 1.
  destruct (py_getitem (Recording_items r) (Player_tick p)) as [e|sa] eqn:Hsa;
    [eauto|].
  unfold bind at 1. unfold deref_snapshot, deref at 1.
  cbn [snapshot_heap with_trace].
  destruct (snapshot_heap w !! sa) as [s|] eqn:Hsn; [|eauto].
  destruct (Hno r sa s eq_refl Hsa Hsn).
Qed.

Lemma Player_handle_tick_trace host a w :
  ∃ evs,
    trace (fst (Player_handle_tick host a w)) = trace w ++ EnterPlayerTick a :: evs ∧
    entries evs = [] ∧
    players (fst (Player_handle_tick host a w)) = players w.
Proof.
  destruct (player_heap w !! a) as [p|] eqn:Hp; cycle 1.
  { exists []. unfold Player_handle_tick.
    rewrite (bind_inr _ _ _ _ _ (log_run _ _)).
    rewrite (bind_inl _ _ _ _ _
               (deref_None player_heap a (with_trace _ w) Hp)).
    auto. }
  destruct (PlayerState.eqb (Player_state p) PlayerState.PLAYING) eqn:Es; cycle 1.
  { exists []. rewrite (Player_handle_tick_idle host w a p Hp); [auto|].
    intros H. apply PlayerState_eqb_eq in H. congruence. }
  apply PlayerState_eqb_eq in Es.
  destruct (recording_heap w !! Player_recording p) as [r|] eqn:Hr; cycle 1.
  { destruct (Player_handle_tick_raises host a w p Hp Es) as [e E];
      [intros; congruence|]. rewrite E. exists []. auto. }
  destruct (py_getitem (Recording_items r) (Player_tick p)) as [e|sa] eqn:Hsa.
  { destruct (Player_handle_tick_raises host a w p Hp Es) as [e' E];
      [intros; congruence|]. rewrite E. exists []. auto. }
  destruct (snapshot_heap w !! sa) as [s|] eqn:Hsn; cycle 1.
  { destruct (Player_handle_tick_raises host a w p Hp Es) as [e' E];
      [intros; congruence|]. rewrite E. exists []. auto. }
  rewrite (Player_handle_tick_playing host w a p r sa s Hp Es Hr Hsa Hsn).
  cbn [fst trace players with_player_heap with_trace].
  match goal with
  | |- context [if ?c then _ else _] => destruct c
  end.
  - exists [RunPlayerMove (Player_controller p) (Snapshot_bcmd s);
            Teleport (Player_replay_bot p) (Snapshot_origin s) (Snapshot_angle s)
              (Snapshot_velocity s)].
    rewrite <- app_assoc. auto.
  - exists [RunPlayerMove (Player_controller p) (Snapshot_bcmd s)]. auto.
Qed.

Lemma entries_app t1 t2 : entries (t1 ++ t2) = entries t1 ++ entries t2.
Proof. unfold entries. apply filter_app. Qed.

Lemma for_each_recorders host rs : ∀ w,
  ∃ called,
    trace (fst (for_each rs (Recorder_handle_tick host) w)) =
      trace w ++ map EnterRecorderTick called ∧
    called `prefix_of` rs ∧
    (snd (for_each rs (Recorder_handle_tick host) w) = inr tt → called = rs) ∧
    recorders (fst (for_each rs (Recorder_handle_tick host) w)) = recorders w ∧
    players (fst (for_each rs (Recorder_handle_tick host) w)) = players w.
Proof.
  induction rs as [|a rs IH]; intros w.
  - exists []. simpl. rewrite app_nil_r. auto.
  - destruct (Recorder_handle_tick_trace host a w) as (Ht & Hr & Hp).
    simpl. unfold bind.
    destruct (Recorder_handle_tick host a w) as [w1 [e|[]]]; simpl in Ht, Hr, Hp.
    + exists [a]. simpl. repeat split; auto; try discriminate.
      exists rs. reflexivity.
    + destruct (IH w1) as (called & Ht' & Hpre & Hok & Hr' & Hp').
      exists (a :: called). rewrite Ht', Ht, Hr', Hp', <- app_assoc. simpl.
      repeat split; auto.
      * now apply prefix_cons.
      * intros H. now rewrite (Hok H).
Qed.

Lemma for_each_players host ps : ∀ w,
  ∃ evs called,
    trace (fst (for_each ps (Player_handle_tick host) w)) = trace w ++ evs ∧
    entries evs = map EnterPlayerTick called ∧
    called `prefix_of` ps ∧
    (snd (for_each ps (Player_handle_tick host) w) = inr tt → called = ps).
Proof.
  induction ps as [|a ps IH]; intros w.
  - exists [], []. simpl. rewrite app_nil_r. auto.
  - destruct (Player_handle_tick_trace host a w) as (evs & Ht & He & _).
    simpl. unfold bind.
    destruct (Player_handle_tick host a w) as [w1 [e|[]]]; simpl in Ht.
    + exists (EnterPlayerTick a :: evs), [a]. simpl.
      change (EnterPlayerTick a :: evs) with ([EnterPlayerTick a] ++ evs).
      rewrite entries_app, He. repeat split; auto; try discriminate.
      exists ps. reflexivity.
    + destruct (IH w1) as (evs' & called & Ht' & He' & Hpre & Hok).
      exists ((EnterPlayerTick a :: evs) ++ evs'), (a :: called).
      rewrite Ht', Ht, <- app_assoc.
      change (EnterPlayerTick a :: evs) with ([EnterPlayerTick a] ++ evs).
      rewrite !entries_app, He, He'. repeat split; auto.
      * now apply prefix_cons.
      * intros H. now rewrite (Hok H).
Qed.

(** C9.  One run of the tick listener extends the trace by a recorder
    phase followed by a player phase.  The recorder phase consists of the
    entries into [Recorder.handle_tick], for the registered recorders in
    registry order; the entries of the player phase are those into
    [Player.handle_tick], for the registered players in registry order.  A
    player is entered only after every registered recorder has been, no
    recorder is entered after a player, and when the listener returns every
    recorder and every player has been entered. *)
Theorem on_tick_recorders_before_players (host : Host) (w : World) :
  let rs := dict_values (recorders w) in
  let ps := dict_values (players w) in
  ∃ rs' ps' evs_p,
    trace (world_after (on_tick host) w) =
      trace w ++ map EnterRecorderTick rs' ++ evs_p ∧
    entries evs_p = map EnterPlayerTick ps' ∧
    rs' `prefix_of` rs ∧
    ps' `prefix_of` ps ∧
    (ps' ≠ [] → rs' = rs) ∧
    (outcome (on_tick host) w = inr tt → rs' = rs ∧ ps' = ps) ∧
    (∀ pre post a b,
       map EnterRecorderTick rs' ++ evs_p = pre ++ EnterPlayerTick a :: post →
       EnterRecorderTick b ∉ post).
Proof.
  intros rs ps.
  assert (Hsplit : ∀ rs' evs_p ps' pre post a b,
            entries evs_p = map EnterPlayerTick ps' →
            map EnterRecorderTick rs' ++ evs_p = pre ++ EnterPlayerTick a :: post →
            EnterRecorderTick b ∉ post).
  { intros rs' evs_p ps' pre post a b He Heq Hin.
    assert (Hp : EnterRecorderTick b ∉ evs_p).
    { intros H.
      assert (H' : EnterRecorderTick b ∈ entries evs_p)
        by (unfold entries; apply list_elem_of_filter; auto).
      rewrite He in H'. apply list_elem_of_fmap in H' as (x & Hx & _). discriminate. }
    apply app_eq_app in Heq as [l [[E1 E2]|[E1 E2]]].
    - destruct l as [|e l].
      + simpl in E2. rewrite <- E2 in Hp. apply Hp. now right.
      + simpl in E2. injection E2 as E3 E4. subst e.
        assert (H' : EnterPlayerTick a ∈ map EnterRecorderTick rs').
        { rewrite E1. apply elem_of_app. right. left. }
        apply list_elem_of_fmap in H' as (x & Hx & _). discriminate.
    - apply Hp. rewrite E2. apply elem_of_app. right. now right. }
  unfold on_tick, outcome, world_after.
  rewrite (bind_inr _ _ w w rs eq_refl).
  destruct (for_each_recorders host rs w) as (rs' & Ht & Hpre & Hok & Hr & Hp).
  unfold bind at 1 3.
  destruct (for_each rs (Recorder_handle_tick host) w) as [w1 [e|[]]];
    simpl in Ht, Hok, Hr, Hp.
  - exists rs', [], []. simpl. rewrite app_nil_r.
    repeat split; auto; try discriminate; try congruence.
    + apply prefix_nil.
    + intros pre post a b Heq. eapply (Hsplit rs' [] []); [reflexivity|].
      rewrite app_nil_r. exact Heq.
  - rewrite (bind_inr _ _ w1 w1 ps) by (unfold gets, dict_values, ps; now rewrite Hp).
    destruct (for_each_players host ps w1) as (evs & ps' & Ht' & He & Hpre' & Hok').
    exists rs', ps', evs. rewrite Ht', Ht, <- app_assoc.
    specialize (Hok eq_refl). repeat split; auto.
    intros pre post a b Heq. now apply (Hsplit rs' evs ps' pre post a b).
Qed.

(** ** Worlds the program builds *)

Lemma allocated_app {A} (h k : list A) a : allocated h a → allocated (h ++ k) a.
Proof. intros [x Hx]. exists x. now apply lookup_app_l_Some. Qed.

Lemma allocated_insert {A} (h : list A) i x a :
  allocated h a → allocated (<[i := x]> h) a.
Proof.
  unfold allocated. rewrite !lookup_lt_is_Some, length_insert. auto.
Qed.

Lemma allocated_new {A} (h : list A) x : allocated (h ++ [x]) (length h).
Proof.
  exists x. rewrite lookup_app_r by lia. now rewrite Nat.sub_diag.
Qed.

Lemma Forall_dict_setitem {V} (P : V → Prop) k v (d : list (Z * V)) :
  Forall P (dict_values d) → P v → Forall P (dict_values (dict_setitem k v d)).
Proof.
  intros Hd Hv. induction d as [|[k' v'] d IH]; simpl.
  - constructor; [exact Hv|constructor].
  - inversion Hd; subst. destruct (k' =? k); simpl; constructor; auto.
Qed.

Lemma wf_with_trace f w : wf w → wf (with_trace f w).
Proof. intros []. constructor; assumption. Qed.

Lemma wf_set_recorder w self r' :
  wf w → Recorder_ok w r' →
  wf (with_recorder_heap (fun h => <[self := r']> h) w).
Proof.
  intros [] Hr. constructor; cbn; try assumption.
  - apply Forall_insert; assumption.
  - eapply Forall_impl; [eassumption|]. intros a. apply allocated_insert.
Qed.

Lemma wf_register_recording w rec :
  wf w → allocated (recording_heap w) rec →
  wf (with_recording_mgr (fun l => l ++ [rec]) w).
Proof.
  intros [] Hr. constructor; cbn; try assumption.
  apply Forall_app. split; [assumption|]. constructor; [exact Hr|constructor].
Qed.

Lemma Player_ok_new_recording w fresh p :
  Player_ok w p → Player_ok (with_recording_heap (fun h => h ++ [fresh]) w) p.
Proof.
  intros (r & Hr & Hin). exists r. split; [|exact Hin].
  cbn. now apply lookup_app_l_Some.
Qed.

Lemma wf_new_recording w fresh :
  wf w → Recording_items fresh = [] →
  wf (with_recording_heap (fun h => h ++ [fresh]) w).
Proof.
  intros [] Hf. constructor; cbn; try assumption.
  - eapply Forall_impl; [eassumption|]. intros a. apply allocated_app.
  - eapply Forall_impl; [eassumption|]. intros r Hr rec Hrec.
    apply allocated_app. now apply Hr.
  - eapply Forall_impl; [eassumption|]. intros p. apply Player_ok_new_recording.
  - apply Forall_app. split; [assumption|].
    constructor; [|constructor]. unfold Recording_ok. rewrite Hf. constructor.
Qed.

Lemma wf_set_player w self p' :
  wf w → Player_ok w p' →
  wf (with_player_heap (fun h => <[self := p']> h) w).
Proof.
  intros [] Hp. constructor; cbn; try assumption.
  - apply Forall_insert; assumption.
  - eapply Forall_impl; [eassumption|]. intros a. apply allocated_insert.
Qed.

Lemma wf_new_player w k p :
  wf w → Player_ok w p →
  wf (with_players (dict_setitem k (length (player_heap w)))
        (with_player_heap (fun h => h ++ [p]) w)).
Proof.
  intros [] Hp. constructor; cbn; try assumption.
  - apply Forall_app. split; [assumption|]. constructor; [exact Hp|constructor].
  - apply Forall_dict_setitem; [|apply allocated_new].
    eapply Forall_impl; [eassumption|]. intros a. apply allocated_app.
Qed.

Lemma wf_new_recorder w k r :
  wf w → Recorder_ok w r →
  wf (with_recorders (dict_setitem k (length (recorder_heap w)))
        (with_recorder_heap (fun h => h ++ [r]) w)).
Proof.
  intros [] Hr. constructor; cbn; try assumption.
  - apply Forall_app. split; [assumption|]. constructor; [exact Hr|constructor].
  - apply Forall_dict_setitem; [|apply allocated_new].
    eapply Forall_impl; [eassumption|]. intros a. apply allocated_app.
Qed.

Lemma wf_add_snapshot w rec r s :
  wf w → recording_heap w !! rec = Some r →
  wf (with_recording_heap
        (fun h => <[rec := set_items (Recording_items r ++ [length (snapshot_heap w)]) r]> h)
        (with_snapshot_heap (fun h => h ++ [s]) w)).
Proof.
  intros [] Hr. constructor; cbn; try assumption.
  - eapply Forall_impl; [eassumption|]. intros a. apply allocated_insert.
  - eapply Forall_impl; [eassumption|]. intros r0 Hr0 rec0 Hrec0.
    apply allocated_insert. now apply Hr0.
  - eapply Forall_impl; [eassumption|]. intros p (r0 & Hr0 & Hin).
    unfold Player_ok. cbn.
    destruct (Nat.eq_dec (Player_recording p) rec) as [E|E].
    + subst rec. pose proof (eq_trans (eq_sym Hr) Hr0) as X. injection X as <-.
      eexists. split; [apply list_lookup_insert_eq; eapply lookup_lt_Some, Hr|].
      cbn. unfold len in *. rewrite length_app. simpl. lia.
    + exists r0. split; [|exact Hin]. rewrite list_lookup_insert_ne; auto.
  - apply Forall_insert.
    + eapply Forall_impl; [eassumption|]. intros r0 Hr0.
      eapply Forall_impl; [exact Hr0|]. intros a. apply allocated_app.
    + unfold Recording_ok. cbn. apply Forall_app. split.
      * assert (Hok : Recording_ok w r)
          by (eapply (proj1 (Forall_lookup _ _)); eassumption).
        eapply Forall_impl; [exact Hok|]. intros a. apply allocated_app.
      * constructor; [apply allocated_new|constructor].
Qed.

Lemma keeps_wf_bind {A B} (m : M A) (k : A → M B) :
  keeps_wf m → (∀ a, keeps_wf (k a)) → keeps_wf (bind m k).
Proof.
  intros Hm Hk w Hw. specialize (Hm w Hw). unfold bind.
  destruct (m w) as [w1 [e|a]]; [exact Hm|]. now apply Hk.
Qed.

Lemma keeps_wf_ret {A} (a : A) : keeps_wf (ret a).
Proof. intros w Hw. exact Hw. Qed.

Lemma keeps_wf_for_each {A} (l : list A) (body : A → M unit) :
  (∀ a, keeps_wf (body a)) → keeps_wf (for_each l body).
Proof.
  intros Hb. induction l as [|a l IH]; [apply keeps_wf_ret|].
  simpl. apply keeps_wf_bind; auto.
Qed.

Lemma wf_recorder_ok w self r :
  wf w → recorder_heap w !! self = Some r → Recorder_ok w r.
Proof. intros [] Hr. eapply (proj1 (Forall_lookup _ _)); eassumption. Qed.

Lemma wf_player_ok w self p :
  wf w → player_heap w !! self = Some p → Player_ok w p.
Proof. intros [] Hp. eapply (proj1 (Forall_lookup _ _)); eassumption. Qed.

Lemma wf_recording_ok w rec r :
  wf w → recording_heap w !! rec = Some r → Recording_ok w r.
Proof. intros [] Hr. eapply (proj1 (Forall_lookup _ _)); eassumption. Qed.

Lemma keeps_wf_get_recorder index : keeps_wf (get_recorder index).
Proof.
  intros w Hw. unfold get_recorder.
  rewrite (bind_inr _ _ w w (recorders w) eq_refl).
  destruct (dict_get index (recorders w)); [exact Hw|].
  unfold Recorder_init, new_recorder, modify, bind, ret. simpl.
  apply (wf_new_recorder w index); [exact Hw|]. intros rec H. discriminate H.
Qed.

Lemma Recording_add_snapshot_unfold host w rec r player :
  recording_heap w !! rec = Some r →
  ∃ s, Recording_add_snapshot host rec player w =
         (with_recording_heap
            (fun h => <[rec := set_items
                                 (Recording_items r ++ [length (snapshot_heap w)]) r]> h)
            (with_snapshot_heap (fun h => h ++ [s]) w),
          inr tt).
Proof.
  intros Hr. eexists.
  unfold Recording_add_snapshot, Recording_create_snapshot, new_snapshot, ask.
  unfold bind at 1. unfold bind at 1. simpl.
  unfold update_recording.
  match goal with
  | |- context [bind (deref_recording rec) ?k ?w0] =>
      rewrite (bind_inr (deref_recording rec) k w0 w0 r
                 (deref_Some recording_heap rec w0 r Hr))
  end.
  reflexivity.
Qed.

Lemma keeps_wf_Recorder_call host self op : keeps_wf (Recorder_call host self op).
Proof.
  intros w Hw.
  destruct (recorder_heap w !! self) as [r|] eqn:Hr; cycle 1.
  { destruct op; simpl.
    - unfold Recorder_start.
      now rewrite (bind_inl _ _ _ _ _ (deref_None recorder_heap _ _ Hr)).
    - unfold Recorder_pause.
      now rewrite (bind_inl _ _ _ _ _ (deref_None recorder_heap _ _ Hr)).
    - unfold Recorder_resume.
      now rewrite (bind_inl _ _ _ _ _ (deref_None recorder_heap _ _ Hr)).
    - unfold Recorder_stop, update_recorder. unfold bind at 1.
      now rewrite (bind_inl _ _ _ _ _ (deref_None recorder_heap _ _ Hr)).
    - unfold Recorder_handle_tick.
      rewrite (bind_inr _ _ _ _ _ (log_run _ _)).
      rewrite (bind_inl _ _ _ _ _
                 (deref_None recorder_heap self (with_trace _ w) Hr)).
      now apply wf_with_trace. }
  pose proof (wf_recorder_ok w self r Hw Hr) as Hok.
  destruct op as [| | |save|]; simpl.
  - destruct (Recorder_start_unfold host w self r Hr) as (fresh & Hf & E).
    rewrite E. simpl. apply wf_set_recorder.
    + now apply wf_new_recording.
    + intros rec [= <-]. cbn. apply allocated_new.
  - rewrite (Recorder_pause_unfold w self r Hr).
    destruct (RecorderState.eqb _ _); [exact Hw|]. simpl.
    apply wf_set_recorder; assumption.
  - rewrite (Recorder_resume_unfold w self r Hr).
    destruct (RecorderState.eqb _ _); [exact Hw|]. simpl.
    apply wf_set_recorder; assumption.
  - rewrite (Recorder_stop_exact w self r save Hr (wf_mgr w Hw) Hok). simpl.
    assert (H1 : wf (with_recorder_heap
                       (fun h => <[self := set_Recorder_state RecorderState.STOPPED r]> h)
                       w))
      by (apply wf_set_recorder; assumption).
    destruct (Recorder_recording r) as [rec|] eqn:E; [|exact H1].
    destruct (save && negb _); [|exact H1].
    apply wf_register_recording; [exact H1|]. cbn. now apply Hok.
  - unfold Recorder_handle_tick.
    rewrite (bind_inr _ _ _ _ _ (log_run _ _)).
    run_deref recorder_heap Hr.
    destruct (negb _); [now apply wf_with_trace|].
    destruct (Recorder_recording r) as [rec|] eqn:E; [|now apply wf_with_trace].
    destruct (Hok rec E) as [rr Hrr].
    destruct (Recording_add_snapshot_unfold host
                (with_trace (fun t => t ++ [EnterRecorderTick self]) w)
                rec rr (Recorder_player r) Hrr) as [s Es].
    rewrite Es. simpl fst.
    apply (wf_add_snapshot (with_trace (fun t => t ++ [EnterRecorderTick self]) w));
      [now apply wf_with_trace | exact Hrr].
Qed.

Lemma Player_ok_tick w p r t :
  recording_heap w !! Player_recording p = Some r →
  0 ≤ t < len (Recording_items r) →
  Player_ok w (set_Player_tick t p).
Proof. intros Hr Ht. exists r. auto. Qed.

Lemma Player_ok_state w p s : Player_ok w p → Player_ok w (set_Player_state s p).
Proof. intros H. exact H. Qed.

Lemma keeps_wf_Player_call host self op : keeps_wf (Player_call host self op).
Proof.
  intros w Hw.
  destruct (player_heap w !! self) as [p|] eqn:Hp; cycle 1.
  { pose proof (deref_None player_heap _ _ Hp) as Hd.
    destruct op; simpl.
    - unfold Player_start, update_player. unfold bind at 1.
      now rewrite (bind_inl _ _ _ _ _ Hd).
    - unfold Player_resume, update_player. now rewrite (bind_inl _ _ _ _ _ Hd).
    - unfold Player_pause, update_player. now rewrite (bind_inl _ _ _ _ _ Hd).
    - unfold Player_stop. now rewrite (bind_inl _ _ _ _ _ Hd).
    - unfold Player_handle_tick.
      rewrite (bind_inr _ _ _ _ _ (log_run _ _)).
      rewrite (bind_inl _ _ _ _ _
                 (deref_None player_heap self (with_trace _ w) Hp)).
      now apply wf_with_trace. }
  destruct (wf_player_ok w self p Hw Hp) as (r & Hr & Hin).
  destruct op; simpl.
  - rewrite (Player_start_unfold w self p r Hp Hr). simpl.
    apply wf_set_player; [now apply wf_with_trace|].
    apply Player_ok_state, (Player_ok_tick _ p r); [exact Hr|lia].
  - unfold Player_resume. rewrite (update_player_Some _ _ _ _ Hp). simpl.
    apply wf_set_player; [exact Hw|]. now exists r.
  - unfold Player_pause. rewrite (update_player_Some _ _ _ _ Hp). simpl.
    apply wf_set_player; [exact Hw|]. now exists r.
  - rewrite (Player_stop_unfold w self p r Hp Hr). simpl.
    apply wf_set_player; [exact Hw|].
    apply Player_ok_state, (Player_ok_tick _ p r); [exact Hr|lia].
  - destruct (PlayerState.eqb (Player_state p) PlayerState.PLAYING) eqn:Es.
    + apply PlayerState_eqb_eq in Es.
      destruct (lookup_lt_is_Some_2 (Recording_items r) (Z.to_nat (Player_tick p)))
        as [sa Hsa]; [unfold len in Hin; lia|].
      destruct (proj1 (Forall_lookup _ _) (wf_recording_ok w _ r Hw Hr) _ _ Hsa)
        as [s Hs].
      rewrite (Player_handle_tick_playing host w self p r sa s Hp Es Hr
                 (py_getitem_in_range _ _ _ (proj1 Hin) Hsa) Hs). simpl fst.
      apply wf_set_player; [now apply wf_with_trace|].
      destruct (Player_tick p <? len (Recording_items r) - 1) eqn:El.
      * apply Z.ltb_lt in El. apply (Player_ok_tick _ p r); [exact Hr|lia].
      * now exists r.
    + rewrite (Player_handle_tick_idle host w self p Hp).
      * now apply wf_with_trace.
      * intros H. apply PlayerState_eqb_eq in H. congruence.
Qed.

Lemma keeps_wf_create_player host rec name adjust :
  keeps_wf (create_player host rec name adjust).
Proof.
  intros w Hw.
  destruct (recording_heap w !! rec) as [r|] eqn:Hr; cycle 1.
  { unfold create_player, Recording_is_playable. unfold bind at 1.
    now rewrite (bind_inl _ _ _ _ _ (deref_None recording_heap _ _ Hr)). }
  destruct (Recording_items r) as [|s0 items] eqn:Ei.
  { now rewrite (create_player_not_playable host w rec r name adjust Hr Ei). }
  assert (Hne : Recording_items r ≠ []) by (rewrite Ei; discriminate).
  rewrite (create_player_unfold host w rec r name adjust Hr Hne). cbv zeta.
  destruct (bot_manager_create_bot host _ _) as [edict|];
    [|now apply wf_with_trace].
  destruct (bot_manager_get_bot_controller host _ edict) as [c|];
    [|now apply wf_with_trace].
  simpl fst.
  match goal with
  | |- wf (with_players _ (with_player_heap _ ?w0)) =>
      apply (wf_new_player w0); [now apply wf_with_trace|]
  end.
  exists r. split; [exact Hr|]. cbn. rewrite Ei. unfold len. simpl. lia.
Qed.

Lemma find_player_world rec values w : fst (find_player rec values w) = w.
Proof.
  induction values as [|a values IH]; [reflexivity|]. simpl.
  unfold bind, deref_player, deref.
  destruct (player_heap w !! a) as [p|]; [|reflexivity].
  destruct (Nat.eqb (Player_recording p) rec); [reflexivity|exact IH].
Qed.

Lemma keeps_wf_get_player host rec name : keeps_wf (get_player host rec name).
Proof.
  intros w Hw. unfold get_player.
  rewrite (bind_inr _ _ w w (dict_values (players w)) eq_refl).
  pose proof (find_player_world rec (dict_values (players w)) w) as Hf.
  unfold bind.
  destruct (find_player rec (dict_values (players w)) w) as [w1 [e|[pa|]]];
    simpl in Hf; subst w1; try exact Hw.
  now apply keeps_wf_create_player.
Qed.

Lemma keeps_wf_play host rec name : keeps_wf (Recording_play host rec name).
Proof.
  unfold Recording_play. apply keeps_wf_bind; [apply keeps_wf_get_player|].
  intros player. apply keeps_wf_bind; [|intros; apply keeps_wf_ret].
  apply (keeps_wf_Player_call host player Pstart).
Qed.

Lemma keeps_wf_on_tick host : keeps_wf (on_tick host).
Proof.
  unfold on_tick.
  apply keeps_wf_bind; [intros w Hw; exact Hw|]. intros rs.
  apply keeps_wf_bind.
  { apply keeps_wf_for_each. intros a.
    apply (keeps_wf_Recorder_call host a Rhandle_tick). }
  intros _. apply keeps_wf_bind; [intros w Hw; exact Hw|]. intros ps.
  apply keeps_wf_for_each. intros a.
  apply (keeps_wf_Player_call host a Phandle_tick).
Qed.

Lemma keeps_wf_run_call host c : keeps_wf (run_call host c).
Proof.
  destruct c; simpl.
  - apply keeps_wf_bind; [apply keeps_wf_get_recorder|intros; apply keeps_wf_ret].
  - apply keeps_wf_Recorder_call.
  - apply keeps_wf_Player_call.
  - apply keeps_wf_bind; [apply keeps_wf_create_player|intros; apply keeps_wf_ret].
  - apply keeps_wf_bind; [apply keeps_wf_get_player|intros; apply keeps_wf_ret].
  - apply keeps_wf_bind; [apply keeps_wf_play|intros; apply keeps_wf_ret].
  - apply keeps_wf_on_tick.
Qed.

Lemma wf_empty_world : wf empty_world.
Proof. constructor; constructor. Qed.

(** Every world the program reaches from a well-formed one, the empty one
    for instance, is well-formed. *)
Lemma wf_run_calls host calls : ∀ w, wf w → wf (run_calls (run_call host) calls w).
Proof.
  induction calls as [|c calls IH]; intros w Hw; [exact Hw|].
  simpl. apply IH. now apply keeps_wf_run_call.
Qed.

Lemma wf_registered_players_playable w : wf w → registered_players_playable w.
Proof.
  intros Hw. unfold registered_players_playable.
  eapply Forall_impl; [apply (wf_registered_players w Hw)|].
  intros a [p Hp]. destruct (wf_player_ok w a p Hw Hp) as (r & Hr & Hin).
  exists p, r. repeat split; auto.
  intros E. rewrite E in Hin. unfold len in Hin. simpl in Hin. lia.
Qed.

(** ** Players persist *)

Section Steps.

Variable R : World → World → Prop.
Hypothesis R_refl : ∀ w, R w w.
Hypothesis R_trans : ∀ w1 w2 w3, R w1 w2 → R w2 w3 → R w1 w3.

Lemma steps_bind {A B} (m : M A) (k : A → M B) :
  steps R m → (∀ a, steps R (k a)) → steps R (bind m k).
Proof.
  intros Hm Hk w. specialize (Hm w). unfold bind.
  destruct (m w) as [w1 [e|a]]; [exact Hm|].
  eapply R_trans; [exact Hm|apply Hk].
Qed.

Lemma steps_same {A} (m : M A) : (∀ w, fst (m w) = w) → steps R m.
Proof. intros H w. rewrite H. apply R_refl. Qed.

Lemma steps_for_each {A} (l : list A) (body : A → M unit) :
  (∀ a, steps R (body a)) → steps R (for_each l body).
Proof.
  intros Hb. induction l as [|a l IH]; [now apply steps_same|].
  simpl. apply steps_bind; auto.
Qed.

End Steps.

Lemma players_persist_refl w : players_persist w w.
Proof. intros a p Hp. eauto. Qed.

Lemma players_persist_trans w1 w2 w3 :
  players_persist w1 w2 → players_persist w2 w3 → players_persist w1 w3.
Proof.
  intros H1 H2 a p Hp. destruct (H1 a p Hp) as (p1 & Hp1 & E1).
  destruct (H2 a p1 Hp1) as (p2 & Hp2 & E2). exists p2. split; congruence.
Qed.

Lemma persist_keep {A} (m : M A) :
  (∀ w, player_heap (fst (m w)) = player_heap w) → steps players_persist m.
Proof. intros H w a p Hp. rewrite H. eauto. Qed.

Lemma persist_update_player a f :
  (∀ p, Player_recording (f p) = Player_recording p) →
  steps players_persist (update_player a f).
Proof.
  intros Hf w. unfold update_player, bind, deref_player, deref, modify.
  destruct (player_heap w !! a) as [p|] eqn:Hp; [|apply players_persist_refl].
  intros b q Hq. cbn. destruct (Nat.eq_dec b a) as [->|Hne].
  - exists (f p). rewrite list_lookup_insert_eq by (eapply lookup_lt_Some, Hp).
    split; [reflexivity|]. rewrite Hf.
    pose proof (eq_trans (eq_sym Hq) Hp) as X. now injection X as ->.
  - exists q. rewrite list_lookup_insert_ne by auto. auto.
Qed.

Lemma persist_new_player p : steps players_persist (new_player p).
Proof.
  intros w a q Hq. exists q. split; [|reflexivity].
  cbn. now apply lookup_app_l_Some.
Qed.

(** Splits a computation into its steps; what is left are the steps that
    write to the world. *)
Ltac persist_steps :=
  repeat first
    [ apply persist_update_player; reflexivity
    | apply persist_new_player
    | apply (steps_for_each _ players_persist_refl players_persist_trans); intros ?
    | apply (steps_bind _ players_persist_trans); [|intros ?]
    | match goal with
      | |- steps _ (if ?b then _ else _) => destruct b
      | |- steps _ (match ?x with _ => _ end) => destruct x
      end
    | apply persist_keep; intros ?; unfold deref_snapshot, deref_recording,
        deref_recorder, deref_player, deref, lift;
        cbn; repeat match goal with
                    | |- context [match ?x with _ => _ end] => destruct x
                    end; reflexivity ].

Lemma persist_Recorder_call host self op :
  steps players_persist (Recorder_call host self op).
Proof.
  destruct op; simpl;
    unfold Recorder_start, Recorder_pause, Recorder_resume, Recorder_stop,
      Recorder_handle_tick, Recording_init, Recording_add_snapshot,
      Recording_create_snapshot, update_recorder, update_recording;
    persist_steps.
  apply persist_keep. intros w. apply (f_equal player_heap (list_contains_world _ _ w)).
Qed.

Lemma persist_Player_call host self op :
  steps players_persist (Player_call host self op).
Proof.
  destruct op; simpl;
    unfold Player_start, Player_resume, Player_pause, Player_stop,
      Player_handle_tick, needs_adjust, Snapshot_replay_bcmd,
      Snapshot_replay_location;
    persist_steps.
Qed.

Lemma persist_create_player host rec name adjust :
  steps players_persist (create_player host rec name adjust).
Proof.
  unfold create_player, Recording_is_playable, create_replay_bot_name,
    bot_manager_create, bot_manager_controller, Player_init.
  persist_steps.
Qed.

Lemma persist_find_player rec values :
  steps players_persist (find_player rec values).
Proof.
  apply persist_keep. intros w.
  apply (f_equal player_heap (find_player_world rec values w)).
Qed.

Lemma persist_get_player host rec name :
  steps players_persist (get_player host rec name).
Proof.
  unfold get_player.
  apply (steps_bind _ players_persist_trans); [persist_steps|]. intros values.
  apply (steps_bind _ players_persist_trans); [apply persist_find_player|].
  intros [player|]; [persist_steps|apply persist_create_player].
Qed.

Lemma persist_on_tick host : steps players_persist (on_tick host).
Proof.
  unfold on_tick.
  apply (steps_bind _ players_persist_trans); [persist_steps|]. intros rs.
  apply (steps_bind _ players_persist_trans).
  { apply (steps_for_each _ players_persist_refl players_persist_trans).
    intros a. apply (persist_Recorder_call host a Rhandle_tick). }
  intros _.
  apply (steps_bind _ players_persist_trans); [persist_steps|]. intros ps.
  apply (steps_for_each _ players_persist_refl players_persist_trans).
  intros a. apply (persist_Player_call host a Phandle_tick).
Qed.

Lemma persist_run_call host c : steps players_persist (run_call host c).
Proof.
  destruct c; simpl.
  - unfold get_recorder, Recorder_init. persist_steps.
  - apply persist_Recorder_call.
  - apply persist_Player_call.
  - apply (steps_bind _ players_persist_trans);
      [apply persist_create_player|intros; persist_steps].
  - apply (steps_bind _ players_persist_trans);
      [apply persist_get_player|intros; persist_steps].
  - unfold Recording_play.
    apply (steps_bind _ players_persist_trans); [|intros; persist_steps].
    apply (steps_bind _ players_persist_trans); [apply persist_get_player|].
    intros player.
    apply (steps_bind _ players_persist_trans); [|intros; persist_steps].
    apply (persist_Player_call host player Pstart).
  - apply persist_on_tick.
Qed.

Lemma persist_run_calls host calls : ∀ w,
  players_persist w (run_calls (run_call host) calls w).
Proof.
  induction calls as [|c calls IH]; intros w; [apply players_persist_refl|].
  simpl. eapply players_persist_trans; [apply persist_run_call|apply IH].
Qed.

(** ** Recordings without snapshots *)

(** C8.  [is_playable()] answers [False] exactly for a recording without
    snapshots.  For such a recording [create_player] raises
    [ValueError('Recording is not playable.')] and leaves the world as it
    was: the trace has no request to the host and the registry no new
    player.  So does [Recording.play] in every well-formed world, that is
    in every world the program reaches: no registered player is bound to
    such a recording, so that [play] has to create one. *)
Theorem not_playable_spec (host : Host) (w : World) (rec : addr) (r : Recording)
    (name : option string) (adjust : bool) :
  recording_heap w !! rec = Some r →
  (Recording_is_playable rec w = (w, inr false) ↔ Recording_items r = []) ∧
  (Recording_items r = [] →
     create_player host rec name adjust w =
       (w, inl (ValueError "Recording is not playable.")) ∧
     (wf w →
        Recording_play host rec name w =
          (w, inl (ValueError "Recording is not playable.")))).
Proof.
  intros Hr. split.
  - rewrite (Recording_is_playable_unfold _ _ _ Hr).
    rewrite <- len_pos_iff. split; [intros [= ->]; reflexivity | intros ->; reflexivity].
  - intros He. split; [now apply (create_player_not_playable host w rec r)|].
    intros Hw. pose proof (wf_registered_players_playable w Hw) as Hreg.
    assert (Hnone : Forall (bound_elsewhere w rec) (dict_values (players w))).
    { eapply Forall_impl; [exact Hreg|].
      intros a (p & r' & Hp & Hr' & Hne). exists p. split; [exact Hp|].
      intros E. rewrite E, Hr in Hr'. injection Hr' as <-. contradiction. }
    unfold Recording_play. apply bind_inl. unfold get_player.
    rewrite (bind_inr _ _ w w (dict_values (players w)) eq_refl).
    rewrite (bind_inr _ _ _ _ _ (find_player_none w rec _ Hnone)).
    now apply (create_player_not_playable host w rec r).
Qed.

Lemma not_playable_spec_witness :
  create_player demo_host 1%nat None true restarted_world =
    (restarted_world, inl (ValueError "Recording is not playable.")) ∧
  Recording_play demo_host 1%nat None restarted_world =
    (restarted_world, inl (ValueError "Recording is not playable.")).
Proof.
  destruct (not_playable_spec demo_host restarted_world 1%nat
             {| Recording_items := []; Recording_creation_time := 0%Q;
                Recording_game := "css"; Recording_map_name := "de_dust2";
                Recording_tick_interval := demo_tick_interval;
                Recording_player :=
                  {| PlayerData_name := "Ayuto";
                     PlayerData_steamid := "STEAM_0:0:1";
                     PlayerData_team := 2 |} |} None true eq_refl) as [_ H].
  destruct (H eq_refl) as [H1 H2].
  split; [exact H1|]. apply H2.
  apply wf_run_calls, wf_empty_world.
Defined.

(** ** Player: the cursor at all times *)

(** C5.  In a well-formed world, such as the program builds from the
    empty one, the cursor of every player is on a snapshot of its
    recording, and it stays so whatever is called next, on this player or
    on anything else: after every sequence of calls the player is still
    there, bound to the same recording, with [0 <= tick < len].  A playing
    player at tick [t] is still playing, at tick [t + j], after
    [j <= len - 1 - t] calls of [handle_tick]; after [len - t] calls, and
    after any number of further ones, it is [STOPPED] with
    [tick = len - 1].  On a stopped player [handle_tick] changes no
    player. *)
Theorem Player_cursor_invariant (host : Host) (w : World) (self : addr)
    (p : Player) :
  wf w →
  player_heap w !! self = Some p →
  ∃ r,
    recording_heap w !! Player_recording p = Some r ∧
    0 ≤ Player_tick p < len (Recording_items r) ∧
    (∀ calls,
       let w' := run_calls (run_call host) calls w in
       ∃ p' r', player_heap w' !! self = Some p' ∧
                Player_recording p' = Player_recording p ∧
                recording_heap w' !! Player_recording p = Some r' ∧
                0 ≤ Player_tick p' < len (Recording_items r')) ∧
    let ticks n := run_calls (Player_call host self) (replicate n Phandle_tick) w in
    let remaining := Z.to_nat (len (Recording_items r) - Player_tick p) in
    (Player_state p = PlayerState.PLAYING →
       (∀ j, (j < remaining)%nat →
          Player_state_at (ticks j) self = Some PlayerState.PLAYING ∧
          Player_tick_at (ticks j) self = Some (Player_tick p + Z.of_nat j)) ∧
       (∀ k, Player_state_at (ticks (remaining + k)%nat) self =
               Some PlayerState.STOPPED ∧
             Player_tick_at (ticks (remaining + k)%nat) self =
               Some (len (Recording_items r) - 1))) ∧
    (Player_state p = PlayerState.STOPPED →
       ∀ k, player_heap (ticks k) = player_heap w).
Proof.
  intros Hw Hp. destruct (wf_player_ok w self p Hw Hp) as (r & Hr & Hin).
  pose proof (wf_recording_ok w _ r Hw Hr) as Hall.
  exists r. split; [exact Hr|]. split; [exact Hin|]. split; [|split].
  - intros calls w'.
    destruct (persist_run_calls host calls w self p Hp) as (p' & Hp' & Hrec).
    destruct (wf_player_ok w' self p' (wf_run_calls host calls w Hw) Hp')
      as (r' & Hr' & Hin').
    exists p', r'. rewrite <- Hrec. auto.
  - intros Hs.
    destruct (Player_ticks_run host self r
                (Z.to_nat (len (Recording_items r) - 1 - Player_tick p)) w p
                Hp Hs Hr Hall (proj1 Hin)) as [H1 H2]; [lia|].
    assert (Hrem : Z.to_nat (len (Recording_items r) - Player_tick p) =
                   S (Z.to_nat (len (Recording_items r) - 1 - Player_tick p)))
      by lia.
    split.
    + intros j Hj. apply H1. lia.
    + intros k. rewrite Hrem. apply H2.
  - intros Hs k. apply (Player_ticks_idle host self p k w Hp). rewrite Hs. discriminate.
Qed.

Lemma Player_cursor_invariant_witness :
  Player_state_at
    (run_calls (Player_call demo_host 0%nat) (replicate 3 Phandle_tick) playing_world)
    0%nat = Some PlayerState.STOPPED ∧
  Player_tick_at
    (run_calls (Player_call demo_host 0%nat) (replicate 3 Phandle_tick) playing_world)
    0%nat = Some 2.
Proof.
  edestruct (Player_cursor_invariant demo_host playing_world 0%nat)
    as (r & Hr & _ & _ & H & _); [| reflexivity |].
  - do 2 apply wf_run_calls. apply wf_empty_world.
  - injection Hr as <-. destruct (H eq_refl) as [_ H2]. exact (H2 0%nat).
Defined.

(** * Further properties *)

(** ** Dicts *)

Lemma dict_get_setitem_eq {V} k (v : V) d : dict_get k (dict_setitem k v d) = Some v.
Proof.
  induction d as [|[k' v'] d IH]; simpl.
  - now rewrite Z.eqb_refl.
  - destruct (k' =? k) eqn:E; simpl; [now rewrite Z.eqb_refl|now rewrite E].
Qed.

Lemma dict_get_setitem_ne {V} k k' (v : V) d :
  k ≠ k' → dict_get k' (dict_setitem k v d) = dict_get k' d.
Proof.
  intros Hne. induction d as [|[k0 v0] d IH]; simpl.
  - destruct (k =? k') eqn:E; [apply Z.eqb_eq in E; contradiction|reflexivity].
  - destruct (k0 =? k) eqn:E; simpl.
    + apply Z.eqb_eq in E. subst k0.
      destruct (k =? k') eqn:E'; [apply Z.eqb_eq in E'; contradiction|reflexivity].
    + destruct (k0 =? k'); [reflexivity|exact IH].
Qed.

Lemma dict_get_None_keys {V} k (d : list (Z * V)) :
  dict_get k d = None ↔ k ∉ dict_keys d.
Proof.
  induction d as [|[k' v'] d IH]; simpl.
  - split; [intros _ H; inversion H|reflexivity].
  - destruct (Z.eqb_spec k' k) as [->|Hne].
    + split; [discriminate|]. intros H. exfalso. apply H. left.
    + rewrite IH. split.
      * intros H Hin. inversion Hin; subst; [congruence|contradiction].
      * intros H Hin. apply H. now right.
Qed.

Lemma dict_get_delitem_eq {V} k (d : list (Z * V)) :
  NoDup (dict_keys d) → dict_get k (dict_delitem k d) = None.
Proof.
  induction d as [|[k' v'] d IH]; simpl; intros Hnd; [reflexivity|].
  inversion Hnd as [|? ? Hnotin Hnd']; subst.
  destruct (Z.eqb_spec k' k) as [->|Hne].
  - now apply dict_get_None_keys.
  - simpl. destruct (Z.eqb_spec k' k); [contradiction|]. now apply IH.
Qed.

Lemma dict_get_delitem_ne {V} k k' (d : list (Z * V)) :
  k ≠ k' → dict_get k' (dict_delitem k d) = dict_get k' d.
Proof.
  intros Hne. induction d as [|[k0 v0] d IH]; simpl; [reflexivity|].
  destruct (Z.eqb_spec k0 k) as [->|Hne0].
  - destruct (Z.eqb_spec k k'); [contradiction|reflexivity].
  - simpl. destruct (k0 =? k'); [reflexivity|exact IH].
Qed.

Lemma dict_keys_setitem {V} k (v : V) d :
  dict_keys (dict_setitem k v d) =
    if decide (k ∈ dict_keys d) then dict_keys d else dict_keys d ++ [k].
Proof.
  induction d as [|[k' v'] d IH]; simpl.
  - destruct (decide (k ∈ [])) as [H|_]; [inversion H|reflexivity].
  - destruct (Z.eqb_spec k' k) as [->|Hne]; simpl.
    + destruct (decide (k ∈ k :: dict_keys d)) as [_|H]; [reflexivity|].
      exfalso. apply H. left.
    + rewrite IH. destruct (decide (k ∈ dict_keys d)) as [Hin|Hnin].
      * destruct (decide (k ∈ k' :: dict_keys d)) as [_|H]; [reflexivity|].
        exfalso. apply H. now right.
      * destruct (decide (k ∈ k' :: dict_keys d)) as [H|_]; [|reflexivity].
        inversion H; subst; [congruence|contradiction].
Qed.

Lemma dict_setitem_NoDup {V} k (v : V) d :
  NoDup (dict_keys d) → NoDup (dict_keys (dict_setitem k v d)).
Proof.
  intros Hnd. rewrite dict_keys_setitem.
  destruct (decide (k ∈ dict_keys d)) as [Hin|Hnin]; [exact Hnd|].
  apply NoDup_app. repeat split; auto.
  - intros x Hx Hx'. apply list_elem_of_singleton in Hx'. now subst.
  - apply NoDup_singleton.
Qed.

Lemma dict_delitem_keys_sub {V} k (d : list (Z * V)) x :
  x ∈ dict_keys (dict_delitem k d) → x ∈ dict_keys d.
Proof.
  induction d as [|[k' v'] d IH]; simpl; [auto|].
  destruct (k' =? k); simpl; intros H.
  - now right.
  - inversion H; subst; [left|right; auto].
Qed.

Lemma dict_delitem_NoDup {V} k (d : list (Z * V)) :
  NoDup (dict_keys d) → NoDup (dict_keys (dict_delitem k d)).
Proof.
  induction d as [|[k' v'] d IH]; simpl; intros Hnd; [constructor|].
  inversion Hnd as [|? ? Hnotin Hnd']; subst.
  destruct (k' =? k); [exact Hnd'|]. simpl. constructor; [|now apply IH].
  intros H. apply Hnotin. eapply dict_delitem_keys_sub, H.
Qed.

Lemma dict_get_values {V} k (v : V) d : dict_get k d = Some v → v ∈ dict_values d.
Proof.
  induction d as [|[k' v'] d IH]; simpl; [discriminate|].
  destruct (k' =? k).
  - intros [= ->]. left.
  - intros H. right. now apply IH.
Qed.

Lemma dict_delitem_values_sub {V} k (d : list (Z * V)) x :
  x ∈ dict_values (dict_delitem k d) → x ∈ dict_values d.
Proof.
  induction d as [|[k' v'] d IH]; simpl; [auto|].
  destruct (k' =? k); simpl; intros H.
  - now right.
  - inversion H; subst; [left|right; auto].
Qed.

(** ** RecordingManager.get_recorder *)

(** X1.  [get_recorder] is get-or-create.  For a registered index it
    returns the registered recorder and changes nothing.  For an index
    that is not registered it allocates a recorder for that client, paused
    and without a recording, registers it under the index and leaves the
    other entries alone; asked again, it returns that same recorder and
    allocates nothing. *)
Theorem get_recorder_spec (w : World) (index : Z) :
  (∀ a, dict_get index (recorders w) = Some a →
        get_recorder index w = (w, inr a)) ∧
  (dict_get index (recorders w) = None →
     let new := length (recorder_heap w) in
     let w' := world_after (get_recorder index) w in
     outcome (get_recorder index) w = inr new ∧
     recorder_heap w' =
       recorder_heap w ++ [{| Recorder_player := index;
                              Recorder_state := RecorderState.PAUSED;
                              Recorder_recording := None |}] ∧
     dict_get index (recorders w') = Some new ∧
     (∀ k, k ≠ index → dict_get k (recorders w') = dict_get k (recorders w)) ∧
     get_recorder index w' = (w', inr new)).
Proof.
  assert (Hfound : ∀ w0 a, dict_get index (recorders w0) = Some a →
                           get_recorder index w0 = (w0, inr a)).
  { intros w0 a Ha. unfold get_recorder.
    rewrite (bind_inr _ _ w0 w0 (recorders w0) eq_refl). cbv beta. now rewrite Ha. }
  split; [apply Hfound|].
  intros Hn new w'.
  assert (E : get_recorder index w =
              (with_recorders (dict_setitem index new)
                 (with_recorder_heap
                    (fun h => h ++ [{| Recorder_player := index;
                                       Recorder_state := RecorderState.PAUSED;
                                       Recorder_recording := None |}]) w),
               inr new)).
  { unfold get_recorder.
    rewrite (bind_inr _ _ w w (recorders w) eq_refl). cbv beta. rewrite Hn.
    reflexivity. }
  unfold w', outcome, world_after. rewrite E. cbn [fst snd].
  split; [reflexivity|]. split; [reflexivity|]. split; [|split].
  - apply dict_get_setitem_eq.
  - intros k Hk. apply dict_get_setitem_ne. congruence.
  - apply Hfound. apply dict_get_setitem_eq.
Qed.

Lemma get_recorder_spec_witness :
  get_recorder 1 recorded_world = (recorded_world, inr 0%nat) ∧
  outcome (get_recorder 2) recorded_world = inr 1%nat.
Proof.
  destruct (get_recorder_spec recorded_world 1) as [H1 _].
  destruct (get_recorder_spec recorded_world 2) as [_ H2].
  split; [apply H1; reflexivity|]. apply H2. reflexivity.
Defined.

(** ** Recorder.handle_tick and Recording.add_snapshot *)

Lemma Recording_create_snapshot_run host player w :
  Recording_create_snapshot host player w =
    (with_snapshot_heap (fun h => h ++ [snapshot_of host (trace w) player]) w,
     inr (length (snapshot_heap w))).
Proof. reflexivity. Qed.

Lemma Recorder_handle_tick_recording host w self r rec rr :
  recorder_heap w !! self = Some r →
  Recorder_state r = RecorderState.RECORDING →
  Recorder_recording r = Some rec →
  recording_heap w !! rec = Some rr →
  Recorder_handle_tick host self w =
    (with_recording_heap
       (fun h => <[rec := set_items
                            (Recording_items rr ++ [length (snapshot_heap w)]) rr]> h)
       (with_snapshot_heap
          (fun h => h ++ [snapshot_of host (trace w ++ [EnterRecorderTick self])
                            (Recorder_player r)])
          (with_trace (fun t => t ++ [EnterRecorderTick self]) w)),
     inr tt).
Proof.
  intros Hr Hs Hrec Hrr. unfold Recorder_handle_tick.
  rewrite (bind_inr _ _ _ _ _ (log_run _ _)).
  run_deref recorder_heap Hr. rewrite Hs, Hrec. change (negb _) with false.
  cbv iota.
  unfold Recording_add_snapshot.
  rewrite (bind_inr _ _ _ _ _ (Recording_create_snapshot_run host _ _)).
  unfold update_recording. run_deref recording_heap Hrr. reflexivity.
Qed.

(** X2.  While a recorder is [RECORDING], one [handle_tick] takes one
    snapshot: a new snapshot object holding the origin, angles and velocity
    the host reports for the recorded client and the bot command copied
    from its last user command is appended to the recorder's recording.
    The snapshots taken before, the other recordings, the manager's list
    and the recorder itself are left as they are.  While the recorder is
    [PAUSED] or [STOPPED], [handle_tick] does nothing. *)
Theorem Recorder_handle_tick_captures (host : Host) (w : World) (self : addr)
    (r : Recorder) :
  recorder_heap w !! self = Some r →
  (Recorder_state r ≠ RecorderState.RECORDING →
     Recorder_handle_tick host self w =
       (with_trace (fun t => t ++ [EnterRecorderTick self]) w, inr tt)) ∧
  (Recorder_state r = RecorderState.RECORDING →
     ∀ rec rr,
       Recorder_recording r = Some rec →
       recording_heap w !! rec = Some rr →
       let t := trace w ++ [EnterRecorderTick self] in
       let new := length (snapshot_heap w) in
       let w' := world_after (Recorder_handle_tick host self) w in
       outcome (Recorder_handle_tick host self) w = inr tt ∧
       snapshot_heap w' =
         snapshot_heap w ++ [snapshot_of host t (Recorder_player r)] ∧
       recording_heap w' !! rec =
         Some (set_items (Recording_items rr ++ [new]) rr) ∧
       (∀ other, other ≠ rec →
          recording_heap w' !! other = recording_heap w !! other) ∧
       recording_mgr w' = recording_mgr w ∧
       recorder_heap w' = recorder_heap w ∧
       trace w' = t).
Proof.
  intros Hr. split; [now apply Recorder_handle_tick_idle|].
  intros Hs rec rr Hrec Hrr t new w'.
  unfold w', outcome, world_after.
  rewrite (Recorder_handle_tick_recording host w self r rec rr Hr Hs Hrec Hrr).
  cbn. repeat split.
  - apply list_lookup_insert_eq. eapply lookup_lt_Some, Hrr.
  - intros other Hne. apply list_lookup_insert_ne. congruence.
Qed.

Lemma Recorder_handle_tick_captures_witness :
  length (items_at (world_after (Recorder_handle_tick demo_host 0%nat) restarted_world)
            1%nat) = 1%nat ∧
  Recorder_handle_tick demo_host 0%nat recorded_world =
    (with_trace (fun t => t ++ [EnterRecorderTick 0%nat]) recorded_world, inr tt).
Proof.
  split.
  - edestruct (Recorder_handle_tick_captures demo_host restarted_world 0%nat)
      as [_ H]; [reflexivity|].
    edestruct (H eq_refl 1%nat) as (_ & _ & E & _); [reflexivity|reflexivity|].
    unfold items_at. rewrite E. reflexivity.
  - edestruct (Recorder_handle_tick_captures demo_host recorded_world 0%nat)
      as [H _]; [reflexivity|]. apply H. discriminate.
Defined.

(** X3.  [n] ticks of a recording recorder append [n] snapshots, in the
    order they are taken, behind those the recording has: recordings only
    grow.  Afterwards [duration] is the float product of [len + n],
    converted to a float, and the tick interval the recording was created
    with, rounded to the nearest float, and the recording is playable as
    soon as it has one snapshot. *)
Theorem Recorder_ticks_append (host : Host) (self : addr) (r : Recorder)
    (rec : addr) (n : nat) : ∀ (w : World) (rr : Recording),
  recorder_heap w !! self = Some r →
  Recorder_state r = RecorderState.RECORDING →
  Recorder_recording r = Some rec →
  recording_heap w !! rec = Some rr →
  let w' := run_calls (Recorder_call host self) (replicate n Rhandle_tick) w in
  let items' := Recording_items rr ++ seq (length (snapshot_heap w)) n in
  recording_heap w' !! rec = Some (set_items items' rr) ∧
  length (snapshot_heap w') = (length (snapshot_heap w) + n)%nat ∧
  Recording_duration rec w' =
    (w', inr (PyFloat
                (float_mul (float_of_int (len (Recording_items rr) + Z.of_nat n))
                           (Recording_tick_interval rr)))) ∧
  Recording_is_playable rec w' =
    (w', inr (0 <? len (Recording_items rr) + Z.of_nat n)).
Proof.
  induction n as [|n IH]; intros w rr Hr Hs Hrec Hrr w' items'.
  - unfold w', items'. simpl. rewrite app_nil_r, Nat.add_0_r, Z.add_0_r.
    assert (E : set_items (Recording_items rr) rr = rr) by (now destruct rr).
    rewrite E. split; [exact Hrr|]. split; [reflexivity|]. split.
    + unfold Recording_duration.
      now rewrite (bind_inr _ _ _ _ _ (deref_Some recording_heap _ _ _ Hrr)).
    + now apply Recording_is_playable_unfold.
  - unfold w'. simpl. unfold world_after. simpl Recorder_call.
    rewrite (Recorder_handle_tick_recording host w self r rec rr Hr Hs Hrec Hrr).
    simpl fst.
    match goal with
    | |- context [run_calls _ _ ?w1] => set (w1' := w1)
    end.
    assert (Hrr1 : recording_heap w1' !! rec =
                   Some (set_items (Recording_items rr ++ [length (snapshot_heap w)]) rr)).
    { unfold w1'. cbn. apply list_lookup_insert_eq. eapply lookup_lt_Some, Hrr. }
    destruct (IH w1' _ Hr Hs Hrec Hrr1) as (A & B & C & D).
    assert (Hsnap : length (snapshot_heap w1') = S (length (snapshot_heap w))).
    { unfold w1'. cbn. rewrite length_app. simpl. lia. }
    assert (Hlen : len (Recording_items rr ++ [length (snapshot_heap w)]) +
                   Z.of_nat n = len (Recording_items rr) + Z.of_nat (S n)).
    { unfold len. rewrite length_app. simpl. lia. }
    cbn [Recording_items Recording_tick_interval set_items] in A, C, D.
    rewrite Hsnap in A, B. rewrite Hlen in C, D.
    split; [|split; [|split]].
    + rewrite A. unfold items', set_items. cbn. rewrite <- app_assoc. reflexivity.
    + rewrite B. lia.
    + exact C.
    + exact D.
Qed.

Lemma Recorder_ticks_append_witness :
  items_at (run_calls (Recorder_call demo_host 0%nat) (replicate 4 Rhandle_tick)
              restarted_world) 1%nat = [0; 1; 2; 3]%nat ∧
  outcome (Recording_duration 1%nat)
    (run_calls (Recorder_call demo_host 0%nat) (replicate 4 Rhandle_tick)
       restarted_world) =
    inr (PyFloat (SpecFloat.S754_finite false 8646911284551352 (-57))).
Proof.
  edestruct (Recorder_ticks_append demo_host 0%nat
               {| Recorder_player := 1; Recorder_state := RecorderState.RECORDING;
                  Recorder_recording := Some 1%nat |} 1%nat 4 restarted_world)
    as (E & _ & D & _); [reflexivity | reflexivity | reflexivity | reflexivity |].
  split.
  - unfold items_at. rewrite E. reflexivity.
  - unfold outcome. rewrite D. reflexivity.
Defined.

(** ** Recorder.start *)

(** X4.  [start] can be called in every state.  It binds the recorder to a
    new recording without snapshots, which carries the time, game, map and
    tick interval of the host at that moment and the name, SteamID and team
    of the recorded client, and leaves the recorder [RECORDING].  The
    recording the recorder had is discarded, not saved: the manager's list
    is as before, and that recording itself is not touched. *)
Theorem Recorder_start_discards (host : Host) (w : World) (self : addr)
    (r : Recorder) :
  recorder_heap w !! self = Some r →
  let new := length (recording_heap w) in
  let w' := world_after (Recorder_start host self) w in
  let player := Recorder_player r in
  outcome (Recorder_start host self) w = inr tt ∧
  recorder_heap w' !! self =
    Some {| Recorder_player := player;
            Recorder_state := RecorderState.RECORDING;
            Recorder_recording := Some new |} ∧
  recording_heap w' =
    recording_heap w ++
      [{| Recording_items := [];
          Recording_creation_time := time_time host (trace w);
          Recording_game := SOURCE_ENGINE_BRANCH host;
          Recording_map_name := global_vars_map_name host (trace w);
          Recording_tick_interval := server_tick_interval host (trace w);
          Recording_player :=
            {| PlayerData_name := sp_name host (trace w) player;
               PlayerData_steamid := sp_steamid host (trace w) player;
               PlayerData_team := sp_team host (trace w) player |} |}] ∧
  recording_mgr w' = recording_mgr w ∧
  snapshot_heap w' = snapshot_heap w ∧
  trace w' = trace w.
Proof.
  intros Hr new w' player.
  assert (Hlt : (self < length (recorder_heap w))%nat) by (eapply lookup_lt_Some, Hr).
  unfold w', outcome, world_after, Recorder_start.
  rewrite (bind_inr _ _ _ _ _ (deref_Some recorder_heap _ _ _ Hr)).
  unfold bind at 1 2 3 4 5 6. unfold Recording_init, ask, new_recording, bind.
  cbn [fst snd].
  unfold update_recorder, bind, deref_recorder, deref, modify. cbn.
  rewrite Hr. cbn. rewrite list_lookup_insert_eq by exact Hlt. cbn.
  rewrite list_insert_insert_eq, list_lookup_insert_eq by exact Hlt.
  repeat split.
Qed.

Lemma Recorder_start_discards_witness :
  recording_mgr (world_after (Recorder_start demo_host 0%nat) restarted_world) =
    recording_mgr restarted_world ∧
  recorder_heap (world_after (Recorder_start demo_host 0%nat) restarted_world)
    !! 0%nat =
    Some {| Recorder_player := 1; Recorder_state := RecorderState.RECORDING;
            Recorder_recording := Some 2%nat |}.
Proof.
  edestruct (Recorder_start_discards demo_host restarted_world 0%nat)
    as (_ & E & _ & M & _); [reflexivity|].
  split; [exact M|exact E].
Defined.

(** ** The tick listener: when it raises *)

Lemma Recorder_handle_tick_unstarted host w self r :
  recorder_heap w !! self = Some r →
  Recorder_state r = RecorderState.RECORDING →
  Recorder_recording r = None →
  Recorder_handle_tick host self w =
    (with_trace (fun t => t ++ [EnterRecorderTick self]) w, inl AttributeError).
Proof.
  intros Hr Hs Hrec. unfold Recorder_handle_tick.
  rewrite (bind_inr _ _ _ _ _ (log_run _ _)).
  run_deref recorder_heap Hr. now rewrite Hs, Hrec.
Qed.

Lemma Recorder_handle_tick_frame host a w :
  recorder_heap (fst (Recorder_handle_tick host a w)) = recorder_heap w ∧
  player_heap (fst (Recorder_handle_tick host a w)) = player_heap w.
Proof.
  unfold Recorder_handle_tick.
  rewrite (bind_inr _ _ _ _ _ (log_run _ _)).
  unfold bind, deref_recorder, deref. cbn [recorder_heap with_trace].
  destruct (recorder_heap w !! a) as [r|]; [|auto].
  destruct (negb _); [auto|].
  destruct (Recorder_recording r) as [rec|]; [|auto].
  unfold Recording_add_snapshot, Recording_create_snapshot, update_recording,
    new_snapshot, ask, modify, bind, deref_recording, deref.
  cbn. destruct (recording_heap w !! rec); cbn; auto.
Qed.

Lemma recorder_phase host rs : ∀ w,
  wf w → Forall (allocated (recorder_heap w)) rs →
  let res := for_each rs (Recorder_handle_tick host) w in
  wf (fst res) ∧ player_heap (fst res) = player_heap w ∧
  players (fst res) = players w ∧
  ((Forall (Recorder_started_at w) rs ∧ snd res = inr tt ∧
    trace (fst res) = trace w ++ map EnterRecorderTick rs)
   ∨
   (∃ pre a post,
      rs = pre ++ a :: post ∧ Forall (Recorder_started_at w) pre ∧
      ¬ Recorder_started_at w a ∧ snd res = inl AttributeError ∧
      trace (fst res) = trace w ++ map EnterRecorderTick (pre ++ [a]))).
Proof.
  induction rs as [|a rs IH]; intros w Hw Hall res.
  - unfold res. simpl. split; [exact Hw|]. split; [reflexivity|].
    split; [reflexivity|]. left. rewrite app_nil_r. auto.
  - inversion Hall as [|? ? [r Hr] Hall']; subst.
    pose proof (keeps_wf_Recorder_call host a Rhandle_tick w Hw) as Hw1.
    destruct (Recorder_handle_tick_frame host a w) as [Hrh Hph].
    destruct (Recorder_handle_tick_trace host a w) as (Ht & _ & Hpl).
    simpl in Hw1.
    assert (Hcase : (Recorder_started r ∧ snd (Recorder_handle_tick host a w) = inr tt)
                    ∨ (¬ Recorder_started r ∧
                       snd (Recorder_handle_tick host a w) = inl AttributeError)).
    { destruct (RecorderState.eqb (Recorder_state r) RecorderState.RECORDING) eqn:Es.
      - apply RecorderState_eqb_eq in Es.
        destruct (Recorder_recording r) as [rec|] eqn:Erec.
        + left. split; [intros _; rewrite Erec; discriminate|].
          destruct (wf_recorder_ok w a r Hw Hr rec Erec) as [rr Hrr].
          now rewrite (Recorder_handle_tick_recording host w a r rec rr Hr Es Erec Hrr).
        + right. split; [intros H; exact (H Es Erec)|].
          now rewrite (Recorder_handle_tick_unstarted host w a r Hr Es Erec).
      - left. assert (Hne : Recorder_state r ≠ RecorderState.RECORDING).
        { intros H. apply RecorderState_eqb_eq in H. congruence. }
        split; [intros H; contradiction|].
        now rewrite (Recorder_handle_tick_idle host w a r Hr Hne). }
    assert (Hat : Recorder_started_at w a ↔ Recorder_started r).
    { split; [intros H; now apply H|].
      intros H r' Hr'. pose proof (eq_trans (eq_sym Hr) Hr') as X.
      now injection X as <-. }
    unfold res. simpl. unfold bind.
    destruct (Recorder_handle_tick host a w) as [w1 [e|[]]];
      simpl in Hw1, Hrh, Hph, Ht, Hpl, Hcase.
    + simpl. split; [exact Hw1|]. split; [exact Hph|]. split; [exact Hpl|].
      right. exists [], a, rs.
      destruct Hcase as [[_ H]|[Hns H]]; [discriminate H|].
      injection H as ->. split; [reflexivity|]. split; [constructor|].
      split; [now rewrite Hat|]. split; [reflexivity|exact Ht].
    + destruct Hcase as [[Hst _]|[_ H]]; [|discriminate H].
      assert (Hall1 : Forall (allocated (recorder_heap w1)) rs) by now rewrite Hrh.
      destruct (IH w1 Hw1 Hall1) as (A & B & C & D).
      assert (Hsame : ∀ x, Recorder_started_at w1 x ↔ Recorder_started_at w x).
      { intros x. unfold Recorder_started_at. now rewrite Hrh. }
      split; [exact A|]. split; [congruence|]. split; [congruence|].
      destruct D as [(D1 & D2 & D3)|(pre & b & post & D1 & D2 & D3 & D4 & D5)].
      * left. split; [|split; [exact D2|]].
        -- constructor; [now apply Hat|].
           eapply Forall_impl; [exact D1|]. intros x. apply Hsame.
        -- rewrite D3, Ht, <- app_assoc. reflexivity.
      * right. exists (a :: pre), b, post. subst rs.
        split; [reflexivity|]. split; [|split; [|split; [exact D4|]]].
        -- constructor; [now apply Hat|].
           eapply Forall_impl; [exact D2|]. intros x. apply Hsame.
        -- intros H. apply D3. now apply Hsame.
        -- rewrite D5, Ht, <- app_assoc. reflexivity.
Qed.

Lemma Player_handle_tick_returns host a w :
  wf w → allocated (player_heap w) a →
  snd (Player_handle_tick host a w) = inr tt.
Proof.
  intros Hw [p Hp]. destruct (wf_player_ok w a p Hw Hp) as (r & Hr & Hin).
  destruct (PlayerState.eqb (Player_state p) PlayerState.PLAYING) eqn:Es.
  - apply PlayerState_eqb_eq in Es.
    destruct (lookup_lt_is_Some_2 (Recording_items r) (Z.to_nat (Player_tick p)))
      as [sa Hsa]; [unfold len in Hin; lia|].
    destruct (proj1 (Forall_lookup _ _) (wf_recording_ok w _ r Hw Hr) _ _ Hsa)
      as [s Hs].
    now rewrite (Player_handle_tick_playing host w a p r sa s Hp Es Hr
                   (py_getitem_in_range _ _ _ (proj1 Hin) Hsa) Hs).
  - rewrite (Player_handle_tick_idle host w a p Hp); [reflexivity|].
    intros H. apply PlayerState_eqb_eq in H. congruence.
Qed.

Lemma player_phase host ps : ∀ w,
  wf w → Forall (allocated (player_heap w)) ps →
  snd (for_each ps (Player_handle_tick host) w) = inr tt.
Proof.
  induction ps as [|a ps IH]; intros w Hw Hall; [reflexivity|].
  inversion Hall as [|? ? Ha Hall']; subst.
  pose proof (Player_handle_tick_returns host a w Hw Ha) as Hret.
  pose proof (keeps_wf_Player_call host a Phandle_tick w Hw) as Hw1.
  pose proof (persist_Player_call host a Phandle_tick w) as Hper.
  simpl in Hw1, Hper. simpl. unfold bind.
  destruct (Player_handle_tick host a w) as [w1 [e|[]]];
    simpl in Hret, Hw1, Hper; [discriminate Hret|].
  apply IH; [exact Hw1|].
  eapply Forall_impl; [exact Hall'|].
  intros b [q Hq]. destruct (Hper b q Hq) as (q' & Hq' & _). now exists q'.
Qed.

(** X5.  In a well-formed world the tick listener raises in one case only:
    a registered recorder is [RECORDING] without a recording, which is what
    [resume()] makes of a recorder that was never started.  The listener
    then raises [AttributeError] at the first such recorder in registry
    order; the recorders before it have captured, those behind it and all
    the players are skipped for this tick.  In every other case the
    listener returns: a player's [handle_tick] never raises there. *)
Theorem on_tick_raises_iff (host : Host) (w : World) :
  wf w →
  let rs := dict_values (recorders w) in
  let w' := world_after (on_tick host) w in
  (outcome (on_tick host) w = inr tt ↔ Forall (Recorder_started_at w) rs) ∧
  (∀ e, outcome (on_tick host) w = inl e →
     e = AttributeError ∧
     player_heap w' = player_heap w ∧
     ∃ pre a post,
       rs = pre ++ a :: post ∧
       Forall (Recorder_started_at w) pre ∧
       ¬ Recorder_started_at w a ∧
       trace w' = trace w ++ map EnterRecorderTick (pre ++ [a])).
Proof.
  intros Hw rs w'.
  destruct (recorder_phase host rs w Hw (wf_registered_recorders w Hw))
    as (Hw1 & Hph & Hpl & Hcase).
  assert (E0 : on_tick host w =
               match for_each rs (Recorder_handle_tick host) w with
               | (w1, inl e) => (w1, inl e)
               | (w1, inr _) =>
                   for_each (dict_values (players w1)) (Player_handle_tick host) w1
               end) by reflexivity.
  unfold w', outcome, world_after. rewrite E0. clear E0.
  destruct (for_each rs (Recorder_handle_tick host) w) as [w1 [e|[]]];
    simpl in Hw1, Hph, Hpl, Hcase.
  - destruct Hcase as [(_ & H & _)|(pre & a & post & E & Hpre & Ha & He & Ht)];
      [discriminate H|]. injection He as ->.
    split.
    + split; [discriminate|]. intros Hall. exfalso. apply Ha.
      eapply (proj1 (Forall_forall _ _) Hall). rewrite E.
      apply elem_of_app. right. left.
    + intros e [= <-]. split; [reflexivity|]. split; [exact Hph|].
      exists pre, a, post. auto.
  - pose proof (player_phase host (dict_values (players w1)) w1 Hw1
                  (wf_registered_players w1 Hw1)) as Hret.
    split.
    + split; [|intros _; exact Hret].
      intros _. destruct Hcase as [(H & _)|(pre & a & post & _ & _ & _ & H & _)];
        [exact H|discriminate H].
    + intros e He. rewrite Hret in He. discriminate He.
Qed.

Lemma on_tick_raises_iff_witness :
  outcome (on_tick demo_host)
    (run_calls (run_call demo_host)
       [call_get_recorder 1; call_Recorder 0%nat Rresume] empty_world) =
    inl AttributeError ∧
  outcome (on_tick demo_host) playing_world = inr tt.
Proof.
  split.
  - edestruct (on_tick_raises_iff demo_host
                 (run_calls (run_call demo_host)
                    [call_get_recorder 1; call_Recorder 0%nat Rresume] empty_world))
      as [_ H]; [apply wf_run_calls, wf_empty_world|].
    destruct (H AttributeError eq_refl) as [_ _]. reflexivity.
  - edestruct (on_tick_raises_iff demo_host playing_world) as [H _];
      [do 2 apply wf_run_calls; apply wf_empty_world|].
    apply H. repeat constructor. intros r [= <-]. intros H'. discriminate H'.
Defined.

(** ** Player: stop, resume, pause and start *)

Lemma moves_app t1 t2 : moves (t1 ++ t2) = moves t1 ++ moves t2.
Proof. unfold moves. apply omap_app. Qed.

Lemma teleports_app t1 t2 : teleports (t1 ++ t2) = (teleports t1 + teleports t2)%nat.
Proof. unfold teleports. now rewrite filter_app, length_app. Qed.

Lemma with_player_heap_id w self p :
  player_heap w !! self = Some p →
  with_player_heap (fun h => <[self := p]> h) w = w.
Proof.
  intros Hp. destruct w. unfold with_player_heap. cbn in *.
  now rewrite list_insert_id.
Qed.

(** X6.  [stop] jumps to the end without replaying anything: it returns,
    makes no call into the host, leaves the player [STOPPED] with
    [tick = len - 1] (which is [-1] on a recording without snapshots) and
    touches no other player.  Ticks that follow hand no command to the
    controller and change no player. *)
Theorem Player_stop_jumps (host : Host) (w : World) (self : addr) (p : Player)
    (r : Recording) :
  player_heap w !! self = Some p →
  recording_heap w !! Player_recording p = Some r →
  let w' := world_after (Player_stop self) w in
  outcome (Player_stop self) w = inr tt ∧
  trace w' = trace w ∧
  player_heap w' =
    <[self := set_Player_state PlayerState.STOPPED
                (set_Player_tick (len (Recording_items r) - 1) p)]> (player_heap w) ∧
  ∀ k, let w'' := run_calls (Player_call host self) (replicate k Phandle_tick) w' in
       player_heap w'' = player_heap w' ∧ moves (trace w'') = moves (trace w).
Proof.
  intros Hp Hr w'. unfold w', outcome, world_after.
  rewrite (Player_stop_unfold w self p r Hp Hr). cbn [fst snd].
  split; [reflexivity|]. split; [reflexivity|]. split; [reflexivity|].
  assert (Hlt : (self < length (player_heap w))%nat) by (eapply lookup_lt_Some, Hp).
  set (p' := set_Player_state PlayerState.STOPPED
               (set_Player_tick (len (Recording_items r) - 1) p)).
  set (w1 := with_player_heap (fun h => <[self := p']> h) w).
  assert (Hgen : ∀ k w0, player_heap w0 !! self = Some p' →
            let w'' := run_calls (Player_call host self) (replicate k Phandle_tick) w0 in
            player_heap w'' = player_heap w0 ∧ moves (trace w'') = moves (trace w0)).
  { induction k as [|k IH]; intros w0 Hp0; [split; reflexivity|].
    simpl. unfold world_after.
    rewrite (Player_handle_tick_idle host w0 self p' Hp0) by discriminate.
    cbn [fst]. destruct (IH (with_trace (fun t => t ++ [EnterPlayerTick self]) w0) Hp0)
      as [A B].
    split; [exact A|]. rewrite B. cbn. rewrite moves_app. cbn. apply app_nil_r. }
  intros k. apply (Hgen k w1). unfold w1. cbn. now apply list_lookup_insert_eq.
Qed.

Lemma Player_stop_jumps_witness :
  Player_tick_at (world_after (Player_stop 0%nat) playing_world) 0%nat = Some 2 ∧
  trace (world_after (Player_stop 0%nat) playing_world) = trace playing_world.
Proof.
  edestruct (Player_stop_jumps demo_host playing_world 0%nat)
    as (_ & T & H & _); [reflexivity | reflexivity |].
  split; [|exact T]. unfold Player_tick_at. rewrite H. reflexivity.
Defined.

(** X7.  [STOPPED] is not final for a player: [resume] is not guarded.  On
    a stopped player it returns and the player is [PLAYING] at the tick it
    stopped at.  On a recording with snapshots the next tick then hands the
    last snapshot's command to the controller once more and stops the
    player again; on a recording without snapshots, where [stop] has left
    [tick = -1], the next tick raises [IndexError]. *)
Theorem Player_resume_after_stop (host : Host) (w : World) (self : addr)
    (p : Player) (r : Recording) :
  player_heap w !! self = Some p →
  recording_heap w !! Player_recording p = Some r →
  let w1 := world_after (Player_resume self) (world_after (Player_stop self) w) in
  let w2 := world_after (Player_handle_tick host self) w1 in
  Player_state_at w1 self = Some PlayerState.PLAYING ∧
  Player_tick_at w1 self = Some (len (Recording_items r) - 1) ∧
  (Recording_items r = [] →
     outcome (Player_handle_tick host self) w1 = inl IndexError ∧
     player_heap w2 = player_heap w1) ∧
  (∀ sa s, last (Recording_items r) = Some sa →
           snapshot_heap w !! sa = Some s →
     outcome (Player_handle_tick host self) w1 = inr tt ∧
     moves (trace w2) = moves (trace w) ++ [(Player_controller p, Snapshot_bcmd s)] ∧
     Player_state_at w2 self = Some PlayerState.STOPPED ∧
     Player_tick_at w2 self = Some (len (Recording_items r) - 1)).
Proof.
  intros Hp Hr w1 w2.
  assert (Hlt : (self < length (player_heap w))%nat) by (eapply lookup_lt_Some, Hp).
  set (p1 := set_Player_state PlayerState.PLAYING
               (set_Player_state PlayerState.STOPPED
                  (set_Player_tick (len (Recording_items r) - 1) p))).
  assert (E1 : w1 = with_player_heap (fun h => <[self := p1]> h) w).
  { unfold w1, world_after. rewrite (Player_stop_unfold w self p r Hp Hr).
    cbn [fst]. unfold Player_resume.
    erewrite update_player_Some by (cbn; now apply list_lookup_insert_eq).
    unfold with_player_heap. cbn. now rewrite list_insert_insert_eq. }
  assert (Hp1 : player_heap w1 !! self = Some p1).
  { rewrite E1. cbn. now apply list_lookup_insert_eq. }
  assert (Hr1 : recording_heap w1 !! Player_recording p1 = Some r)
    by (rewrite E1; exact Hr).
  split; [unfold Player_state_at; now rewrite Hp1|].
  split; [unfold Player_tick_at; now rewrite Hp1|].
  split.
  - intros He. unfold w2, outcome, world_after.
    destruct (Player_handle_tick_raises host self w1 p1 Hp1 eq_refl) as [e E].
    + intros r0 sa s Hr0 Hget _.
      pose proof (eq_trans (eq_sym Hr1) Hr0) as X. injection X as <-.
      cbn in Hget. rewrite He in Hget. discriminate Hget.
    + assert (Ee : e = IndexError).
      { pose proof E as E'. unfold Player_handle_tick in E'.
        rewrite (bind_inr _ _ _ _ _ (log_run _ _)) in E'.
        revert E'. run_deref player_heap Hp1.
        change (negb _) with false. cbv iota.
        run_deref recording_heap Hr1. cbn [Player_tick p1 set_Player_state set_Player_tick].
        rewrite He. cbn. intros [= <-]. reflexivity. }
      rewrite E, Ee. cbn. auto.
  - intros sa s Hlast Hs.
    assert (Hne : (0 < length (Recording_items r))%nat).
    { destruct (Recording_items r); [discriminate Hlast|simpl; lia]. }
    assert (Hget : py_getitem (Recording_items r) (Player_tick p1) = inr sa).
    { apply py_getitem_in_range; cbn; unfold len; [lia|].
      rewrite last_lookup in Hlast. rewrite <- Hlast. f_equal. lia. }
    assert (Hs1 : snapshot_heap w1 !! sa = Some s) by (rewrite E1; exact Hs).
    unfold w2, outcome, world_after, Player_state_at, Player_tick_at.
    rewrite (Player_handle_tick_playing host w1 self p1 r sa s Hp1 eq_refl Hr1 Hget Hs1).
    cbn [fst snd]. cbn [Player_tick p1 set_Player_state set_Player_tick].
    rewrite Z.ltb_irrefl.
    split; [reflexivity|]. split; [|split].
    + cbn [trace with_player_heap with_trace].
      assert (Ht : trace w1 = trace w) by (now rewrite E1).
      match goal with
      | |- context [if ?c then _ else _] => destruct c
      end; rewrite !moves_app, Ht; cbn; now rewrite ?app_nil_r.
    + cbn. rewrite list_lookup_insert_eq; [reflexivity|].
      rewrite E1. cbn. now rewrite length_insert.
    + cbn. rewrite list_lookup_insert_eq; [reflexivity|].
      rewrite E1. cbn. now rewrite length_insert.
Qed.

Lemma Player_resume_after_stop_witness :
  Player_state_at
    (run_calls (Player_call demo_host 0%nat) [Pstop; Presume; Phandle_tick]
       playing_world) 0%nat = Some PlayerState.STOPPED.
Proof.
  edestruct (Player_resume_after_stop demo_host playing_world 0%nat)
    as (_ & _ & _ & H); [reflexivity | reflexivity |].
  edestruct (H 2%nat) as (_ & _ & S & _); [reflexivity | reflexivity |].
  exact S.
Defined.

(** X8.  [start] restarts a player from every state and tick: it returns,
    puts the bot into the recorded team, respawns it and leaves the player
    [PLAYING] at tick 0.  On a recording with snapshots the tick that
    follows hands the first snapshot's command to the controller and
    teleports the bot to the first snapshot, whatever [adjust] is and
    wherever the bot stands. *)
Theorem Player_start_restarts (host : Host) (w : World) (self : addr) (p : Player)
    (r : Recording) :
  player_heap w !! self = Some p →
  recording_heap w !! Player_recording p = Some r →
  let bot := Player_replay_bot p in
  let w1 := world_after (Player_start self) w in
  let w2 := world_after (Player_handle_tick host self) w1 in
  outcome (Player_start self) w = inr tt ∧
  trace w1 = trace w ++ [SetTeam bot (PlayerData_team (Recording_player r));
                         Spawn bot true] ∧
  player_heap w1 =
    <[self := set_Player_state PlayerState.PLAYING (set_Player_tick 0 p)]>
      (player_heap w) ∧
  (∀ sa s, Recording_items r !! 0%nat = Some sa →
           snapshot_heap w !! sa = Some s →
     outcome (Player_handle_tick host self) w1 = inr tt ∧
     trace w2 = trace w1 ++ [EnterPlayerTick self;
                             RunPlayerMove (Player_controller p) (Snapshot_bcmd s);
                             Teleport bot (Snapshot_origin s) (Snapshot_angle s)
                               (Snapshot_velocity s)]).
Proof.
  intros Hp Hr bot w1 w2.
  assert (Hlt : (self < length (player_heap w))%nat) by (eapply lookup_lt_Some, Hp).
  unfold w2, w1, outcome, world_after.
  rewrite (Player_start_unfold w self p r Hp Hr). cbn [fst snd].
  split; [reflexivity|]. split; [reflexivity|]. split; [reflexivity|].
  intros sa s Hsa Hs.
  set (p1 := set_Player_state PlayerState.PLAYING (set_Player_tick 0 p)).
  match goal with
  | |- context [Player_handle_tick host self ?w0] => set (w0' := w0)
  end.
  assert (Hp1 : player_heap w0' !! self = Some p1)
    by (unfold w0'; cbn; now apply list_lookup_insert_eq).
  rewrite (Player_handle_tick_playing host w0' self p1 r sa s Hp1 eq_refl Hr
             (py_getitem_in_range _ _ _ (Z.le_refl 0) Hsa) Hs).
  cbn [fst snd Player_tick p1 set_Player_state set_Player_tick].
  split; [reflexivity|]. cbn. rewrite <- !app_assoc. reflexivity.
Qed.

Lemma Player_start_restarts_witness :
  Player_tick_at (world_after (Player_start 0%nat) ticked_world) 0%nat = Some 0 ∧
  outcome (Player_handle_tick (distance_host 0) 0%nat)
    (world_after (Player_start 0%nat) ticked_world) = inr tt.
Proof.
  edestruct (Player_start_restarts (distance_host 0) ticked_world 0%nat)
    as (_ & _ & H & T); [reflexivity | reflexivity |].
  split.
  - unfold Player_tick_at. rewrite H. reflexivity.
  - edestruct (T 0%nat) as [T' _]; [reflexivity | reflexivity |]. exact T'.
Defined.

(** X9.  [pause] freezes a playing player: the ticks that follow while it
    is paused hand no command to the controller, and after [resume] the
    player is exactly as it was before [pause], at the same tick. *)
Theorem Player_pause_freezes (host : Host) (w : World) (self : addr) (p : Player)
    (k : nat) :
  player_heap w !! self = Some p →
  Player_state p = PlayerState.PLAYING →
  let paused := run_calls (Player_call host self)
                  (Ppause :: replicate k Phandle_tick) w in
  let w' := world_after (Player_resume self) paused in
  Player_state_at paused self = Some PlayerState.PAUSED ∧
  Player_tick_at paused self = Some (Player_tick p) ∧
  moves (trace paused) = moves (trace w) ∧
  outcome (Player_resume self) paused = inr tt ∧
  player_heap w' = player_heap w ∧
  moves (trace w') = moves (trace w).
Proof.
  intros Hp Hs paused w'.
  assert (Hlt : (self < length (player_heap w))%nat) by (eapply lookup_lt_Some, Hp).
  set (p1 := set_Player_state PlayerState.PAUSED p).
  set (w1 := with_player_heap (fun h => <[self := p1]> h) w).
  assert (Hp1 : player_heap w1 !! self = Some p1)
    by (unfold w1; cbn; now apply list_lookup_insert_eq).
  assert (Hgen : ∀ k w0, player_heap w0 !! self = Some p1 →
            let w'' := run_calls (Player_call host self) (replicate k Phandle_tick) w0 in
            player_heap w'' = player_heap w0 ∧ moves (trace w'') = moves (trace w0)).
  { clear k paused w'. induction k as [|k IH]; intros w0 Hp0; [split; reflexivity|].
    simpl. unfold world_after.
    rewrite (Player_handle_tick_idle host w0 self p1 Hp0) by discriminate.
    cbn [fst]. destruct (IH (with_trace (fun t => t ++ [EnterPlayerTick self]) w0) Hp0)
      as [A B].
    split; [exact A|]. rewrite B. cbn. rewrite moves_app. cbn. apply app_nil_r. }
  assert (Epaused : paused =
            run_calls (Player_call host self) (replicate k Phandle_tick) w1).
  { unfold paused. simpl. unfold world_after, Player_pause.
    now rewrite (update_player_Some _ _ _ _ Hp). }
  destruct (Hgen k w1 Hp1) as [A B]. rewrite <- Epaused in A, B.
  assert (Hpp : player_heap paused !! self = Some p1) by (rewrite A; exact Hp1).
  assert (Eres : Player_resume self paused =
                 (with_player_heap
                    (fun h => <[self := set_Player_state PlayerState.PLAYING p1]> h)
                    paused, inr tt))
    by (unfold Player_resume; now apply update_player_Some).
  unfold Player_state_at, Player_tick_at, w', outcome, world_after.
  clear Epaused. clearbody paused.
  rewrite Hpp, Eres. cbn [fst snd].
  split; [reflexivity|]. split; [reflexivity|]. split; [exact B|].
  split; [reflexivity|]. split; [|exact B].
  assert (Epp : set_Player_state PlayerState.PLAYING p1 = p)
    by (destruct p; cbn in *; now subst).
  cbn. rewrite A, Epp. unfold w1. cbn. rewrite list_insert_insert_eq.
  now apply list_insert_id.
Qed.

Lemma Player_pause_freezes_witness :
  player_heap
    (run_calls (Player_call demo_host 0%nat)
       [Ppause; Phandle_tick; Phandle_tick; Presume] ticked_world) =
    player_heap ticked_world.
Proof.
  edestruct (Player_pause_freezes demo_host ticked_world 0%nat
               {| Player_tick := 1; Player_recording := 0%nat;
                  Player_state := PlayerState.PLAYING; Player_controller := 103;
                  Player_replay_bot := 13; Player_adjust := true |} 2)
    as (_ & _ & _ & _ & H & _); [reflexivity | reflexivity |].
  exact H.
Defined.

(** ** Player: a whole playback *)

Lemma teleports_enter_move a c b :
  teleports [EnterPlayerTick a; RunPlayerMove c b] = 0%nat.
Proof. reflexivity. Qed.

Lemma teleports_one b o a v : teleports [Teleport b o a v] = 1%nat.
Proof. reflexivity. Qed.

Lemma Player_ticks_moves host self r d : ∀ w p snaps,
  player_heap w !! self = Some p →
  Player_state p = PlayerState.PLAYING →
  recording_heap w !! Player_recording p = Some r →
  0 ≤ Player_tick p →
  Player_tick p + Z.of_nat d = len (Recording_items r) - 1 →
  Forall2 (fun sa s => snapshot_heap w !! sa = Some s)
    (drop (Z.to_nat (Player_tick p)) (Recording_items r)) snaps →
  let w' := run_calls (Player_call host self) (replicate (S d) Phandle_tick) w in
  moves (trace w') =
    moves (trace w) ++ map (fun s => (Player_controller p, Snapshot_bcmd s)) snaps ∧
  (Player_adjust p = false →
     teleports (trace w') =
       (teleports (trace w) + (if (Player_tick p =? 0)%Z then 1 else 0))%nat).
Proof.
  induction d as [|d IH]; intros w p snaps Hp Hs Hr H0 Hd Hsnaps w';
    assert (Hlt : (self < length (player_heap w))%nat)
      by (eapply lookup_lt_Some, Hp);
    destruct (lookup_lt_is_Some_2 (Recording_items r) (Z.to_nat (Player_tick p)))
      as [sa Hsa]; try (unfold len in Hd; lia);
    rewrite (drop_S _ _ _ Hsa) in Hsnaps;
    inversion Hsnaps as [|? s ? snaps' Hsn Hrest]; subst;
    pose proof (Player_handle_tick_playing host w self p r sa s Hp Hs Hr
                  (py_getitem_in_range _ _ _ H0 Hsa) Hsn) as E;
    cbv zeta in E;
    match goal with
    | w0 := run_calls _ (replicate (S ?d0) _) _ |- _ =>
        assert (Ew : w0 = run_calls (Player_call host self)
                            (replicate d0 Phandle_tick)
                            (fst (Player_handle_tick host self w))) by reflexivity
    end;
    rewrite E in Ew; cbn [fst] in Ew; clearbody w'; subst w'.
  - rewrite drop_ge in Hrest by (unfold len in Hd; lia).
    inversion Hrest; subst.
    cbn [run_calls replicate trace with_player_heap with_trace map].
    split.
    + destruct (_ || _); rewrite !moves_app; cbn; now rewrite ?app_nil_r.
    + intros Ha. rewrite Ha. cbn [andb]. rewrite orb_false_r.
      destruct (Player_tick p =? 0); cbn [orb];
        rewrite !teleports_app, ?teleports_enter_move, ?teleports_one; lia.
  - replace (Player_tick p <? len (Recording_items r) - 1) with true
      by (symmetry; apply Z.ltb_lt; lia).
    match goal with
    | |- context [run_calls _ _ ?w1] => set (w1' := w1)
    end.
    set (p1 := set_Player_tick (Player_tick p + 1) p).
    assert (Hp1 : player_heap w1' !! self = Some p1)
      by (unfold w1'; cbn; now apply list_lookup_insert_eq).
    assert (Hnat : Z.to_nat (Player_tick p1) = S (Z.to_nat (Player_tick p)))
      by (cbn; lia).
    destruct (IH w1' p1 snaps' Hp1 Hs Hr) as [A B].
    + cbn. lia.
    + cbn. lia.
    + rewrite Hnat. exact Hrest.
    + assert (Ht : moves (trace w1') =
                   moves (trace w) ++ [(Player_controller p, Snapshot_bcmd s)]).
      { unfold w1'. cbn [trace with_player_heap with_trace].
        destruct (_ || _); rewrite !moves_app; cbn; now rewrite ?app_nil_r. }
      split.
      * rewrite A, Ht, <- app_assoc. reflexivity.
      * intros Ha. rewrite (B Ha).
        replace (Player_tick p1 =? 0) with false
          by (symmetry; apply Z.eqb_neq; cbn; lia).
        unfold w1'. cbn [trace with_player_heap with_trace].
        rewrite Ha. cbn [andb]. rewrite orb_false_r.
        destruct (Player_tick p =? 0); cbn [orb];
        rewrite !teleports_app, ?teleports_enter_move, ?teleports_one; lia.
Qed.

(** X10.  A playback replays the recording: from a playing player at tick
    [t] (in range), the [len - t] ticks up to the end hand to the player's
    controller exactly the commands of the snapshots [t], [t + 1], ...,
    [len - 1], in this order, each once.  Without [adjust] the bot is
    teleported only on tick 0: once if the playback starts there, never
    otherwise. *)
Theorem Player_replays_recording (host : Host) (w : World) (self : addr)
    (p : Player) (r : Recording) (snaps : list Snapshot) :
  player_heap w !! self = Some p →
  Player_state p = PlayerState.PLAYING →
  recording_heap w !! Player_recording p = Some r →
  0 ≤ Player_tick p < len (Recording_items r) →
  Forall2 (fun sa s => snapshot_heap w !! sa = Some s)
    (drop (Z.to_nat (Player_tick p)) (Recording_items r)) snaps →
  let remaining := Z.to_nat (len (Recording_items r) - Player_tick p) in
  let w' := run_calls (Player_call host self) (replicate remaining Phandle_tick) w in
  moves (trace w') =
    moves (trace w) ++ map (fun s => (Player_controller p, Snapshot_bcmd s)) snaps ∧
  (Player_adjust p = false →
     teleports (trace w') =
       (teleports (trace w) + (if (Player_tick p =? 0)%Z then 1 else 0))%nat).
Proof.
  intros Hp Hs Hr Hin Hsnaps remaining w'.
  assert (Hrem : remaining =
                 S (Z.to_nat (len (Recording_items r) - 1 - Player_tick p)))
    by (unfold remaining; lia).
  unfold w'. rewrite Hrem.
  apply (Player_ticks_moves host self r _ w p snaps Hp Hs Hr (proj1 Hin));
    [lia|exact Hsnaps].
Qed.

Lemma Player_replays_recording_witness :
  length (moves (trace (run_calls (Player_call demo_host 0%nat)
                          (replicate 3 Phandle_tick) playing_world))) = 3%nat.
Proof.
  edestruct (Player_replays_recording demo_host playing_world 0%nat) as [H _];
    [reflexivity | reflexivity | reflexivity | | |].
  - vm_compute. split; [discriminate|reflexivity].
  - change (drop _ _) with [0; 1; 2]%nat.
    repeat (eapply Forall2_cons_2; [reflexivity|]). apply Forall2_nil_2.
  - exact (f_equal length H).
Defined.

(** ** RecordingManager.create_player and get_player *)

(** X11.  When the host does not supply what [create_player] needs for a
    playable recording, no player comes into being.  If the host creates
    no bot, [create_player] raises
    [ValueError('Failed to create a replay bot.')]; if it creates the bot
    but has no controller for it, [create_player] raises
    [ValueError('Failed to get the bot controller.')].  Either way the
    only change is the record of the requests made: no player is allocated
    or registered, and in the second case nothing more is asked of the host
    about the bot it has created. *)
Theorem create_player_host_failures (host : Host) (w : World) (rec : addr)
    (r : Recording) (name : option string) (adjust : bool) :
  recording_heap w !! rec = Some r →
  Recording_items r ≠ [] →
  let bot_name := bot_name_for r name in
  (bot_manager_create_bot host (trace w) bot_name = None →
     create_player host rec name adjust w =
       (with_trace (fun t => t ++ [CreateBot bot_name None]) w,
        inl (ValueError "Failed to create a replay bot."))) ∧
  (∀ edict,
     bot_manager_create_bot host (trace w) bot_name = Some edict →
     bot_manager_get_bot_controller host
       (trace w ++ [CreateBot bot_name (Some edict)]) edict = None →
     create_player host rec name adjust w =
       (with_trace
          (fun t => t ++ [CreateBot bot_name (Some edict);
                          GetBotController edict None]) w,
        inl (ValueError "Failed to get the bot controller."))).
Proof.
  intros Hr Hne bot_name.
  pose proof (create_player_unfold host w rec r name adjust Hr Hne) as E.
  cbv zeta in E. fold (bot_name_for r name) in E. fold bot_name in E.
  split.
  - intros Hb. now rewrite E, Hb.
  - intros edict Hb Hc. now rewrite E, Hb, Hc.
Qed.

Lemma create_player_host_failures_witness :
  outcome (create_player no_bot_host 0%nat None true) recorded_world =
    inl (ValueError "Failed to create a replay bot.") ∧
  outcome (create_player no_controller_host 0%nat None true) recorded_world =
    inl (ValueError "Failed to get the bot controller.").
Proof.
  split.
  - destruct (create_player_host_failures no_bot_host recorded_world 0%nat
                demo_recording None true) as [H _];
      [reflexivity | discriminate |].
    unfold outcome. rewrite H; reflexivity.
  - destruct (create_player_host_failures no_controller_host recorded_world 0%nat
                demo_recording None true) as [_ H];
      [reflexivity | discriminate |].
    unfold outcome. rewrite (H 103); reflexivity.
Defined.

(** X12.  A player that [create_player] returns is found in the registry
    under its bot's index, and every other index maps to what it mapped to
    before.  If the index was registered already, the player that was
    there is replaced in place and the registry keeps its keys; otherwise
    the index is added behind the others.  The keys stay distinct. *)
Theorem create_player_registers (host : Host) (w : World) (rec : addr)
    (r : Recording) (name : option string) (adjust : bool) (edict : Edict)
    (c : Controller) :
  recording_heap w !! rec = Some r →
  Recording_items r ≠ [] →
  let bot_name := bot_name_for r name in
  bot_manager_create_bot host (trace w) bot_name = Some edict →
  bot_manager_get_bot_controller host
    (trace w ++ [CreateBot bot_name (Some edict)]) edict = Some c →
  let index := index_from_edict host edict in
  let new := length (player_heap w) in
  let w' := world_after (create_player host rec name adjust) w in
  outcome (create_player host rec name adjust) w = inr new ∧
  dict_get index (players w') = Some new ∧
  (∀ k, k ≠ index → dict_get k (players w') = dict_get k (players w)) ∧
  (index ∈ dict_keys (players w) → dict_keys (players w') = dict_keys (players w)) ∧
  (index ∉ dict_keys (players w) →
     dict_keys (players w') = dict_keys (players w) ++ [index]) ∧
  (NoDup (dict_keys (players w)) → NoDup (dict_keys (players w'))).
Proof.
  intros Hr Hne bot_name Hb Hc index new w'.
  unfold w', outcome, world_after.
  rewrite (create_player_new host w rec r name adjust edict c Hr Hne Hb Hc).
  cbn [fst snd players with_players with_player_heap with_trace]. fold index new.
  split; [reflexivity|]. split; [apply dict_get_setitem_eq|].
  split; [intros k Hk; apply dict_get_setitem_ne; congruence|].
  split; [|split].
  - intros Hin. rewrite dict_keys_setitem.
    destruct (decide (index ∈ dict_keys (players w))); [reflexivity|].
    contradiction.
  - intros Hnin. rewrite dict_keys_setitem.
    destruct (decide (index ∈ dict_keys (players w))); [|reflexivity].
    contradiction.
  - intros Hnd. now apply dict_setitem_NoDup.
Qed.

Lemma create_player_registers_witness :
  dict_get 17 (players (world_after (create_player demo_host 0%nat None false)
                          playing_world)) = Some 1%nat ∧
  dict_get 13 (players (world_after (create_player demo_host 0%nat None false)
                          playing_world)) = Some 0%nat.
Proof.
  destruct (create_player_registers demo_host playing_world 0%nat demo_recording
              None false 107 107) as (_ & H1 & H2 & _);
    [reflexivity | discriminate | reflexivity | reflexivity |].
  split; [exact H1|]. rewrite (H2 13); [reflexivity|discriminate].
Defined.

(** X13.  When no registered player is bound to the recording,
    [get_player] is [create_player] with [adjust] set: the same player or
    the same exception, and the same world. *)
Theorem get_player_creates (host : Host) (w : World) (rec : addr)
    (name : option string) :
  Forall (bound_elsewhere w rec) (dict_values (players w)) →
  get_player host rec name w = create_player host rec name true w.
Proof.
  intros Hnone. unfold get_player.
  rewrite (bind_inr _ _ w w (dict_values (players w)) eq_refl). cbv beta.
  now rewrite (bind_inr _ _ _ _ _ (find_player_none w rec _ Hnone)).
Qed.

Lemma get_player_creates_witness :
  get_player demo_host 0%nat None recorded_world =
    create_player demo_host 0%nat None true recorded_world.
Proof. apply get_player_creates. constructor. Defined.

(** ** Recording.play *)

(** X14.  [play] on a recording that a registered player is bound to
    restarts that player: it returns the first such player, asks the host
    for no bot, and leaves the player [PLAYING] at tick 0 after putting
    the bot into the recorded team and respawning it.  The registry is as
    before. *)
Theorem Recording_play_restarts (host : Host) (w : World) (rec : addr)
    (name : option string) (pre post : list (Z * addr)) (k : Z) (pa : addr)
    (p : Player) (r : Recording) :
  players w = pre ++ (k, pa) :: post →
  Forall (bound_elsewhere w rec) (dict_values pre) →
  player_heap w !! pa = Some p →
  Player_recording p = rec →
  recording_heap w !! rec = Some r →
  let w' := world_after (Recording_play host rec name) w in
  outcome (Recording_play host rec name) w = inr pa ∧
  player_heap w' =
    <[pa := set_Player_state PlayerState.PLAYING (set_Player_tick 0 p)]>
      (player_heap w) ∧
  players w' = players w ∧
  trace w' = trace w ++ [SetTeam (Player_replay_bot p)
                           (PlayerData_team (Recording_player r));
                         Spawn (Player_replay_bot p) true].
Proof.
  intros Hreg Hpre Hp Hrec Hr w'.
  assert (Hget : get_player host rec name w = (w, inr pa)).
  { unfold get_player.
    rewrite (bind_inr _ _ w w (dict_values (players w)) eq_refl). cbv beta.
    rewrite Hreg. unfold dict_values at 1. rewrite map_app. simpl map.
    now rewrite (bind_inr _ _ _ _ _ (find_player_first w rec _ pa _ p Hpre Hp Hrec)). }
  assert (Hr' : recording_heap w !! Player_recording p = Some r) by now rewrite Hrec.
  unfold w', outcome, world_after, Recording_play.
  rewrite (bind_inr _ _ _ _ _ Hget). cbv beta.
  rewrite (bind_inr _ _ _ _ _ (Player_start_unfold w pa p r Hp Hr')).
  cbn. auto.
Qed.

Lemma Recording_play_restarts_witness :
  outcome (Recording_play demo_host 0%nat None) ticked_world = inr 0%nat ∧
  Player_tick_at (world_after (Recording_play demo_host 0%nat None) ticked_world)
    0%nat = Some 0.
Proof.
  edestruct (Recording_play_restarts demo_host ticked_world 0%nat None [] [] 13 0%nat)
    as (H1 & H2 & _);
    [reflexivity | constructor | reflexivity | reflexivity | reflexivity |].
  split; [exact H1|]. unfold Player_tick_at. rewrite H2. reflexivity.
Defined.



(** ** RecordingManager.remove_player and remove_recorder *)

Lemma remove_player_found w index pa p r :
  dict_get index (players w) = Some pa →
  player_heap w !! pa = Some p →
  recording_heap w !! Player_recording p = Some r →
  remove_player index w =
    (with_players (dict_delitem index)
       (with_player_heap
          (fun h => <[pa := set_Player_state PlayerState.STOPPED
                              (set_Player_tick (len (Recording_items r) - 1) p)]> h)
          w),
     inr tt).
Proof.
  intros Hd Hp Hr. unfold remove_player.
  rewrite (bind_inr _ _ w w (players w) eq_refl). cbv beta. rewrite Hd.
  now rewrite (bind_inr _ _ _ _ _ (Player_stop_unfold w pa p r Hp Hr)).
Qed.

(** X16.  [remove_player] on an index that is not registered does
    nothing and does not raise.  On a registered index it stops the player
    (the cursor jumps to the last snapshot) and takes the index out of the
    registry: the index is then free and every other index maps to what it
    mapped to before.  The player object itself is not taken apart here;
    what its destructor does is up to the garbage collector. *)
Theorem remove_player_spec (w : World) (index : Z) :
  (dict_get index (players w) = None → remove_player index w = (w, inr tt)) ∧
  (∀ pa p r,
     dict_get index (players w) = Some pa →
     player_heap w !! pa = Some p →
     recording_heap w !! Player_recording p = Some r →
     let w' := world_after (remove_player index) w in
     outcome (remove_player index) w = inr tt ∧
     player_heap w' =
       <[pa := set_Player_state PlayerState.STOPPED
                 (set_Player_tick (len (Recording_items r) - 1) p)]>
         (player_heap w) ∧
     (NoDup (dict_keys (players w)) → dict_get index (players w') = None) ∧
     (∀ k, k ≠ index → dict_get k (players w') = dict_get k (players w))).
Proof.
  split.
  - intros Hn. unfold remove_player.
    rewrite (bind_inr _ _ w w (players w) eq_refl). cbv beta. now rewrite Hn.
  - intros pa p r Hd Hp Hr w'. unfold w', outcome, world_after.
    rewrite (remove_player_found w index pa p r Hd Hp Hr). cbn.
    split; [reflexivity|]. split; [reflexivity|]. split.
    + apply dict_get_delitem_eq.
    + intros k Hk. apply dict_get_delitem_ne. congruence.
Qed.

Lemma remove_player_spec_witness :
  remove_player 5 playing_world = (playing_world, inr tt) ∧
  players (world_after (remove_player 13) playing_world) = [].
Proof.
  destruct (remove_player_spec playing_world 5) as [H1 _].
  split; [apply H1; reflexivity|].
  destruct (remove_player_spec playing_world 13) as [_ H2].
  destruct (H2 0%nat demo_player demo_recording) as (_ & _ & H & _);
    [reflexivity | reflexivity | reflexivity |].
  reflexivity.
Defined.

Lemma remove_recorder_found w index save ra r :
  dict_get index (recorders w) = Some ra →
  recorder_heap w !! ra = Some r →
  Forall (allocated (recording_heap w)) (recording_mgr w) →
  Recorder_ok w r →
  let w1 := with_recorder_heap
              (fun h => <[ra := set_Recorder_state RecorderState.STOPPED r]> h) w in
  remove_recorder index save w =
    (with_recorders (dict_delitem index)
       match Recorder_recording r with
       | Some rec =>
           if save && negb (present w (recording_mgr w) rec)
           then with_recording_mgr (fun l => l ++ [rec]) w1
           else w1
       | None => w1
       end,
     inr tt).
Proof.
  intros Hd Hr Hmgr Hok w1. unfold remove_recorder.
  rewrite (bind_inr _ _ w w (recorders w) eq_refl). cbv beta. rewrite Hd.
  now rewrite (bind_inr _ _ _ _ _ (Recorder_stop_exact w ra r save Hr Hmgr Hok)).
Qed.

(** X17.  [remove_recorder] on an index that is not registered does
    nothing and does not raise.  On a registered index it stops the
    recorder as [stop(save)] does, so that with [save] the recording in
    progress is saved unless [in] finds it in the manager's list, and takes
    the index out of the registry.  Recording for that index again means a
    new recorder: [get_recorder] then allocates one, paused and without a
    recording, and the stopped one stays stopped. *)
Theorem remove_recorder_spec (w : World) (index : Z) (save : bool) :
  (dict_get index (recorders w) = None →
     remove_recorder index save w = (w, inr tt)) ∧
  (∀ ra r,
     dict_get index (recorders w) = Some ra →
     recorder_heap w !! ra = Some r →
     Forall (allocated (recording_heap w)) (recording_mgr w) →
     Recorder_ok w r →
     NoDup (dict_keys (recorders w)) →
     let w' := world_after (remove_recorder index save) w in
     let w'' := world_after (get_recorder index) w' in
     outcome (remove_recorder index save) w = inr tt ∧
     Recorder_state_at w' ra = Some RecorderState.STOPPED ∧
     recording_mgr w' =
       match Recorder_recording r with
       | Some rec =>
           if save && negb (present w (recording_mgr w) rec)
           then recording_mgr w ++ [rec]
           else recording_mgr w
       | None => recording_mgr w
       end ∧
     dict_get index (recorders w') = None ∧
     (∀ k, k ≠ index → dict_get k (recorders w') = dict_get k (recorders w)) ∧
     outcome (get_recorder index) w' = inr (length (recorder_heap w)) ∧
     recorder_heap w'' !! length (recorder_heap w) =
       Some {| Recorder_player := index; Recorder_state := RecorderState.PAUSED;
               Recorder_recording := None |} ∧
     Recorder_state_at w'' ra = Some RecorderState.STOPPED).
Proof.
  split.
  - intros Hn. unfold remove_recorder.
    rewrite (bind_inr _ _ w w (recorders w) eq_refl). cbv beta. now rewrite Hn.
  - intros ra r Hd Hr Hmgr Hok Hnd w' w''.
    assert (Hlt : (ra < length (recorder_heap w))%nat) by (eapply lookup_lt_Some, Hr).
    pose proof (remove_recorder_found w index save ra r Hd Hr Hmgr Hok) as E.
    cbv zeta in E.
    assert (Hheap : recorder_heap w' =
                    <[ra := set_Recorder_state RecorderState.STOPPED r]> (recorder_heap w)).
    { unfold w', world_after. rewrite E. cbn.
      destruct (Recorder_recording r) as [rec|]; [|reflexivity].
      destruct (save && negb _); reflexivity. }
    assert (Hrecs : recorders w' = dict_delitem index (recorders w)).
    { unfold w', world_after. rewrite E. cbn.
      destruct (Recorder_recording r) as [rec|]; [|reflexivity].
      destruct (save && negb _); reflexivity. }
    assert (Hnone : dict_get index (recorders w') = None)
      by (rewrite Hrecs; now apply dict_get_delitem_eq).
    assert (Hnew : get_recorder index w' =
              (with_recorders (dict_setitem index (length (recorder_heap w')))
                 (with_recorder_heap
                    (fun h => h ++ [{| Recorder_player := index;
                                       Recorder_state := RecorderState.PAUSED;
                                       Recorder_recording := None |}]) w'),
               inr (length (recorder_heap w')))).
    { unfold get_recorder.
      rewrite (bind_inr _ _ w' w' (recorders w') eq_refl). cbv beta.
      now rewrite Hnone. }
    assert (Hlen : length (recorder_heap w') = length (recorder_heap w))
      by (rewrite Hheap; apply length_insert).
    split; [unfold outcome; now rewrite E|].
    split; [unfold Recorder_state_at; rewrite Hheap;
            now rewrite list_lookup_insert_eq by exact Hlt|].
    split.
    { unfold w', world_after. rewrite E. cbn.
      destruct (Recorder_recording r) as [rec|]; [|reflexivity].
      destruct (save && negb _); reflexivity. }
    split; [exact Hnone|].
    split; [intros k Hk; rewrite Hrecs; apply dict_get_delitem_ne; congruence|].
    unfold w'', outcome, world_after. rewrite Hnew. cbn [fst snd].
    split; [now rewrite Hlen|]. split.
    + cbn. rewrite <- Hlen. rewrite lookup_app_r by lia. now rewrite Nat.sub_diag.
    + unfold Recorder_state_at. cbn. rewrite Hheap.
      rewrite lookup_app_l by (rewrite length_insert; exact Hlt).
      now rewrite list_lookup_insert_eq by exact Hlt.
Qed.

Lemma remove_recorder_spec_witness :
  remove_recorder 7 true restarted_world = (restarted_world, inr tt) ∧
  outcome (get_recorder 1) (world_after (remove_recorder 1 false) restarted_world) =
    inr 1%nat.
Proof.
  destruct (remove_recorder_spec restarted_world 7 true) as [H1 _].
  split; [apply H1; reflexivity|].
  destruct (remove_recorder_spec restarted_world 1 false) as [_ H2].
  edestruct (H2 0%nat) as (_ & _ & _ & _ & _ & H & _);
    [reflexivity | reflexivity | | | | exact H].
  - repeat constructor. eexists; reflexivity.
  - intros rec [= <-]. eexists; reflexivity.
  - repeat constructor. intros H. inversion H.
Defined.

(** ** Recording.remove *)

Lemma list_remove_absent w l x :
  Forall (allocated (recording_heap w)) l → allocated (recording_heap w) x →
  present w l x = false →
  list_remove l x w = (w, inr None).
Proof.
  intros Hl Hx. induction Hl as [|e l He Hl IH]; [reflexivity|].
  simpl. intros Hp. apply orb_false_iff in Hp as [Hp1 Hp2].
  rewrite (bind_inr _ _ _ _ _ (Recording_eq_allocated w e x He Hx)). cbv beta.
  rewrite Hp1. now rewrite (bind_inr _ _ _ _ _ (IH Hp2)).
Qed.

Lemma list_remove_first w pre e post x :
  Forall (allocated (recording_heap w)) (pre ++ e :: post) →
  allocated (recording_heap w) x →
  present w pre x = false →
  Nat.eqb e x || list_eq (items_at w e) (items_at w x) = true →
  list_remove (pre ++ e :: post) x w = (w, inr (Some (pre ++ post))).
Proof.
  intros Hl Hx. induction pre as [|a pre IH]; simpl; intros Hp He.
  - inversion Hl; subst.
    rewrite (bind_inr _ _ _ _ _ (Recording_eq_allocated w e x ltac:(assumption) Hx)).
    cbv beta. now rewrite He.
  - inversion Hl; subst. apply orb_false_iff in Hp as [Hp1 Hp2].
    rewrite (bind_inr _ _ _ _ _ (Recording_eq_allocated w a x ltac:(assumption) Hx)).
    cbv beta. rewrite Hp1.
    now rewrite (bind_inr _ _ _ _ _ (IH ltac:(assumption) Hp2 He)).
Qed.

Lemma Recording_remove_absent w self :
  Forall (allocated (recording_heap w)) (recording_mgr w) →
  allocated (recording_heap w) self →
  present w (recording_mgr w) self = false →
  Recording_remove self w = (w, inl (ValueError "list.remove(x): x not in list")).
Proof.
  intros Hmgr Hx Hp. unfold Recording_remove.
  rewrite (bind_inr _ _ w w (recording_mgr w) eq_refl). cbv beta.
  now rewrite (bind_inr _ _ _ _ _ (list_remove_absent w _ self Hmgr Hx Hp)).
Qed.

Lemma Recording_remove_first w self pre e post :
  Forall (allocated (recording_heap w)) (recording_mgr w) →
  allocated (recording_heap w) self →
  recording_mgr w = pre ++ e :: post →
  present w pre self = false →
  Nat.eqb e self || list_eq (items_at w e) (items_at w self) = true →
  Recording_remove self w = (with_recording_mgr (fun _ => pre ++ post) w, inr tt).
Proof.
  intros Hmgr Hx E Hp He. unfold Recording_remove.
  rewrite (bind_inr _ _ w w (recording_mgr w) eq_refl). cbv beta.
  rewrite E in Hmgr |- *.
  now rewrite (bind_inr _ _ _ _ _ (list_remove_first w pre e post self Hmgr Hx Hp He)).
Qed.

(** X18.  [Recording.remove] takes out of the manager's list the first
    element that is the recording or equal to it as a list, which is the
    recording itself only if no equal one stands before it, and changes
    nothing else.  When [in] does not find the recording in the list it
    raises [ValueError] and the list is as before. *)
Theorem Recording_remove_spec (w : World) (self : addr) :
  Forall (allocated (recording_heap w)) (recording_mgr w) →
  allocated (recording_heap w) self →
  (present w (recording_mgr w) self = false →
     Recording_remove self w =
       (w, inl (ValueError "list.remove(x): x not in list"))) ∧
  (∀ pre e post,
     recording_mgr w = pre ++ e :: post →
     present w pre self = false →
     Nat.eqb e self || list_eq (items_at w e) (items_at w self) = true →
     Recording_remove self w =
       (with_recording_mgr (fun _ => pre ++ post) w, inr tt)).
Proof.
  intros Hmgr Hx. split.
  - now apply Recording_remove_absent.
  - intros pre e post. now apply Recording_remove_first.
Qed.

Lemma Recording_remove_spec_witness :
  recording_mgr (world_after (Recording_remove 1%nat) restarted_world) = [] ∧
  outcome (Recording_remove 1%nat)
    (world_after (Recording_remove 1%nat) restarted_world) =
    inl (ValueError "list.remove(x): x not in list").
Proof.
  split.
  - edestruct (Recording_remove_spec restarted_world 1%nat) as [_ H].
    + repeat constructor. eexists; reflexivity.
    + eexists; reflexivity.
    + unfold world_after. rewrite (H [] 0%nat []); reflexivity.
  - edestruct (Recording_remove_spec
                 (world_after (Recording_remove 1%nat) restarted_world) 1%nat)
      as [H _].
    + constructor.
    + eexists; reflexivity.
    + unfold outcome. rewrite H; reflexivity.
Defined.

(** X19.  Saving and removing undo each other: when [in] does not find
    the recorder's recording in the manager's list, [stop(True)] followed
    by [remove] on that recording returns and leaves the list as it was
    before [stop]. *)
Theorem stop_then_remove (w : World) (self : addr) (r : Recorder) (rec : addr) :
  recorder_heap w !! self = Some r →
  Recorder_recording r = Some rec →
  Forall (allocated (recording_heap w)) (recording_mgr w) →
  allocated (recording_heap w) rec →
  present w (recording_mgr w) rec = false →
  let w1 := world_after (Recorder_stop self true) w in
  recording_mgr w1 = recording_mgr w ++ [rec] ∧
  outcome (Recording_remove rec) w1 = inr tt ∧
  recording_mgr (world_after (Recording_remove rec) w1) = recording_mgr w.
Proof.
  intros Hr Hrec Hmgr Ha Hp w1.
  assert (Hok : Recorder_ok w r).
  { intros rec' E. rewrite Hrec in E. now injection E as <-. }
  pose proof (Recorder_stop_exact w self r true Hr Hmgr Hok) as E.
  cbv zeta in E. rewrite Hrec, Hp in E. cbn [andb negb] in E.
  assert (E1 : w1 = with_recording_mgr (fun l => l ++ [rec])
                      (with_recorder_heap
                         (fun h => <[self := set_Recorder_state RecorderState.STOPPED r]> h)
                         w))
    by (unfold w1, world_after; now rewrite E).
  assert (Hrem : Recording_remove rec w1 =
                 (with_recording_mgr (fun _ => recording_mgr w ++ []) w1, inr tt)).
  { apply (Recording_remove_first w1 rec (recording_mgr w) rec []).
    - rewrite E1. cbn. apply Forall_app. split; [exact Hmgr|].
      constructor; [exact Ha|constructor].
    - rewrite E1. exact Ha.
    - rewrite E1. reflexivity.
    - rewrite <- Hp. apply present_ext. now rewrite E1.
    - now rewrite Nat.eqb_refl. }
  split; [rewrite E1; reflexivity|].
  unfold outcome, world_after. rewrite Hrem. cbn.
  split; [reflexivity|apply app_nil_r].
Qed.

Lemma stop_then_remove_witness :
  recording_mgr
    (run_calls (run_plugin_call demo_host)
       [call_program (call_Recorder 0%nat (Rstop true)); call_Recording_remove 1%nat]
       (run_calls (run_call demo_host) [call_on_tick] restarted_world)) =
    [0%nat].
Proof.
  edestruct (stop_then_remove
               (run_calls (run_call demo_host) [call_on_tick] restarted_world) 0%nat
               {| Recorder_player := 1; Recorder_state := RecorderState.RECORDING;
                  Recorder_recording := Some 1%nat |} 1%nat) as (_ & _ & H);
    [reflexivity | reflexivity | | | reflexivity | exact H].
  - repeat constructor. eexists; reflexivity.
  - eexists; reflexivity.
Defined.

(** ** What every call of the plugin keeps *)

Lemma keeps_wf_modify (f : World → World) :
  (∀ w, wf w → wf (f w)) → keeps_wf (modify f).
Proof. intros H w Hw. now apply H. Qed.

Lemma wf_delitem_players w k : wf w → wf (with_players (dict_delitem k) w).
Proof.
  intros []. constructor; cbn; try assumption.
  apply Forall_forall. intros x Hx. apply dict_delitem_values_sub in Hx.
  eapply (proj1 (Forall_forall _ _)); eassumption.
Qed.

Lemma wf_delitem_recorders w k : wf w → wf (with_recorders (dict_delitem k) w).
Proof.
  intros []. constructor; cbn; try assumption.
  apply Forall_forall. intros x Hx. apply dict_delitem_values_sub in Hx.
  eapply (proj1 (Forall_forall _ _)); eassumption.
Qed.

Lemma list_remove_world l x w : fst (list_remove l x w) = w.
Proof.
  induction l as [|e l IH]; [reflexivity|]. simpl. unfold bind.
  pose proof (Recording_eq_world e x w) as He.
  destruct (Recording_eq e x w) as [w1 [err|[|]]]; simpl in He; subst w1; auto.
  destruct (list_remove l x w) as [w2 [err|rest]]; simpl in IH; subst w2; reflexivity.
Qed.

Lemma list_remove_sub l x w l' :
  snd (list_remove l x w) = inr (Some l') → ∀ a, a ∈ l' → a ∈ l.
Proof.
  revert l'. induction l as [|e l IH]; intros l'; simpl; [discriminate|].
  unfold bind. pose proof (Recording_eq_world e x w) as He.
  destruct (Recording_eq e x w) as [w1 [err|[|]]]; simpl in He; subst w1; simpl.
  - discriminate.
  - intros [= <-] a Ha. now right.
  - pose proof (list_remove_world l x w) as Hw.
    destruct (list_remove l x w) as [w2 [err|[rest|]]]; simpl in Hw; subst w2;
      simpl; try discriminate.
    intros [= <-] a Ha. inversion Ha; subst; [left|right].
    now apply (IH rest).
Qed.

Lemma keeps_wf_Recording_remove self : keeps_wf (Recording_remove self).
Proof.
  intros w Hw. unfold Recording_remove.
  rewrite (bind_inr _ _ w w (recording_mgr w) eq_refl). cbv beta.
  pose proof (list_remove_world (recording_mgr w) self w) as Hf.
  pose proof (list_remove_sub (recording_mgr w) self w) as Hs.
  unfold bind.
  destruct (list_remove (recording_mgr w) self w) as [w1 [e|[l|]]];
    simpl in Hf, Hs; subst w1; try exact Hw.
  simpl. destruct Hw. constructor; cbn; try assumption.
  apply Forall_forall. intros a Ha.
  eapply (proj1 (Forall_forall _ _)); [eassumption|]. now apply (Hs l).
Qed.

Lemma keeps_wf_remove_player index : keeps_wf (remove_player index).
Proof.
  unfold remove_player. apply keeps_wf_bind; [intros w Hw; exact Hw|].
  intros d. destruct (dict_get index d) as [player|]; [|apply keeps_wf_ret].
  apply keeps_wf_bind; [apply (keeps_wf_Player_call demo_host player Pstop)|].
  intros _. apply keeps_wf_modify. intros w. apply wf_delitem_players.
Qed.

Lemma keeps_wf_remove_recorder index save : keeps_wf (remove_recorder index save).
Proof.
  unfold remove_recorder. apply keeps_wf_bind; [intros w Hw; exact Hw|].
  intros d. destruct (dict_get index d) as [recorder|]; [|apply keeps_wf_ret].
  apply keeps_wf_bind;
    [apply (keeps_wf_Recorder_call demo_host recorder (Rstop save))|].
  intros _. apply keeps_wf_modify. intros w. apply wf_delitem_recorders.
Qed.

Lemma keeps_wf_run_plugin_call host c : keeps_wf (run_plugin_call host c).
Proof.
  destruct c; simpl.
  - apply keeps_wf_run_call.
  - apply keeps_wf_remove_recorder.
  - apply keeps_wf_remove_player.
  - unfold on_entity_deleted. destruct (negb _); [apply keeps_wf_ret|].
    apply keeps_wf_bind; [apply keeps_wf_remove_recorder|].
    intros _. apply keeps_wf_remove_player.
  - apply keeps_wf_Recording_remove.
  - unfold on_record. apply keeps_wf_bind; [apply keeps_wf_get_recorder|].
    intros recorder. apply (keeps_wf_Recorder_call host recorder Rstart).
  - unfold on_pause. apply keeps_wf_bind; [intros w Hw; exact Hw|].
    intros ps. apply keeps_wf_for_each. intros a.
    apply (keeps_wf_Player_call host a Ppause).
  - unfold on_menu_select. apply keeps_wf_bind; [apply keeps_wf_create_player|].
    intros player. apply (keeps_wf_Player_call host player Pstart).
Qed.

Lemma registry_refl w : registry_ok w → registry_ok w.
Proof. auto. Qed.

Lemma registry_trans (w1 w2 w3 : World) :
  (registry_ok w1 → registry_ok w2) → (registry_ok w2 → registry_ok w3) →
  registry_ok w1 → registry_ok w3.
Proof. auto. Qed.

Lemma registry_keep {A} (m : M A) :
  (∀ w, recorders (fst (m w)) = recorders w ∧ players (fst (m w)) = players w) →
  steps (fun w w' => registry_ok w → registry_ok w') m.
Proof. intros H w. destruct (H w) as [E1 E2]. unfold registry_ok. now rewrite E1, E2. Qed.

Lemma registry_setitem_players k v :
  steps (fun w w' => registry_ok w → registry_ok w')
    (modify (with_players (dict_setitem k v))).
Proof. intros w [H1 H2]. split; [exact H1|]. cbn. now apply dict_setitem_NoDup. Qed.

Lemma registry_setitem_recorders k v :
  steps (fun w w' => registry_ok w → registry_ok w')
    (modify (with_recorders (dict_setitem k v))).
Proof. intros w [H1 H2]. split; [|exact H2]. cbn. now apply dict_setitem_NoDup. Qed.

Lemma registry_delitem_players k :
  steps (fun w w' => registry_ok w → registry_ok w')
    (modify (with_players (dict_delitem k))).
Proof. intros w [H1 H2]. split; [exact H1|]. cbn. now apply dict_delitem_NoDup. Qed.

Lemma registry_delitem_recorders k :
  steps (fun w w' => registry_ok w → registry_ok w')
    (modify (with_recorders (dict_delitem k))).
Proof. intros w [H1 H2]. split; [|exact H2]. cbn. now apply dict_delitem_NoDup. Qed.

Lemma registry_list_contains l x :
  steps (fun w w' => registry_ok w → registry_ok w') (list_contains l x).
Proof. intros w. now rewrite list_contains_world. Qed.

Lemma registry_list_remove l x :
  steps (fun w w' => registry_ok w → registry_ok w') (list_remove l x).
Proof. intros w. now rewrite list_remove_world. Qed.

Lemma registry_find_player rec values :
  steps (fun w w' => registry_ok w → registry_ok w') (find_player rec values).
Proof. intros w. now rewrite find_player_world. Qed.

(** Splits a computation into its steps and settles those that leave the
    registries alone or set or delete one key. *)
Ltac registry_steps :=
  repeat first
    [ apply registry_setitem_players
    | apply registry_setitem_recorders
    | apply registry_delitem_players
    | apply registry_delitem_recorders
    | apply registry_list_contains
    | apply registry_list_remove
    | apply registry_find_player
    | apply (steps_for_each _ registry_refl registry_trans); intros ?
    | apply (steps_bind _ registry_trans); [|intros ?]
    | match goal with
      | |- steps _ (if ?b then _ else _) => destruct b
      | |- steps _ (match ?x with _ => _ end) => destruct x
      end
    | apply registry_keep; intros ?; unfold deref_snapshot, deref_recording,
        deref_recorder, deref_player, deref, lift;
        cbn; repeat match goal with
                    | |- context [match ?x with _ => _ end] => destruct x
                    end; split; reflexivity ].

Lemma registry_Recorder_call host self op :
  steps (fun w w' => registry_ok w → registry_ok w') (Recorder_call host self op).
Proof.
  destruct op; simpl;
    unfold Recorder_start, Recorder_pause, Recorder_resume, Recorder_stop,
      Recorder_handle_tick, Recording_init, Recording_add_snapshot,
      Recording_create_snapshot, update_recorder, update_recording;
    registry_steps.
Qed.

Lemma registry_Player_call host self op :
  steps (fun w w' => registry_ok w → registry_ok w') (Player_call host self op).
Proof.
  destruct op; simpl;
    unfold Player_start, Player_resume, Player_pause, Player_stop,
      Player_handle_tick, needs_adjust, Snapshot_replay_bcmd,
      Snapshot_replay_location, update_player;
    registry_steps.
Qed.

Lemma registry_create_player host rec name adjust :
  steps (fun w w' => registry_ok w → registry_ok w')
    (create_player host rec name adjust).
Proof.
  unfold create_player, Recording_is_playable, create_replay_bot_name,
    bot_manager_create, bot_manager_controller, Player_init.
  registry_steps.
Qed.

Lemma registry_get_player host rec name :
  steps (fun w w' => registry_ok w → registry_ok w') (get_player host rec name).
Proof.
  unfold get_player.
  apply (steps_bind _ registry_trans); [registry_steps|]. intros values.
  apply (steps_bind _ registry_trans); [apply registry_find_player|].
  intros [player|]; [registry_steps|apply registry_create_player].
Qed.

Lemma registry_get_recorder index :
  steps (fun w w' => registry_ok w → registry_ok w') (get_recorder index).
Proof. unfold get_recorder, Recorder_init. registry_steps. Qed.

Lemma registry_on_tick host :
  steps (fun w w' => registry_ok w → registry_ok w') (on_tick host).
Proof.
  unfold on_tick.
  apply (steps_bind _ registry_trans); [registry_steps|]. intros rs.
  apply (steps_bind _ registry_trans).
  { apply (steps_for_each _ registry_refl registry_trans).
    intros a. apply (registry_Recorder_call host a Rhandle_tick). }
  intros _.
  apply (steps_bind _ registry_trans); [registry_steps|]. intros ps.
  apply (steps_for_each _ registry_refl registry_trans).
  intros a. apply (registry_Player_call host a Phandle_tick).
Qed.

Lemma registry_run_call host c :
  steps (fun w w' => registry_ok w → registry_ok w') (run_call host c).
Proof.
  destruct c; simpl.
  - apply (steps_bind _ registry_trans);
      [apply registry_get_recorder|intros; registry_steps].
  - apply registry_Recorder_call.
  - apply registry_Player_call.
  - apply (steps_bind _ registry_trans);
      [apply registry_create_player|intros; registry_steps].
  - apply (steps_bind _ registry_trans);
      [apply registry_get_player|intros; registry_steps].
  - unfold Recording_play.
    apply (steps_bind _ registry_trans); [|intros; registry_steps].
    apply (steps_bind _ registry_trans); [apply registry_get_player|].
    intros player.
    apply (steps_bind _ registry_trans); [|intros; registry_steps].
    apply (registry_Player_call host player Pstart).
  - apply registry_on_tick.
Qed.

Lemma registry_remove_player index :
  steps (fun w w' => registry_ok w → registry_ok w') (remove_player index).
Proof.
  unfold remove_player.
  apply (steps_bind _ registry_trans); [registry_steps|]. intros d.
  destruct (dict_get index d) as [player|]; [|registry_steps].
  apply (steps_bind _ registry_trans);
    [apply (registry_Player_call demo_host player Pstop)|].
  intros _. apply registry_delitem_players.
Qed.

Lemma registry_remove_recorder index save :
  steps (fun w w' => registry_ok w → registry_ok w') (remove_recorder index save).
Proof.
  unfold remove_recorder.
  apply (steps_bind _ registry_trans); [registry_steps|]. intros d.
  destruct (dict_get index d) as [recorder|]; [|registry_steps].
  apply (steps_bind _ registry_trans);
    [apply (registry_Recorder_call demo_host recorder (Rstop save))|].
  intros _. apply registry_delitem_recorders.
Qed.

Lemma registry_run_plugin_call host c :
  steps (fun w w' => registry_ok w → registry_ok w') (run_plugin_call host c).
Proof.
  destruct c; simpl.
  - apply registry_run_call.
  - apply registry_remove_recorder.
  - apply registry_remove_player.
  - unfold on_entity_deleted. destruct (negb _); [registry_steps|].
    apply (steps_bind _ registry_trans); [apply registry_remove_recorder|].
    intros _. apply registry_remove_player.
  - unfold Recording_remove.
    apply (steps_bind _ registry_trans); [registry_steps|]. intros mgr.
    apply (steps_bind _ registry_trans); [apply registry_list_remove|].
    intros [l|]; registry_steps.
  - unfold on_record.
    apply (steps_bind _ registry_trans); [apply registry_get_recorder|].
    intros recorder. apply (registry_Recorder_call host recorder Rstart).
  - unfold on_pause.
    apply (steps_bind _ registry_trans); [registry_steps|]. intros ps.
    apply (steps_for_each _ registry_refl registry_trans).
    intros a. apply (registry_Player_call host a Ppause).
  - unfold on_menu_select.
    apply (steps_bind _ registry_trans); [apply registry_create_player|].
    intros player. apply (registry_Player_call host player Pstart).
Qed.

Lemma persist_list_remove l x : steps players_persist (list_remove l x).
Proof.
  apply persist_keep. intros w. apply (f_equal player_heap (list_remove_world l x w)).
Qed.

Lemma persist_run_plugin_call host c :
  steps players_persist (run_plugin_call host c).
Proof.
  destruct c; simpl.
  - apply persist_run_call.
  - unfold remove_recorder.
    apply (steps_bind _ players_persist_trans); [persist_steps|]. intros d.
    destruct (dict_get index d) as [recorder|]; [|persist_steps].
    apply (steps_bind _ players_persist_trans);
      [apply (persist_Recorder_call host recorder (Rstop save))|].
    intros _. persist_steps.
  - unfold remove_player.
    apply (steps_bind _ players_persist_trans); [persist_steps|]. intros d.
    destruct (dict_get index d) as [player|]; [|persist_steps].
    apply (steps_bind _ players_persist_trans);
      [apply (persist_Player_call host player Pstop)|].
    intros _. persist_steps.
  - unfold on_entity_deleted. destruct (negb _); [persist_steps|].
    apply (steps_bind _ players_persist_trans).
    + unfold remove_recorder.
      apply (steps_bind _ players_persist_trans); [persist_steps|]. intros d.
      destruct (dict_get index d) as [recorder|]; [|persist_steps].
      apply (steps_bind _ players_persist_trans);
        [apply (persist_Recorder_call host recorder (Rstop true))|].
      intros _. persist_steps.
    + intros _. unfold remove_player.
      apply (steps_bind _ players_persist_trans); [persist_steps|]. intros d.
      destruct (dict_get index d) as [player|]; [|persist_steps].
      apply (steps_bind _ players_persist_trans);
        [apply (persist_Player_call host player Pstop)|].
      intros _. persist_steps.
  - unfold Recording_remove.
    apply (steps_bind _ players_persist_trans); [persist_steps|]. intros mgr.
    apply (steps_bind _ players_persist_trans); [apply persist_list_remove|].
    intros [l|]; persist_steps.
  - unfold on_record.
    apply (steps_bind _ players_persist_trans).
    + unfold get_recorder, Recorder_init. persist_steps.
    + intros recorder. apply (persist_Recorder_call host recorder Rstart).
  - unfold on_pause.
    apply (steps_bind _ players_persist_trans); [persist_steps|]. intros ps.
    apply (steps_for_each _ players_persist_refl players_persist_trans).
    intros a. apply (persist_Player_call host a Ppause).
  - unfold on_menu_select.
    apply (steps_bind _ players_persist_trans); [apply persist_create_player|].
    intros player. apply (persist_Player_call host player Pstart).
Qed.

Lemma registry_ok_empty : registry_ok empty_world.
Proof. split; constructor. Qed.

(** X20.  Whatever the plugin is asked to do, in whatever order and
    whether the calls return or raise, a well-formed world with distinct
    registry keys stays so: registered recorders and players exist, a
    recorder's recording and the recordings in the manager's list exist,
    every snapshot of every recording exists, and the cursor of every
    player is on a snapshot of its recording.  No player is rebound:
    every player object stays bound to the recording it was created for.
    The empty world the plugin starts in is such a world. *)
Theorem plugin_keeps_invariants (host : Host) (calls : list PluginCall) :
  ∀ w, wf w → registry_ok w →
  let w' := run_calls (run_plugin_call host) calls w in
  wf w' ∧ registry_ok w' ∧ players_persist w w'.
Proof.
  induction calls as [|c calls IH]; intros w Hw Hreg w'.
  - split; [exact Hw|]. split; [exact Hreg|apply players_persist_refl].
  - unfold w'. simpl.
    destruct (IH (world_after (run_plugin_call host c) w)) as (A & B & C).
    + now apply keeps_wf_run_plugin_call.
    + now apply registry_run_plugin_call.
    + split; [exact A|]. split; [exact B|].
      eapply players_persist_trans; [apply persist_run_plugin_call|exact C].
Qed.

Lemma plugin_keeps_invariants_witness :
  wf (run_calls (run_plugin_call demo_host)
        [call_on_record 1; call_program call_on_tick; call_program call_on_tick;
         call_on_entity_deleted true 1; call_on_menu_select 0%nat;
         call_program call_on_tick; call_on_pause; call_remove_player 13]
        empty_world).
Proof.
  apply (plugin_keeps_invariants demo_host
           [call_on_record 1; call_program call_on_tick; call_program call_on_tick;
            call_on_entity_deleted true 1; call_on_menu_select 0%nat;
            call_program call_on_tick; call_on_pause; call_remove_player 13]
           empty_world wf_empty_world registry_ok_empty).
Defined.

(** ** The entity-deleted listener *)

Lemma dict_delitem_absent {V} k (d : list (Z * V)) :
  dict_get k d = None → dict_delitem k d = d.
Proof.
  induction d as [|[k' v'] d IH]; simpl; [reflexivity|].
  destruct (k' =? k); [discriminate|]. intros H. now rewrite IH.
Qed.

Lemma present_app_self w l x : present w (l ++ [x]) x = true.
Proof.
  unfold present. rewrite existsb_app. simpl. rewrite Nat.eqb_refl. simpl.
  apply orb_true_r.
Qed.

Lemma remove_recorder_wf w index save :
  wf w →
  ∃ w1,
    remove_recorder index save w = (w1, inr tt) ∧
    recorders w1 = dict_delitem index (recorders w) ∧
    players w1 = players w ∧
    player_heap w1 = player_heap w ∧
    recording_heap w1 = recording_heap w ∧
    trace w1 = trace w ∧
    (∀ ra r rec,
       dict_get index (recorders w) = Some ra →
       recorder_heap w !! ra = Some r →
       Recorder_recording r = Some rec →
       Recorder_state_at w1 ra = Some RecorderState.STOPPED ∧
       (save = true → present w (recording_mgr w1) rec = true)).
Proof.
  intros Hw. destruct (dict_get index (recorders w)) as [ra|] eqn:Hd; cycle 1.
  { exists w. split.
    - unfold remove_recorder.
      rewrite (bind_inr _ _ w w (recorders w) eq_refl). cbv beta. now rewrite Hd.
    - rewrite (dict_delitem_absent _ _ Hd).
      do 5 (split; [reflexivity|]). intros ? ? ? H. discriminate H. }
  assert (Hal : allocated (recorder_heap w) ra).
  { eapply (proj1 (Forall_forall _ _) (wf_registered_recorders w Hw)).
    eapply dict_get_values, Hd. }
  destruct Hal as [r Hr].
  pose proof (wf_recorder_ok w ra r Hw Hr) as Hok.
  pose proof (remove_recorder_found w index save ra r Hd Hr (wf_mgr w Hw) Hok) as E.
  cbv zeta in E.
  assert (Hlt : (ra < length (recorder_heap w))%nat) by (eapply lookup_lt_Some, Hr).
  eexists. split; [exact E|].
  destruct (Recorder_recording r) as [rec|] eqn:Erec.
  - destruct (save && negb (present w (recording_mgr w) rec)) eqn:Es; cbn;
      (split; [reflexivity|]); (split; [reflexivity|]); (split; [reflexivity|]);
      (split; [reflexivity|]); (split; [reflexivity|]);
      intros ra' r' rec' [= <-] Hr' Hrec';
      pose proof (eq_trans (eq_sym Hr) Hr') as X; injection X as <-;
      rewrite Erec in Hrec'; injection Hrec' as <-;
      (split; [unfold Recorder_state_at; cbn;
               now rewrite list_lookup_insert_eq by exact Hlt|]).
    + intros _. apply present_app_self.
    + intros ->. cbn in Es. now apply negb_false_iff in Es.
  - cbn. do 5 (split; [reflexivity|]).
    intros ra' r' rec' [= <-] Hr' Hrec'.
    pose proof (eq_trans (eq_sym Hr) Hr') as X. injection X as <-.
    rewrite Erec in Hrec'. discriminate.
Qed.

Lemma remove_player_wf w index :
  wf w →
  ∃ w1,
    remove_player index w = (w1, inr tt) ∧
    players w1 = dict_delitem index (players w) ∧
    recorders w1 = recorders w ∧
    recording_mgr w1 = recording_mgr w ∧
    recorder_heap w1 = recorder_heap w ∧
    trace w1 = trace w ∧
    (∀ pa, dict_get index (players w) = Some pa →
           Player_state_at w1 pa = Some PlayerState.STOPPED).
Proof.
  intros Hw. destruct (dict_get index (players w)) as [pa|] eqn:Hd; cycle 1.
  { exists w. split.
    - unfold remove_player.
      rewrite (bind_inr _ _ w w (players w) eq_refl). cbv beta. now rewrite Hd.
    - rewrite (dict_delitem_absent _ _ Hd).
      do 5 (split; [reflexivity|]). intros ? H. discriminate H. }
  assert (Hal : allocated (player_heap w) pa).
  { eapply (proj1 (Forall_forall _ _) (wf_registered_players w Hw)).
    eapply dict_get_values, Hd. }
  destruct Hal as [p Hp].
  destruct (wf_player_ok w pa p Hw Hp) as (r & Hr & _).
  assert (Hlt : (pa < length (player_heap w))%nat) by (eapply lookup_lt_Some, Hp).
  eexists. split; [exact (remove_player_found w index pa p r Hd Hp Hr)|].
  cbn. do 5 (split; [reflexivity|]).
  intros pa' [= <-]. unfold Player_state_at. cbn.
  now rewrite list_lookup_insert_eq by exact Hlt.
Qed.

(** X21.  The entity-deleted listener ignores entities that are not
    players.  For a player entity, in a well-formed world, it returns and
    the index is afterwards in neither registry, while every other index
    maps to what it mapped to before.  A recorder registered under the
    index is stopped, and its recording in progress is not discarded: the
    listener stops with [save], so [in] finds the recording in the
    manager's list afterwards.  A player registered under the index is
    stopped. *)
Theorem on_entity_deleted_spec (w : World) (index : Z) :
  on_entity_deleted false index w = (w, inr tt) ∧
  (wf w → registry_ok w →
     let w' := world_after (on_entity_deleted true index) w in
     outcome (on_entity_deleted true index) w = inr tt ∧
     dict_get index (recorders w') = None ∧
     dict_get index (players w') = None ∧
     (∀ k, k ≠ index →
        dict_get k (recorders w') = dict_get k (recorders w) ∧
        dict_get k (players w') = dict_get k (players w)) ∧
     (∀ ra r rec,
        dict_get index (recorders w) = Some ra →
        recorder_heap w !! ra = Some r →
        Recorder_recording r = Some rec →
        Recorder_state_at w' ra = Some RecorderState.STOPPED ∧
        present w (recording_mgr w') rec = true) ∧
     (∀ pa, dict_get index (players w) = Some pa →
            Player_state_at w' pa = Some PlayerState.STOPPED)).
Proof.
  split; [reflexivity|]. intros Hw [Hn1 Hn2] w'.
  destruct (remove_recorder_wf w index true Hw)
    as (w1 & E1 & R1 & P1 & PH1 & RH1 & T1 & S1).
  assert (Hw1 : wf w1).
  { pose proof (keeps_wf_remove_recorder index true w Hw) as H.
    simpl in H. now rewrite E1 in H. }
  destruct (remove_player_wf w1 index Hw1)
    as (w2 & E2 & P2 & R2 & M2 & RH2 & T2 & S2).
  assert (E : on_entity_deleted true index w = (w2, inr tt)).
  { unfold on_entity_deleted. cbn [negb].
    now rewrite (bind_inr _ _ _ _ _ E1). }
  unfold w', outcome, world_after. rewrite E. cbn [fst snd].
  split; [reflexivity|].
  split; [rewrite R2, R1; now apply dict_get_delitem_eq|].
  split; [rewrite P2, P1; now apply dict_get_delitem_eq|].
  split.
  { intros k Hk. rewrite R2, R1, P2, P1.
    split; apply dict_get_delitem_ne; congruence. }
  split.
  - intros ra r rec Hd Hr Hrec.
    destruct (S1 ra r rec Hd Hr Hrec) as [A B].
    split; [|rewrite M2; now apply B].
    unfold Recorder_state_at in *. now rewrite RH2.
  - intros pa Hd. apply S2. now rewrite P1.
Qed.

Lemma on_entity_deleted_spec_witness :
  recorders (world_after (on_entity_deleted true 1)
               (run_calls (run_call demo_host) [call_on_tick] restarted_world)) = [] ∧
  recording_mgr (world_after (on_entity_deleted true 1)
                   (run_calls (run_call demo_host) [call_on_tick] restarted_world)) =
    [0; 1]%nat.
Proof.
  destruct (on_entity_deleted_spec
              (run_calls (run_call demo_host) [call_on_tick] restarted_world) 1)
    as [_ H].
  destruct H as (_ & _ & _ & _ & _).
  - do 2 apply wf_run_calls. apply wf_empty_world.
  - split; repeat constructor. intros H. inversion H.
  - split; reflexivity.
Defined.

(** ** The commands *)

(** X22.  [!record] always ends with the client recording afresh: in a
    well-formed world it returns, the client's recorder (the registered
    one if there is one, also a stopped one, else a new one) is
    [RECORDING] and bound to a new recording without snapshots, and the
    manager's list is as before, so that what the recorder was recording is
    not saved. *)
Theorem on_record_restarts (host : Host) (w : World) (index : Z) :
  wf w →
  let w' := world_after (on_record host index) w in
  let new := length (recording_heap w) in
  outcome (on_record host index) w = inr tt ∧
  recording_mgr w' = recording_mgr w ∧
  items_at w' new = [] ∧
  recording_heap w !! new = None ∧
  ∃ a, dict_get index (recorders w') = Some a ∧
       (∀ a0, dict_get index (recorders w) = Some a0 → a = a0) ∧
       (dict_get index (recorders w) = None → a = length (recorder_heap w)) ∧
       Recorder_state_at w' a = Some RecorderState.RECORDING ∧
       (Recorder_recording <$> recorder_heap w' !! a) = Some (Some new).
Proof.
  intros Hw w' new.
  assert (Hfresh : recording_heap w !! new = None)
    by (apply lookup_ge_None; unfold new; lia).
  assert (Hgen : ∀ w0 a r,
            recording_heap w0 = recording_heap w →
            recording_mgr w0 = recording_mgr w →
            recorder_heap w0 !! a = Some r →
            let w1 := world_after (Recorder_start host a) w0 in
            outcome (Recorder_start host a) w0 = inr tt ∧
            recording_mgr w1 = recording_mgr w ∧ items_at w1 new = [] ∧
            recorders w1 = recorders w0 ∧
            Recorder_state_at w1 a = Some RecorderState.RECORDING ∧
            (Recorder_recording <$> recorder_heap w1 !! a) = Some (Some new)).
  { intros w0 a r Hrh Hm Hr w1.
    assert (Hlt : (a < length (recorder_heap w0))%nat) by (eapply lookup_lt_Some, Hr).
    destruct (Recorder_start_unfold host w0 a r Hr) as (fresh & Hf & E).
    unfold w1, outcome, world_after, Recorder_state_at, items_at. rewrite E. cbn.
    rewrite list_lookup_insert_eq by exact Hlt. cbn. rewrite Hrh.
    fold new. rewrite lookup_app_r by (unfold new; lia).
    unfold new. rewrite Nat.sub_diag. cbn. repeat split; auto. }
  destruct (dict_get index (recorders w)) as [a0|] eqn:Hd.
  - assert (Hal : allocated (recorder_heap w) a0).
    { eapply (proj1 (Forall_forall _ _) (wf_registered_recorders w Hw)).
      eapply dict_get_values, Hd. }
    destruct Hal as [r Hr].
    assert (Hget : get_recorder index w = (w, inr a0)).
    { unfold get_recorder.
      rewrite (bind_inr _ _ w w (recorders w) eq_refl). cbv beta. now rewrite Hd. }
    destruct (Hgen w a0 r eq_refl eq_refl Hr) as (A & B & C & D & E & F).
    unfold w', outcome, world_after, on_record in *.
    rewrite (bind_inr _ _ _ _ _ Hget). cbv beta.
    split; [exact A|]. split; [exact B|]. split; [exact C|]. split; [exact Hfresh|].
    exists a0. rewrite D. split; [exact Hd|].
    split; [intros a1 [= <-]; reflexivity|]. split; [discriminate|]. auto.
  - set (a := length (recorder_heap w)).
    set (r := {| Recorder_player := index; Recorder_state := RecorderState.PAUSED;
                 Recorder_recording := None |}).
    set (w0 := with_recorders (dict_setitem index a)
                 (with_recorder_heap (fun h => h ++ [r]) w)).
    assert (Hget : get_recorder index w = (w0, inr a)).
    { unfold get_recorder.
      rewrite (bind_inr _ _ w w (recorders w) eq_refl). cbv beta. now rewrite Hd. }
    assert (Hr : recorder_heap w0 !! a = Some r).
    { unfold w0, a. cbn. rewrite lookup_app_r by lia. now rewrite Nat.sub_diag. }
    destruct (Hgen w0 a r eq_refl eq_refl Hr) as (A & B & C & D & E & F).
    unfold w', outcome, world_after, on_record in *.
    rewrite (bind_inr _ _ _ _ _ Hget). cbv beta.
    split; [exact A|]. split; [exact B|]. split; [exact C|]. split; [exact Hfresh|].
    exists a. rewrite D. split; [unfold w0; cbn; apply dict_get_setitem_eq|].
    split; [discriminate|]. split; [reflexivity|]. auto.
Qed.

Lemma on_record_restarts_witness :
  Recorder_state_at (world_after (on_record demo_host 1) recorded_world) 0%nat =
    Some RecorderState.RECORDING ∧
  recording_mgr (world_after (on_record demo_host 1) recorded_world) = [0%nat].
Proof.
  destruct (on_record_restarts demo_host recorded_world 1)
    as (_ & M & _ & _ & a & _ & Ha & _ & S & _).
  - apply wf_run_calls, wf_empty_world.
  - split; [|exact M]. rewrite <- (Ha 0%nat eq_refl). exact S.
Defined.

Lemma pause_all ps : ∀ w,
  Forall (allocated (player_heap w)) ps →
  let res := for_each ps Player_pause w in
  snd res = inr tt ∧
  with_player_heap (fun _ => player_heap w) (fst res) = w ∧
  (∀ a p, player_heap w !! a = Some p →
     player_heap (fst res) !! a =
       Some (if decide (a ∈ ps) then set_Player_state PlayerState.PAUSED p else p)).
Proof.
  induction ps as [|a ps IH]; intros w Hall res.
  - unfold res. simpl. split; [reflexivity|]. split; [now destruct w|].
    intros b p Hp. destruct (decide (b ∈ [])) as [H|_]; [inversion H|exact Hp].
  - inversion Hall as [|? ? [p Hp] Hall']; subst.
    assert (Hlt : (a < length (player_heap w))%nat) by (eapply lookup_lt_Some, Hp).
    set (w0 := with_player_heap
                 (fun h => <[a := set_Player_state PlayerState.PAUSED p]> h) w).
    assert (E : res = for_each ps Player_pause w0).
    { unfold res. simpl. unfold Player_pause at 1.
      now rewrite (bind_inr _ _ _ _ _ (update_player_Some _ _ _ _ Hp)). }
    assert (Hall0 : Forall (allocated (player_heap w0)) ps).
    { eapply Forall_impl; [exact Hall'|]. intros b. apply allocated_insert. }
    destruct (IH w0 Hall0) as (A & B & C). rewrite <- E in A, B, C.
    split; [exact A|]. split.
    + clear - B. unfold w0 in B. destruct (fst res). destruct w.
      unfold with_player_heap in *. cbn in *. injection B. intros. now subst.
    + intros b q Hq. destruct (Nat.eq_dec b a) as [->|Hne].
      * pose proof (eq_trans (eq_sym Hp) Hq) as X. injection X as <-.
        rewrite (C a (set_Player_state PlayerState.PAUSED p))
          by (unfold w0; cbn; now apply list_lookup_insert_eq).
        repeat case_decide; try reflexivity;
          match goal with
          | H : ?x ∉ ?x :: _ |- _ => exfalso; apply H; left
          end.
      * rewrite (C b q) by (unfold w0; cbn; rewrite list_lookup_insert_ne; auto).
        repeat case_decide; try reflexivity;
          match goal with
          | H : ?x ∉ _ :: ?l, H' : ?x ∈ ?l |- _ => exfalso; apply H; now right
          | H : ?x ∈ _ :: ?l, H' : ?x ∉ ?l |- _ =>
              inversion H; subst; [congruence|contradiction]
          end.
Qed.

Lemma moves_entries rs : moves (map EnterRecorderTick rs) = [].
Proof. induction rs; [reflexivity|exact IHrs]. Qed.

Lemma paused_phase host ps : ∀ w,
  Forall (fun a => ∃ p, player_heap w !! a = Some p ∧
                        Player_state p ≠ PlayerState.PLAYING) ps →
  moves (trace (fst (for_each ps (Player_handle_tick host) w))) = moves (trace w) ∧
  teleports (trace (fst (for_each ps (Player_handle_tick host) w))) =
    teleports (trace w).
Proof.
  induction ps as [|a ps IH]; intros w Hall; [split; reflexivity|].
  inversion Hall as [|? ? (p & Hp & Hs) Hall']; subst.
  simpl. rewrite (bind_inr _ _ _ _ _ (Player_handle_tick_idle host w a p Hp Hs)).
  cbv beta.
  destruct (IH (with_trace (fun t => t ++ [EnterPlayerTick a]) w) Hall') as [A B].
  rewrite A, B. cbn [trace with_trace]. rewrite moves_app, teleports_app.
  change (moves [EnterPlayerTick a]) with (@nil (Controller * BotCmd)).
  change (teleports [EnterPlayerTick a]) with 0%nat.
  split; [apply app_nil_r|lia].
Qed.

(** X23.  [!pause] pauses every registered player and nothing else: in a
    well-formed world it returns, makes no call into the host, leaves
    every registered player [PAUSED] at its tick and every other player as
    it was.  The tick that follows hands no command to any controller and
    teleports no bot. *)
Theorem on_pause_spec (host : Host) (w : World) :
  wf w →
  let w1 := world_after on_pause w in
  let w2 := world_after (on_tick host) w1 in
  outcome on_pause w = inr tt ∧
  trace w1 = trace w ∧
  (∀ a p, player_heap w !! a = Some p →
     player_heap w1 !! a =
       Some (if decide (a ∈ dict_values (players w))
             then set_Player_state PlayerState.PAUSED p else p)) ∧
  moves (trace w2) = moves (trace w) ∧
  teleports (trace w2) = teleports (trace w).
Proof.
  intros Hw w1 w2.
  destruct (pause_all (dict_values (players w)) w (wf_registered_players w Hw))
    as (A & B & C).
  assert (E : on_pause w = for_each (dict_values (players w)) Player_pause w)
    by reflexivity.
  assert (Hw1 : wf w1).
  { pose proof (keeps_wf_run_plugin_call host call_on_pause w Hw) as H. exact H. }
  assert (Eq1 : with_player_heap (fun _ => player_heap w) w1 = w).
  { unfold w1, world_after. rewrite E. exact B. }
  assert (Ht : trace w1 = trace w) by exact (f_equal trace Eq1).
  assert (Hpl : players w1 = players w) by exact (f_equal players Eq1).
  assert (Hlook : ∀ a p, player_heap w !! a = Some p →
            player_heap w1 !! a =
              Some (if decide (a ∈ dict_values (players w))
                    then set_Player_state PlayerState.PAUSED p else p)).
  { intros a p Hp. unfold w1, world_after. rewrite E. now apply C. }
  split; [unfold outcome; rewrite E; exact A|]. split; [exact Ht|].
  split; [exact Hlook|].
  destruct (recorder_phase host (dict_values (recorders w1)) w1 Hw1
              (wf_registered_recorders w1 Hw1)) as (Hw2 & Hph & Hpl2 & Hcase).
  assert (E0 : on_tick host w1 =
               match for_each (dict_values (recorders w1))
                       (Recorder_handle_tick host) w1 with
               | (w3, inl e) => (w3, inl e)
               | (w3, inr _) =>
                   for_each (dict_values (players w3)) (Player_handle_tick host) w3
               end) by reflexivity.
  unfold w2, world_after. rewrite E0. clear E0.
  destruct (for_each (dict_values (recorders w1)) (Recorder_handle_tick host) w1)
    as [w3 [e|[]]]; simpl in Hw2, Hph, Hpl2, Hcase.
  - destruct Hcase as [(_ & H & _)|(pre & a & post & _ & _ & _ & _ & Ht3)];
      [discriminate H|].
    cbn [fst]. rewrite Ht3, moves_app, teleports_app, moves_entries, app_nil_r, Ht.
    split; [reflexivity|].
    assert (Hz : ∀ l, teleports (map EnterRecorderTick l) = 0%nat)
      by (induction l; [reflexivity|assumption]).
    rewrite Hz. lia.
  - destruct Hcase as [(_ & _ & Ht3)|(pre & a & post & _ & _ & _ & H & _)];
      [|discriminate H].
    destruct (paused_phase host (dict_values (players w3)) w3) as [M T].
    + rewrite Hpl2, Hpl. apply Forall_forall. intros a Ha.
      destruct (proj1 (Forall_forall _ _) (wf_registered_players w Hw) a Ha)
        as [p Hp].
      pose proof (Hlook a p Hp) as Hl. revert Hl.
      case_decide; [|contradiction]. intros Hl.
      exists (set_Player_state PlayerState.PAUSED p).
      split; [rewrite Hph; exact Hl|discriminate].
    + rewrite M, T, Ht3, moves_app, teleports_app, moves_entries, app_nil_r, Ht.
      split; [reflexivity|].
      assert (Hz : ∀ l, teleports (map EnterRecorderTick l) = 0%nat)
        by (induction l; [reflexivity|assumption]).
      rewrite Hz. lia.
Qed.

Lemma on_pause_spec_witness :
  Player_state_at (world_after on_pause ticked_world) 0%nat =
    Some PlayerState.PAUSED ∧
  moves (trace (world_after (on_tick demo_host) (world_after on_pause ticked_world))) =
    moves (trace ticked_world).
Proof.
  destruct (on_pause_spec demo_host ticked_world) as (_ & _ & H & M & _).
  - do 3 apply wf_run_calls. apply wf_empty_world.
  - split; [|exact M].
    exact (f_equal (fmap Player_state)
             (H 0%nat {| Player_tick := 1; Player_recording := 0%nat;
                         Player_state := PlayerState.PLAYING;
                         Player_controller := 103; Player_replay_bot := 13;
                         Player_adjust := true |} eq_refl)).
Defined.

(** X24.  Choosing a recording in the menu plays it from the start on a
    bot of its own, without position correction.  When the host supplies
    the bot and its controller, the callback returns and a new player,
    with [adjust] off, is registered under the bot's index and [PLAYING]
    at tick 0, whether or not other players are bound to the recording.
    As many ticks of that player as the recording has snapshots hand every
    snapshot's command to the controller, in order and once, teleport the
    bot exactly once, on the first tick, and leave the player [STOPPED] on
    the last snapshot. *)
Theorem on_menu_select_plays (host : Host) (w : World) (rec : addr)
    (r : Recording) (edict : Edict) (c : Controller) (snaps : list Snapshot) :
  recording_heap w !! rec = Some r →
  Recording_items r ≠ [] →
  Forall2 (fun sa s => snapshot_heap w !! sa = Some s) (Recording_items r) snaps →
  let bot_name := bot_name_for r None in
  bot_manager_create_bot host (trace w) bot_name = Some edict →
  bot_manager_get_bot_controller host
    (trace w ++ [CreateBot bot_name (Some edict)]) edict = Some c →
  let new := length (player_heap w) in
  let index := index_from_edict host edict in
  let w1 := world_after (on_menu_select host rec) w in
  let w2 := run_calls (Player_call host new)
              (replicate (length (Recording_items r)) Phandle_tick) w1 in
  outcome (on_menu_select host rec) w = inr tt ∧
  player_heap w1 =
    player_heap w ++ [{| Player_tick := 0; Player_recording := rec;
                         Player_state := PlayerState.PLAYING;
                         Player_controller := c; Player_replay_bot := index;
                         Player_adjust := false |}] ∧
  dict_get index (players w1) = Some new ∧
  Player_state_at w2 new = Some PlayerState.STOPPED ∧
  Player_tick_at w2 new = Some (len (Recording_items r) - 1) ∧
  moves (trace w2) = moves (trace w) ++ map (fun s => (c, Snapshot_bcmd s)) snaps ∧
  teleports (trace w2) = S (teleports (trace w)).
Proof.
  intros Hr Hne Hsnaps bot_name Hb Hc new index w1 w2.
  set (p1 := {| Player_tick := 0; Player_recording := rec;
                Player_state := PlayerState.PLAYING; Player_controller := c;
                Player_replay_bot := index; Player_adjust := false |}).
  assert (Hcreate := create_player_new host w rec r None false edict c Hr Hne Hb Hc).
  cbv zeta in Hcreate. fold new index in Hcreate.
  match type of Hcreate with _ = (?w0, _) => set (w0' := w0) in Hcreate end.
  assert (Hp0 : player_heap w0' !! new =
                Some {| Player_tick := 0; Player_recording := rec;
                        Player_state := PlayerState.PAUSED; Player_controller := c;
                        Player_replay_bot := index; Player_adjust := false |}).
  { unfold w0', new. cbn. rewrite lookup_app_r by lia. now rewrite Nat.sub_diag. }
  assert (E1 : on_menu_select host rec w =
               (with_player_heap (fun h => <[new := p1]> h)
                  (with_trace
                     (fun t => t ++ [SetTeam index (PlayerData_team (Recording_player r));
                                     Spawn index true]) w0'), inr tt)).
  { unfold on_menu_select. rewrite (bind_inr _ _ _ _ _ Hcreate). cbv beta.
    exact (Player_start_unfold w0' new _ r Hp0 Hr). }
  assert (Ew1 : w1 = with_player_heap (fun h => <[new := p1]> h)
                       (with_trace
                          (fun t => t ++ [SetTeam index
                                            (PlayerData_team (Recording_player r));
                                          Spawn index true]) w0'))
    by (unfold w1, world_after; now rewrite E1).
  assert (Hheap : player_heap w1 = player_heap w ++ [p1]).
  { rewrite Ew1. unfold w0', new. cbn.
    rewrite insert_app_r_alt by lia. now rewrite Nat.sub_diag. }
  assert (Hp1 : player_heap w1 !! new = Some p1).
  { rewrite Hheap. unfold new. rewrite lookup_app_r by lia. now rewrite Nat.sub_diag. }
  assert (Hr1 : recording_heap w1 !! Player_recording p1 = Some r)
    by (rewrite Ew1; exact Hr).
  assert (Hs1 : snapshot_heap w1 = snapshot_heap w) by (now rewrite Ew1).
  assert (Hall : Forall (allocated (snapshot_heap w1)) (Recording_items r)).
  { rewrite Hs1. clear - Hsnaps. induction Hsnaps; constructor; eauto.
    eexists; eassumption. }
  assert (Hpos : (0 < length (Recording_items r))%nat)
    by (destruct (Recording_items r); [contradiction|simpl; lia]).
  assert (Hn : length (Recording_items r) = S (length (Recording_items r) - 1))
    by lia.
  assert (Htr : trace w1 = trace w ++ [CreateBot bot_name (Some edict);
                                       GetBotController edict (Some c);
                                       SetTeam index (PlayerData_team (Recording_player r));
                                       Spawn index true]).
  { rewrite Ew1. unfold w0'. cbn. now rewrite <- app_assoc. }
  destruct (Player_ticks_run host new r (length (Recording_items r) - 1) w1 p1
              Hp1 eq_refl Hr1 Hall) as [_ Hstop];
    [cbn; lia | cbn; unfold len; lia |].
  destruct (Player_ticks_moves host new r (length (Recording_items r) - 1) w1 p1 snaps
              Hp1 eq_refl Hr1) as [Hm Ht];
    [cbn; lia | cbn; unfold len; lia | cbn; now rewrite Hs1 |].
  specialize (Hstop 0%nat). rewrite Nat.add_0_r in Hstop.
  unfold w2. rewrite Hn. destruct Hstop as [S1 S2].
  split; [unfold outcome; now rewrite E1|]. split; [exact Hheap|].
  split; [rewrite Ew1; unfold w0'; cbn; apply dict_get_setitem_eq|].
  split; [exact S1|]. split; [exact S2|]. split.
  - rewrite Hm, Htr, moves_app. cbn. now rewrite app_nil_r.
  - rewrite (Ht eq_refl), Htr, teleports_app.
    match goal with
    | |- context [teleports (?e1 :: ?l)] =>
        change (teleports (e1 :: l)) with 0%nat
    end.
    cbn. lia.
Qed.

Lemma on_menu_select_plays_witness :
  teleports (trace (run_calls (Player_call (distance_host 90000) 1%nat)
                      (replicate 3 Phandle_tick)
                      (world_after (on_menu_select (distance_host 90000) 0%nat)
                         playing_world))) =
    S (teleports (trace playing_world)).
Proof.
  edestruct (on_menu_select_plays (distance_host 90000) playing_world 0%nat
               demo_recording 107 107) as (_ & _ & _ & _ & _ & _ & H);
    [reflexivity | discriminate | | reflexivity | reflexivity | exact H].
  change (Recording_items demo_recording) with [0; 1; 2]%nat.
  repeat (eapply Forall2_cons_2; [reflexivity|]). apply Forall2_nil_2.
Defined.
